(** * Graph builder of the biorefinery network analysis (src/utils.py)

    A shallow embedding of the table-to-graph pipeline: node extraction
    ([get_distinct_chemicals]), edge extraction ([get_edges]), graph assembly
    ([create_weighted_undirected_graph], [create_weighted_directed_graph]),
    the aggregation helper ([count_by]) and the selector dispatch of
    degree_distribution.py. *)

From Stdlib Require Import ZArith Ascii String.
From stdpp Require Import base decidable option list strings countable gmap pretty.

Local Open Scope Z_scope.
Local Open Scope string_scope.
Local Open Scope list_scope.

(** ** Python strings

    A [str] is modelled as a [string] whose characters are the code points
    0..255. *)

Module PyStr.

(** [str.isspace] on one code point below 256: TAB, LF, VT, FF, CR, the
    separators FS, GS, RS, US, the space, NEL and the no-break space. *)
Definition is_space (c : ascii) : bool :=
  let n := nat_of_ascii c in
  ((9 <=? n) && (n <=? 13) || (28 <=? n) && (n <=? 32) || (n =? 133) || (n =? 160))%nat.

Fixpoint lstrip (s : string) : string :=
  match s with
  | String c s' => if is_space c then lstrip s' else s
  | EmptyString => EmptyString
  end.

Fixpoint rstrip (s : string) : string :=
  match s with
  | String c s' =>
      match rstrip s' with
      | EmptyString => if is_space c then EmptyString else String c EmptyString
      | r => String c r
      end
  | EmptyString => EmptyString
  end.

(** [s.strip()] *)
Definition strip (s : string) : string := rstrip (lstrip s).

Fixpoint startswith (p s : string) : bool :=
  match p, s with
  | EmptyString, _ => true
  | String a p', String b s' => if decide (a = b) then startswith p' s' else false
  | String _ _, EmptyString => false
  end.

Fixpoint rev_string (acc : string) (cur : list ascii) : string :=
  match cur with
  | [] => acc
  | c :: cur' => rev_string (String c acc) cur'
  end.

(** The scan of [s.split(sep)] for a non-empty [sep]: [cur] holds the piece
    being read (last character first), [skip] the number of characters of a
    separator found at an earlier position that are still to be passed. *)
Fixpoint split_scan (sep : string) (skip : nat) (cur : list ascii) (s : string)
  : list string :=
  match s with
  | EmptyString => [rev_string EmptyString cur]
  | String c s' =>
      match skip with
      | S k => split_scan sep k cur s'
      | O =>
          if startswith sep s
          then rev_string EmptyString cur :: split_scan sep (String.length sep - 1) [] s'
          else split_scan sep 0 (c :: cur) s'
      end
  end.

(** [s.split(sep=sep)] *)
Definition split (sep s : string) : list string := split_scan sep 0 [] s.

End PyStr.

(** ** Python dictionaries

    A [dict] keeps its keys in insertion order; assigning to a key that is
    present replaces the value where it stands, assigning to a new key
    appends it. *)

Module PyDict.
Section dict.
Context {K V : Type} `{EqDecision K}.

Definition dict : Type := list (K * V).

Fixpoint get (k : K) (d : dict) : option V :=
  match d with
  | [] => None
  | (k', v) :: d' => if decide (k = k') then Some v else get k d'
  end.

(** [k in d] *)
Definition contains (k : K) (d : dict) : bool := bool_decide (is_Some (get k d)).

(** [d[k] = v] *)
Fixpoint set (k : K) (v : V) (d : dict) : dict :=
  match d with
  | [] => [(k, v)]
  | (k', v') :: d' => if decide (k = k') then (k, v) :: d' else (k', v') :: set k v d'
  end.

Definition keys (d : dict) : list K := d.*1.
Definition values (d : dict) : list V := d.*2.
End dict.
Arguments dict : clear implicits.
End PyDict.

Abbreviation dict := PyDict.dict.

(** ** Values, exceptions and results *)

(** A node label or a tuple field: an [int] or a [str]. *)
Inductive value : Type :=
| VInt (n : Z)
| VStr (s : string).

#[global] Instance value_eq_dec : EqDecision value.
Proof. solve_decision. Defined.

#[global] Instance value_countable : Countable value.
Proof.
  refine (inj_countable'
            (fun v => match v with VInt n => inl n | VStr s => inr s end)
            (fun x => match x with inl n => VInt n | inr s => VStr s end) _).
  by intros [].
Defined.

Inductive exn : Type :=
| KeyError (key : string)
| IndexError
| Exception (msg : string).

#[global] Instance exn_eq_dec : EqDecision exn.
Proof. solve_decision. Defined.

Inductive outcome (A : Type) : Type :=
| Return (a : A)
| Raise (e : exn).
Arguments Return {A} a.
Arguments Raise {A} e.

Definition obind {A B} (m : outcome A) (f : A -> outcome B) : outcome B :=
  match m with
  | Return a => f a
  | Raise e => Raise e
  end.

Declare Scope outcome_scope.
Delimit Scope outcome_scope with out.
Notation "x <-! m ; f" := (obind m (fun x => f))
  (at level 100, m at next level, f at level 200, right associativity) : outcome_scope.

(** A comprehension [[f(x) for x in l]] whose body may raise. *)
Fixpoint comprehension {A B} (f : A -> outcome B) (l : list A) : outcome (list B) :=
  match l with
  | [] => Return []
  | x :: l' => (y <-! f x; ys <-! comprehension f l'; Return (y :: ys))%out
  end.

(** A [for] loop over [l] threading the loop variables [st]. *)
Fixpoint for_each {A S} (body : S -> A -> outcome S) (st : S) (l : list A) : outcome S :=
  match l with
  | [] => Return st
  | x :: l' => (st' <-! body st x; for_each body st' l')%out
  end.

(** ** Reaction tables

    The data frame holds the string columns [Reactant] and [Product] and,
    optionally, the integer column [Number of Reaction Steps]; all columns
    have one cell per row. *)

Inductive DataFrame : Type :=
| Reactions (rows : list (string * string))
| ReactionsWithSteps (rows : list (string * string * Z)).

#[global] Instance DataFrame_eq_dec : EqDecision DataFrame.
Proof. solve_decision. Defined.

Definition steps_column : string := "Number of Reaction Steps".

(** [len(df)] *)
Definition len (df : DataFrame) : nat :=
  match df with
  | Reactions rows => length rows
  | ReactionsWithSteps rows => length rows
  end.

(** [df["Reactant"]] *)
Definition Reactant (df : DataFrame) : list string :=
  match df with
  | Reactions rows => rows.*1
  | ReactionsWithSteps rows => rows.*1.*1
  end.

(** [df["Product"]] *)
Definition Product (df : DataFrame) : list string :=
  match df with
  | Reactions rows => rows.*2
  | ReactionsWithSteps rows => rows.*1.*2
  end.

(** [df["Number of Reaction Steps"]]; a missing column is a [KeyError]. *)
Definition Number_of_Reaction_Steps (df : DataFrame) : outcome (list Z) :=
  match df with
  | Reactions _ => Raise (KeyError steps_column)
  | ReactionsWithSteps rows => Return rows.*2
  end.

(** [df.columns] *)
Definition columns (df : DataFrame) : list string :=
  match df with
  | Reactions _ => ["Reactant"; "Product"]
  | ReactionsWithSteps _ => ["Reactant"; "Product"; steps_column]
  end.

(** [zip(xs, ys, zs)] stops with the shortest argument. *)
Fixpoint zip3 {A B C} (xs : list A) (ys : list B) (zs : list C) : list (A * B * C) :=
  match xs, ys, zs with
  | x :: xs', y :: ys', z :: zs' => (x, y, z) :: zip3 xs' ys' zs'
  | _, _, _ => []
  end.

(** [df["Number of Reaction Steps"] = col], for a [col] of [len(df)] cells. *)
Definition assign_steps (col : list Z) (df : DataFrame) : DataFrame :=
  ReactionsWithSteps (zip3 (Reactant df) (Product df) col).

(** ** Node extraction *)

Definition separator : string := "; ".

Definition get_distinct_chemicals (df : DataFrame) : dict string Z :=
  let list_of_chemicals := Reactant df ++ Product df in
  fst (foldl (fun st chem_string =>
                let chemicals := PyStr.split separator chem_string in
                foldl (fun '(nodes, idx) chemical =>
                         if PyDict.contains (PyStr.strip chemical) nodes
                         then (nodes, idx)
                         else (PyDict.set (PyStr.strip chemical) idx nodes, idx + 1))
                      st chemicals)
             ([], 1) list_of_chemicals).

Definition df_1 : DataFrame :=
  Reactions [("calcium; oxygen; nitrogen", "oxygen; hydrogen");
             ("carbon-dioxide", "carbon-dioxide");
             ("nitrogen", "nitrogen");
             ("oxygen", "oxygen");
             ("oxygen", "oxygen")].


(** ** Edge extraction

    The caller's table is a mutable object, [print] writes to the standard
    output and the plotting helpers display figures: the three are threaded
    through the functions that touch them. An exception leaves the changes
    made before it in place. *)

Inductive figure : Type :=
| BarPlot
| ScatterPlot
| ExponentFit (text : string)
| ComparisonScatter (option : string)
| PdfComparison (option title : string)
| PdfComparisonInOut.

Record world : Type :=
  World { table : DataFrame; stdout : list string; shown : list figure }.

Definition M (A : Type) : Type := world -> outcome A * world.

Definition ret {A} (a : A) : M A := fun w => (Return a, w).

Definition bind {A B} (m : M A) (f : A -> M B) : M B :=
  fun w => match m w with
           | (Return a, w') => f a w'
           | (Raise e, w') => (Raise e, w')
           end.

Declare Scope world_scope.
Delimit Scope world_scope with world.
Notation "x <~ m ; f" := (bind m (fun x => f))
  (at level 100, m at next level, f at level 200, right associativity) : world_scope.
Notation "m ;; f" := (bind m (fun _ => f))
  (at level 100, f at level 200, right associativity) : world_scope.

Definition lift {A} (o : outcome A) : M A := fun w => (o, w).
Definition read_table : M DataFrame := fun w => (Return (table w), w).
Definition write_table (df : DataFrame) : M unit :=
  fun w => (Return tt, World df (stdout w) (shown w)).
Definition print (line : string) : M unit :=
  fun w => (Return tt, World (table w) (stdout w ++ [line]) (shown w)).
(** [plt.show()] on a finished figure. *)
Definition show (fig : figure) : M unit :=
  fun w => (Return tt, World (table w) (stdout w) (shown w ++ [fig])).

(** An edge [(source, target, weight)]. *)
Definition edge : Type := value * value * Z.

Definition steps_note : string :=
  "Number of Reaction Steps was not given. Feeling in with ones.".

(** [nodes[temp]] *)
Definition node_index (nodes : dict string Z) (temp : string) : outcome value :=
  match PyDict.get temp nodes with
  | Some i => Return (VInt i)
  | None => Raise (KeyError temp)
  end.

(** The endpoints named by one cell: [[nodes[temp] for temp in x.split("; ")]]
    or [[temp for temp in x.split("; ")]]. *)
Definition endpoints (nodes : dict string Z) (use_chemical_names : bool) (cell : string)
  : outcome (list value) :=
  if negb use_chemical_names
  then comprehension (node_index nodes) (PyStr.split separator cell)
  else comprehension (fun temp => Return (VStr temp)) (PyStr.split separator cell).

(** The body of the two inner loops of [get_edges] for one pair. *)
Definition record_edge (allow_multiple_edges : bool) (z : Z)
    (st : dict (value * value) Z * gset edge) (react product : value)
  : dict (value * value) Z * gset edge :=
  let '(added_edges, edges) := st in
  if allow_multiple_edges
  then (PyDict.set (react, product) z added_edges, {[ (react, product, z) ]} ∪ edges)
  else
    match PyDict.get (react, product) added_edges with
    | Some w =>
        if bool_decide (w > z)
        then (PyDict.set (react, product) z added_edges, edges)
        else st
    | None => (PyDict.set (react, product) z added_edges, edges)
    end.

Definition get_edges (nodes : dict string Z)
    (use_chemical_names allow_multiple_edges : bool) : M (gset edge) :=
  (df <~ read_table;
   (if bool_decide (steps_column ∉ columns df)
    then print steps_note;;
         let ones := replicate (len df) 1 in
         write_table (assign_steps ones df)
    else ret tt);;
   df <~ read_table;
   steps <~ lift (Number_of_Reaction_Steps df);
   st <~ lift (for_each
                 (fun st '(x, y, z) =>
                    (reacts <-! endpoints nodes use_chemical_names x;
                     products <-! endpoints nodes use_chemical_names y;
                     Return (foldl (fun st react =>
                                      foldl (fun st product =>
                                               record_edge allow_multiple_edges z st react product)
                                            st products)
                                   st reacts))%out)
                 ([], ∅) (zip3 (Reactant df) (Product df) steps));
   let '(added_edges, edges) := st in
   if negb allow_multiple_edges
   then ret (foldl (fun edges '(key1, key2) =>
                      match PyDict.get (key1, key2) added_edges with
                      | Some w => {[ (key1, key2, w) ]} ∪ edges
                      | None => edges
                      end)
                   ∅ (PyDict.keys added_edges))
   else ret edges)%world.

Definition df_with_steps : DataFrame :=
  ReactionsWithSteps [("calcium; oxygen; nitrogen", "oxygen; hydrogen", 2);
                      ("carbon-dioxide", "carbon-dioxide", 1);
                      ("nitrogen", "nitrogen", 3);
                      ("oxygen", "oxygen", 7);
                      ("oxygen", "oxygen", 4)].


(** ** Aggregation helper *)

(** [element[i]] on a tuple, negative indices counting from the end. *)
Definition tuple_item (element : list value) (i : Z) : outcome value :=
  let n := Z.of_nat (length element) in
  let j := if bool_decide (i < 0) then i + n else i in
  if bool_decide (0 <= j < n)
  then match element !! Z.to_nat j with
       | Some v => Return v
       | None => Raise IndexError
       end
  else Raise IndexError.

Definition count_by (atr_number : Z) (tuple_list : list (list value))
  : outcome (list value * list Z) :=
  (only_attributes <-! comprehension (fun element => tuple_item element atr_number) tuple_list;
   let counter :=
     foldl (fun counter x =>
              match PyDict.get x counter with
              | Some c => PyDict.set x (c + 1) counter
              | None => PyDict.set x 1 counter
              end)
           [] only_attributes in
   let x := PyDict.keys counter in
   let y := PyDict.values counter in
   Return (x, y))%out.

(** ** Graphs (networkx)

    [Graph] keeps the adjacency of networkx, a dictionary of dictionaries
    [adj[u][v]] holding the edge data, here the weight; [MultiDiGraph] keeps
    every edge that was added. *)

Module nx.

(** Modelled from the spec: the undirected graph class of networkx, which
    the sources use and do not contain. It has no parallel edge structure: an
    edge added between two nodes that are already joined overwrites the
    weight of the earlier one. *)
Record Graph : Type :=
  mkGraph { node : dict value unit; adj : dict value (dict value Z) }.

(** [nx.Graph()] *)
Definition Graph_new : Graph := mkGraph [] [].

Definition add_node (n : value) (g : Graph) : Graph :=
  if PyDict.contains n (node g)
  then g
  else mkGraph (PyDict.set n tt (node g)) (PyDict.set n [] (adj g)).

Definition add_nodes_from (nodes_for_adding : list value) (g : Graph) : Graph :=
  foldl (fun g n => add_node n g) g nodes_for_adding.

(** [adj[u][v] = d]; [u] is a node whenever this is reached. *)
Definition adj_set (u v : value) (d : Z) (a : dict value (dict value Z))
  : dict value (dict value Z) :=
  PyDict.set u (PyDict.set v d (default [] (PyDict.get u a))) a.

(** One step of [add_edges_from] for the edge [(u, v, {weight: d})]. *)
Definition add_edge (e : edge) (g : Graph) : Graph :=
  let '(u, v, d) := e in
  let g := add_node u g in
  let g := add_node v g in
  mkGraph (node g) (adj_set v u d (adj_set u v d (adj g))).

Definition add_weighted_edges_from (ebunch_to_add : list edge) (g : Graph) : Graph :=
  foldl (fun g e => add_edge e g) g ebunch_to_add.

(** The edge view: every adjacency entry whose neighbour was not reported
    as a source before. *)
Fixpoint edges_from (seen : list value) (a : dict value (dict value Z)) : list edge :=
  match a with
  | [] => []
  | (n, nbrs) :: a' =>
      omap (fun '(nbr, d) => if decide (nbr ∈ seen) then None else Some (n, nbr, d)) nbrs
        ++ edges_from (n :: seen) a'
  end.

(** [graph.edges.data("weight")] *)
Definition edges (g : Graph) : list edge := edges_from [] (adj g).

(** Modelled from the spec: the directed multigraph class of networkx, which
    the sources use and do not contain. Edges with the same endpoints
    coexist. *)
Record MultiDiGraph : Type :=
  mkMultiDiGraph { di_node : dict value unit; di_edges : list edge }.

Definition MultiDiGraph_new : MultiDiGraph := mkMultiDiGraph [] [].

Definition di_add_node (n : value) (g : MultiDiGraph) : MultiDiGraph :=
  if PyDict.contains n (di_node g)
  then g
  else mkMultiDiGraph (PyDict.set n tt (di_node g)) (di_edges g).

Definition di_add_nodes_from (nodes_for_adding : list value) (g : MultiDiGraph)
  : MultiDiGraph :=
  foldl (fun g n => di_add_node n g) g nodes_for_adding.

Definition di_add_edge (e : edge) (g : MultiDiGraph) : MultiDiGraph :=
  let '(u, v, d) := e in
  let g := di_add_node u g in
  let g := di_add_node v g in
  mkMultiDiGraph (di_node g) (di_edges g ++ [e]).

Definition di_add_weighted_edges_from (ebunch_to_add : list edge) (g : MultiDiGraph)
  : MultiDiGraph :=
  foldl (fun g e => di_add_edge e g) g ebunch_to_add.

End nx.

(** The order in which a [set] yields its elements is not specified: a graph
    assembly takes it as a parameter. *)
Record set_order : Type :=
  SetOrder { iterate :> gset edge -> list edge;
             iterate_perm : forall s, iterate s ≡ₚ elements s }.

Definition elements_order : set_order := SetOrder elements (fun s => reflexivity _).

(** ** Graph assembly *)

Definition chemicals_note (nodes : dict string Z) : string :=
  "There are " +:+ pretty (length nodes) +:+ " chemicals in this graph.".

Definition create_weighted_undirected_graph (order : set_order)
    (use_chemical_names allow_multiple_edges : bool) : M (nx.Graph * dict string Z) :=
  (df <~ read_table;
   let nodes := get_distinct_chemicals df in
   print (chemicals_note nodes);;
   edges <~ get_edges nodes use_chemical_names allow_multiple_edges;
   let graph := nx.Graph_new in
   let graph :=
     if negb use_chemical_names
     then nx.add_nodes_from (VInt <$> PyDict.values nodes) graph
     else nx.add_nodes_from (VStr <$> PyDict.keys nodes) graph in
   let graph := nx.add_weighted_edges_from (order edges) graph in
   ret (graph, nodes))%world.

Definition create_weighted_directed_graph (order : set_order)
    (use_chemical_names allow_multiple_edges : bool)
  : M (nx.MultiDiGraph * dict string Z) :=
  (df <~ read_table;
   let nodes := get_distinct_chemicals df in
   print (chemicals_note nodes);;
   edges <~ get_edges nodes use_chemical_names allow_multiple_edges;
   let graph := nx.MultiDiGraph_new in
   let graph :=
     if negb use_chemical_names
     then nx.di_add_nodes_from (VInt <$> PyDict.values nodes) graph
     else nx.di_add_nodes_from (VStr <$> PyDict.keys nodes) graph in
   let graph := nx.di_add_weighted_edges_from (order edges) graph in
   ret (graph, nodes))%world.

(** ** Dispatch of the degree-distribution analysis (degree_distribution.py)

    Of the plotting helpers only the selector test and the figure that ends
    up displayed are kept; the fitted numbers are not. *)

Module degree_distribution.

Definition invalid_option : exn := Exception "Invalid option provided".

Definition create_bar_plot (graph : nx.MultiDiGraph) : M unit := show BarPlot.
Definition create_scatter_plot (graph : nx.MultiDiGraph) : M unit := show ScatterPlot.
Definition find_exponent (text : string) : M unit := show (ExponentFit text).

Definition create_comparison_scatter_plot_option1 (graph : nx.MultiDiGraph)
    (option : string) : M unit :=
  if decide (option = "out") then show (ComparisonScatter option)
  else if decide (option = "in") then show (ComparisonScatter option)
  else lift (Raise invalid_option).

Definition create_comparison_scatter_plot_option2 (graph : nx.MultiDiGraph)
    (option : string) : M unit :=
  if decide (option = "out") then show (ComparisonScatter option)
  else if decide (option = "in") then show (ComparisonScatter option)
  else lift (Raise invalid_option).

Definition create_pdf_comparison (graph : nx.MultiDiGraph) (option title : string)
  : M unit :=
  if decide (option = "out") then show (PdfComparison option title)
  else if decide (option = "in") then show (PdfComparison option title)
  else lift (Raise invalid_option).

Definition create_pdf_comparison_in_out (graph : nx.MultiDiGraph) : M unit :=
  show PdfComparisonInOut.

Definition comparison_title : string :=
  "Comparison of degree distribution in biorefinery network and NOC".

Definition analyse (order : set_order) (plot_type : string) : M unit :=
  (gn <~ create_weighted_directed_graph order false false;
   let graph := gn.1 in
   if decide (plot_type = "bar") then create_bar_plot graph
   else if decide (plot_type = "scatter") then create_scatter_plot graph
   else if decide (plot_type = "exponent") then
     print "
Analysing exponent for the total-degree...";;
     find_exponent "total";;
     print "
Analysing exponent for the in-degree...";;
     find_exponent "in";;
     print "
Analysing exponent for the out-degree...";;
     find_exponent "out"
   else if decide (plot_type = "scatter_comparison_plot") then
     create_comparison_scatter_plot_option1 graph "out";;
     create_comparison_scatter_plot_option1 graph "in"
   else if decide (plot_type = "distribution_comparison_plot") then
     create_pdf_comparison graph "out" comparison_title;;
     create_pdf_comparison graph "in" comparison_title;;
     create_pdf_comparison_in_out graph
   else ret tt)%world.

End degree_distribution.


(** * Vocabulary of the properties *)

(** The distinct elements of a list, each at its first occurrence. *)
Fixpoint first_seen {A} `{EqDecision A} (l : list A) : list A :=
  match l with
  | [] => []
  | x :: l' => x :: filter (fun y => y <> x) (first_seen l')
  end.

(** The raw tokens of the table: every cell of [Reactant], then of [Product],
    split on the separator. *)
Definition raw_tokens (df : DataFrame) : list string :=
  concat (PyStr.split separator <$> (Reactant df ++ Product df)).

(** The normalised chemical names of the table. *)
Definition chemical_names (df : DataFrame) : list string :=
  PyStr.strip <$> raw_tokens df.

(** One visit of the inner loop of [get_distinct_chemicals]. *)
Definition visit (st : dict string Z * Z) (chemical : string) : dict string Z * Z :=
  let '(nodes, idx) := st in
  if PyDict.contains (PyStr.strip chemical) nodes
  then (nodes, idx)
  else (PyDict.set (PyStr.strip chemical) idx nodes, idx + 1).

Definition numbered (names : list string) : dict string Z :=
  imap (fun i name => (name, Z.of_nat i + 1)) names.


(** The rows of the table with their weights, a row of a table without the
    weight column weighing 1. *)
Definition weighted_rows (df : DataFrame) : list (string * string * Z) :=
  match df with
  | Reactions rows => (fun '(x, y) => (x, y, 1)) <$> rows
  | ReactionsWithSteps rows => rows
  end.

(** The table once the weight column is there. *)
Definition with_steps (df : DataFrame) : DataFrame :=
  ReactionsWithSteps (weighted_rows df).

(** The endpoint a token stands for: itself in name-keyed mode, its
    identifier in index-keyed mode. *)
Definition endpoint (nodes : dict string Z) (use_chemical_names : bool) (tok : string)
  : option value :=
  if use_chemical_names then Some (VStr tok) else VInt <$> PyDict.get tok nodes.

(** The row generates the edge: source and target stand for a token of its
    reactant cell and a token of its product cell, the weight is the row's. *)
Definition generates (nodes : dict string Z) (use_chemical_names : bool)
    (row : string * string * Z) (e : edge) : Prop :=
  exists a b,
    a ∈ PyStr.split separator row.1.1 /\
    b ∈ PyStr.split separator row.1.2 /\
    endpoint nodes use_chemical_names a = Some e.1.1 /\
    endpoint nodes use_chemical_names b = Some e.1.2 /\
    e.2 = row.2.

(** Some row of the table generates the edge. *)
Definition generated (nodes : dict string Z) (use_chemical_names : bool)
    (df : DataFrame) (e : edge) : Prop :=
  exists row, row ∈ weighted_rows df /\ generates nodes use_chemical_names row e.

(** Every token of the table stands for an endpoint. *)
Definition resolvable (nodes : dict string Z) (use_chemical_names : bool)
    (df : DataFrame) : Prop :=
  forall tok, tok ∈ raw_tokens df -> is_Some (endpoint nodes use_chemical_names tok).

(** The edges of one row, reactants outermost. *)
Definition row_edges (nodes : dict string Z) (use_chemical_names : bool)
    (row : string * string * Z) : outcome (list edge) :=
  let '(x, y, z) := row in
  (reacts <-! endpoints nodes use_chemical_names x;
   products <-! endpoints nodes use_chemical_names y;
   Return (react ← reacts; product ← products; [(react, product, z)]))%out.

(** The edges of all rows, in the order in which [get_edges] meets them. *)
Fixpoint expansion (nodes : dict string Z) (use_chemical_names : bool)
    (rows : list (string * string * Z)) : outcome (list edge) :=
  match rows with
  | [] => Return []
  | row :: rows' =>
      (es <-! row_edges nodes use_chemical_names row;
       es' <-! expansion nodes use_chemical_names rows';
       Return (es ++ es'))%out
  end.

Definition record (allow_multiple_edges : bool)
    (st : dict (value * value) Z * gset edge) (e : edge)
  : dict (value * value) Z * gset edge :=
  record_edge allow_multiple_edges e.2 st e.1.1 e.1.2.

(** The set [get_edges] returns from the state its loop ends in. *)
Definition collect (allow_multiple_edges : bool)
    (st : dict (value * value) Z * gset edge) : gset edge :=
  if negb allow_multiple_edges
  then foldl (fun edges '(key1, key2) =>
                match PyDict.get (key1, key2) st.1 with
                | Some w => {[ (key1, key2, w) ]} ∪ edges
                | None => edges
                end)
             ∅ (PyDict.keys st.1)
  else st.2.

(** The lowest of the weights met so far. *)
Definition lowest (cur : option Z) (zs : list Z) : option Z :=
  foldl (fun cur z => match cur with
                      | Some w => if bool_decide (w > z) then Some z else Some w
                      | None => Some z
                      end) cur zs.

(** The weights the edges of [es] give to the pair [p]. *)
Definition weights_of (p : value * value) (es : list edge) : list Z :=
  snd <$> filter (fun e => e.1 = p) es.

(** The number of occurrences of [k] in [l]. *)
Definition occurrences {A} `{EqDecision A} (k : A) (l : list A) : Z :=
  Z.of_nat (length (filter (fun x => x = k) l)).

(** The index selects a field of the tuple. *)
Definition valid_index (i : Z) (element : list value) : Prop :=
  - Z.of_nat (length element) <= i < Z.of_nat (length element).

(** No two listed edges join the same unordered pair of nodes. *)
Definition simple (es : list edge) : Prop :=
  NoDup ((fun e => ({[ e.1.1; e.1.2 ]} : gset value)) <$> es).

(** Every character of the string is whitespace. *)
Fixpoint all_space (s : string) : bool :=
  match s with
  | EmptyString => true
  | String c s' => PyStr.is_space c && all_space s'
  end.

(** The dictionary that maps every key of [ks] to its image under [f]. *)
Definition tabulate {K V : Type} (f : K -> V) (ks : list K) : dict K V :=
  (fun k => (k, f k)) <$> ks.

(** Every dictionary of the adjacency has each key once. *)
Definition adj_wf (a : dict value (dict value Z)) : Prop :=
  NoDup (PyDict.keys a) /\ forall n nbrs, (n, nbrs) ∈ a -> NoDup (PyDict.keys nbrs).

(** A table with a token that carries a trailing space. *)
Definition df_untrimmed : DataFrame :=
  Reactions [("glucose ; water", "ethanol")].

(** Closes a decidable goal on closed terms by evaluation. *)
Ltac by_decide := apply (bool_decide_unpack _); vm_compute; exact I.

(** * Preprocessing (src/preprocess.py) *)

(** [str.lower] on one code point below 256: the capital letters are A to Z
    and the Latin-1 capitals À to Þ without the multiplication sign, each 32
    below its small letter. *)
Definition lower_char (c : ascii) : ascii :=
  let n := nat_of_ascii c in
  if ((65 <=? n) && (n <=? 90) || (192 <=? n) && (n <=? 214) ||
      (216 <=? n) && (n <=? 222))%nat
  then ascii_of_nat (n + 32)
  else c.

(** [s.lower()] *)
Fixpoint lower (s : string) : string :=
  match s with
  | EmptyString => EmptyString
  | String c s' => String (lower_char c) (lower s')
  end.

(** [df["Reactant"] = col], for a [col] of [len(df)] cells. *)
Definition assign_Reactant (col : list string) (df : DataFrame) : DataFrame :=
  match df with
  | Reactions rows => Reactions (zip col rows.*2)
  | ReactionsWithSteps rows => ReactionsWithSteps (zip3 col rows.*1.*2 rows.*2)
  end.

(** [df["Product"] = col], for a [col] of [len(df)] cells. *)
Definition assign_Product (col : list string) (df : DataFrame) : DataFrame :=
  match df with
  | Reactions rows => Reactions (zip rows.*1 col)
  | ReactionsWithSteps rows => ReactionsWithSteps (zip3 rows.*1.*1 col rows.*2)
  end.

(** The cells of the two columns are strings, so that the test
    [isinstance(x, str)] of the source holds for every cell. *)
Definition step1_lowercase : M unit :=
  (df <~ read_table;
   write_table (assign_Reactant ((fun x => lower x) <$> Reactant df) df);;
   df <~ read_table;
   write_table (assign_Product ((fun x => lower x) <$> Product df) df))%world.

Definition preprocess : M DataFrame :=
  (step1_lowercase;;
   read_table)%world.

(** * Numbers and exceptions of the analyses *)

Module Py.

(** An [int], or a [float] held as the operation that gives it: nothing is
    said of its rounding. *)
Inductive number : Type :=
| Int (z : Z)
| Float (z : Z)
| Add (a b : number)
| Mul (a b : number)
| Div (a b : number).

Inductive exn : Type :=
| KeyError (node : value)
| IndexError
| ZeroDivisionError.

Inductive outcome (A : Type) : Type :=
| Return (a : A)
| Raise (e : exn).
Arguments Return {A} a.
Arguments Raise {A} e.

Definition bind {A B} (m : outcome A) (f : A -> outcome B) : outcome B :=
  match m with
  | Return a => f a
  | Raise e => Raise e
  end.

(** A [for] loop over [l] threading the loop variables [st]. *)
Fixpoint for_each {A S} (body : S -> A -> outcome S) (st : S) (l : list A) : outcome S :=
  match l with
  | [] => Return st
  | x :: l' => bind (body st x) (fun st' => for_each body st' l')
  end.

(** [a / b] for an [int] divisor. *)
Definition truediv (a : number) (b : Z) : outcome number :=
  if decide (b = 0) then Raise ZeroDivisionError else Return (Div a (Int b)).

(** [d[k]] *)
Definition getitem {V} (k : value) (d : dict value V) : outcome V :=
  match PyDict.get k d with
  | Some v => Return v
  | None => Raise (KeyError k)
  end.

(** [range(start, stop)] *)
Definition range (start stop : Z) : list Z := seqZ start (stop - start).

End Py.

Declare Scope py_scope.
Delimit Scope py_scope with py.
Notation "x <-? m ; f" := (Py.bind m (fun x => f))
  (at level 100, m at next level, f at level 200, right associativity) : py_scope.

(** * Path lengths (src/graph_property.py) *)

Module graph_property.

(** An entry of the matrix of [nx.floyd_warshall_numpy]: the length of a
    shortest path, a whole number as the weights are, or [inf]. *)
Inductive entry : Type :=
| Finite (d : Z)
| inf.

(** The two nested loops over the matrix, [n] being [len(graph.nodes)]. *)
Definition scan (distance : nat -> nat -> entry) (n : nat) : list Z * Z :=
  foldl (fun st i =>
           foldl (fun '(distances, max_length) j =>
                    if bool_decide (i <> j)
                    then match distance i j with
                         | Finite d =>
                             (distances ++ [d],
                              if bool_decide (d > max_length) then d else max_length)
                         | inf => (distances, max_length)
                         end
                    else (distances, max_length))
                 st (seq 0 n))
        ([], 0) (seq 0 n).

(** The loop that fills [x] and [y] and adds up [num] and [avg]. *)
Definition tally (counter : Z -> Z) (max_length : Z) : list Z * list Py.number * Z * Z :=
  foldl (fun '(x, y, num, avg) i =>
           let pom := counter i in
           (x ++ [i], y ++ [Py.Int pom], num + pom, avg + pom * i))
        ([], [], 0, 0) (Py.range 1 max_length).

(** [y[i - 1] /= num] *)
Definition normalise (num : Z) (y : list Py.number) (i : Z) : Py.outcome (list Py.number) :=
  match y !! Z.to_nat (i - 1) with
  | Some pom => (q <-? Py.truediv pom num; Py.Return (<[Z.to_nat (i - 1) := q]> y))%py
  | None => Py.Raise Py.IndexError
  end.

(** [distance] is the matrix [nx.floyd_warshall_numpy(graph)], [n] is
    [len(graph.nodes)]. *)
Definition average_shortest_path (distance : nat -> nat -> entry) (n : nat)
  : Py.outcome (list Z * list Py.number * Py.number) :=
  let '(distances, max_length) := scan distance n in
  let counter := fun i => occurrences i distances in
  let '(x, y, num, avg) := tally counter max_length in
  (y <-? Py.for_each (normalise num) y (Py.range 1 max_length);
   avg <-? Py.truediv (Py.Int avg) num;
   Py.Return (x, y, avg))%py.

End graph_property.

(** * Cluster rating (src/graph_clusters.py) *)

Module graph_clusters.

(** [enumerate(l)] *)
Definition enumerate {A} (l : list A) : list (Z * A) :=
  imap (fun i x => (Z.of_nat i, x)) l.

(** The first loop: a zero count for every community, and every node
    assigned to the community that lists it. *)
Definition assign (communities : list (list value))
  : dict value Z * dict value Z * dict value Z :=
  foldl (fun '(node_community, intra_edges, inter_edges) '(i, community) =>
           let intra_edges := PyDict.set (VInt i) 0 intra_edges in
           let inter_edges := PyDict.set (VInt i) 0 inter_edges in
           (foldl (fun node_community node => PyDict.set node i node_community)
                  node_community community,
            intra_edges, inter_edges))
        ([], [], []) (enumerate communities).

(** The body of the loop over the edges. *)
Definition count_edge (node_community : dict value Z)
    (st : dict value Z * dict value Z) (e : value * value)
  : Py.outcome (dict value Z * dict value Z) :=
  let '(intra_edges, inter_edges) := st in
  (community1 <-? Py.getitem e.1 node_community;
   community2 <-? Py.getitem e.2 node_community;
   if decide (community1 = community2)
   then
     count <-? Py.getitem (VInt community1) intra_edges;
     Py.Return (PyDict.set (VInt community1) (count + 1) intra_edges, inter_edges)
   else
     count <-? Py.getitem (VInt community1) inter_edges;
     let inter_edges := PyDict.set (VInt community1) (count + 1) inter_edges in
     count <-? Py.getitem (VInt community2) inter_edges;
     let inter_edges := PyDict.set (VInt community2) (count + 1) inter_edges in
     Py.Return (intra_edges, inter_edges))%py.

(** The body of the loop that adds up the ratings. *)
Definition rate (intra_edges inter_edges : dict value Z)
    (result : Py.number) (it : Z * list value) : Py.outcome Py.number :=
  let '(i, community) := it in
  (intra <-? Py.getitem (VInt i) intra_edges;
   inter <-? Py.getitem (VInt i) inter_edges;
   cluster_rating <-? Py.truediv (Py.Mul (Py.Float 2) (Py.Int intra)) inter;
   Py.Return (Py.Add result cluster_rating))%py.

(** [edges] is the view [graph.edges()]. *)
Definition calculate_cluster_performance (communities : list (list value))
    (edges : list (value * value)) : Py.outcome Py.number :=
  if decide (length communities = 1%nat)
  then Py.Return (Py.Int (-1))
  else
    let '(node_community, intra_edges, inter_edges) := assign communities in
    (st <-? Py.for_each (count_edge node_community) (intra_edges, inter_edges) edges;
     result <-? Py.for_each (rate st.1 st.2) (Py.Int 0) (enumerate communities);
     Py.truediv result (Z.of_nat (length communities)))%py.

End graph_clusters.

(** * Vocabulary of the further properties *)

(** The sum of a list of integers. *)
Definition sum_Z (l : list Z) : Z := foldr Z.add 0 l.

(** The two tables hold the same rows, in whatever order. *)
Definition same_rows (df df' : DataFrame) : Prop :=
  weighted_rows df ≡ₚ weighted_rows df'.

(** The weight the adjacency holds for the edge from [u] to [v]. *)
Definition weight_of (a : dict value (dict value Z)) (u v : value) : option Z :=
  PyDict.get v (default [] (PyDict.get u a)).

(** The node is an endpoint of some edge of the list. *)
Definition endpoint_of (n : value) (es : list edge) : Prop :=
  exists e, e ∈ es /\ (n = e.1.1 \/ n = e.1.2).

(** The invariant of [Graph]: the adjacency has a dictionary for every node
    and for nothing else, and no key twice. *)
Definition graph_wf (g : nx.Graph) : Prop :=
  PyDict.keys (nx.adj g) = PyDict.keys (nx.node g) /\ NoDup (PyDict.keys (nx.node g)).

(** The table with every cell of the two name columns in lower case. *)
Definition lowered (df : DataFrame) : DataFrame :=
  match df with
  | Reactions rows => Reactions ((fun '(x, y) => (lower x, lower y)) <$> rows)
  | ReactionsWithSteps rows =>
      ReactionsWithSteps ((fun '(x, y, z) => (lower x, lower y, z)) <$> rows)
  end.

(** A node label in lower case; an identifier has no case. *)
Definition lower_value (v : value) : value :=
  match v with
  | VStr s => VStr (lower s)
  | VInt i => VInt i
  end.

Definition lower_edge (e : edge) : edge := (lower_value e.1.1, lower_value e.1.2, e.2).

(** The finite entries of the matrix off its diagonal, row by row. *)
Definition finite_lengths (distance : nat -> nat -> graph_property.entry) (n : nat) : list Z :=
  i ← seq 0 n; j ← seq 0 n;
  if bool_decide (i <> j)
  then match distance i j with
       | graph_property.Finite d => [d]
       | graph_property.inf => []
       end
  else [].

(** The largest of the lengths, 0 if none is positive. *)
Definition longest (ds : list Z) : Z := foldl Z.max 0 ds.

(** The lengths that are counted: from 1 to below [m]. *)
Definition counted (m : Z) (ds : list Z) : list Z :=
  filter (fun d => 1 <= d < m) ds.

(** The matrix of the chain of three nodes with its two edges of weight 1. *)
Definition chain_distance (i j : nat) : graph_property.entry :=
  match i, j with
  | 0%nat, 1%nat | 1%nat, 2%nat => graph_property.Finite 1
  | 0%nat, 2%nat => graph_property.Finite 2
  | _, _ => if decide (i = j) then graph_property.Finite 0 else graph_property.inf
  end.

(** The communities that list the node, by their indices. *)
Definition listing (communities : list (list value)) (node : value) : list Z :=
  omap (fun '(i, community) => if decide (node ∈ community) then Some i else None)
       (graph_clusters.enumerate communities).

(** The community of the node: the last one that lists it. *)
Definition community_of (communities : list (list value)) (node : value) : option Z :=
  last (listing communities node).

(** The edge lies inside the community [i]: both its endpoints are there. *)
Definition inside (cin : value -> option Z) (i : Z) (e : value * value) : Prop :=
  cin e.1 = Some i /\ cin e.2 = Some i.

(** The edge crosses the border of the community [i]: its endpoints are in
    two communities, one of them [i]. *)
Definition across (cin : value -> option Z) (i : Z) (e : value * value) : Prop :=
  cin e.1 <> cin e.2 /\ (cin e.1 = Some i \/ cin e.2 = Some i).

#[global] Instance inside_dec cin i e : Decision (inside cin i e).
Proof. unfold inside. apply _. Defined.

#[global] Instance across_dec cin i e : Decision (across cin i e).
Proof. unfold across. apply _. Defined.

(** The number of edges inside the community [i]. *)
Definition intra_count (communities : list (list value)) (edges : list (value * value))
    (i : Z) : Z :=
  Z.of_nat (length (filter (inside (community_of communities) i) edges)).

(** The number of edges across the border of the community [i]. *)
Definition inter_count (communities : list (list value)) (edges : list (value * value))
    (i : Z) : Z :=
  Z.of_nat (length (filter (across (community_of communities) i) edges)).

(** The dictionary holds the count [f i] for every index [i] below the bound. *)
Definition counts (bound : Z) (d : dict value Z) (f : Z -> Z) : Prop :=
  forall i, 0 <= i < bound -> PyDict.get (VInt i) d = Some (f i).

(** Every endpoint of the edges is listed by a community. *)
Definition covered (communities : list (list value)) (edges : list (value * value)) : Prop :=
  forall e, e ∈ edges -> is_Some (community_of communities e.1) /\
                          is_Some (community_of communities e.2).

(** The sum of the ratings, added up from 0 in the order of the communities. *)
Definition ratings (communities : list (list value)) (edges : list (value * value))
  : Py.number :=
  foldl (fun result i =>
           Py.Add result (Py.Div (Py.Mul (Py.Float 2) (Py.Int (intra_count communities edges i)))
                                 (Py.Int (inter_count communities edges i))))
        (Py.Int 0) (seqZ 0 (Z.of_nat (length communities))).

(** * Properties *)

(** ** Dictionaries *)

Section dict_facts.
Context {K V : Type} `{EqDecision K}.
Implicit Types (d : dict K V) (k : K) (v : V).

Lemma get_None d k : PyDict.get k d = None <-> k ∉ PyDict.keys d.
Proof.
  unfold PyDict.keys. induction d as [|[k' v'] d IH]; simpl.
  - split; [intros _; apply not_elem_of_nil | done].
  - rewrite not_elem_of_cons. destruct (decide (k = k')); [|tauto].
    split; [done | tauto].
Qed.

Lemma get_Some_elem d k v : PyDict.get k d = Some v -> (k, v) ∈ d.
Proof.
  induction d as [|[k' v'] d IH]; simpl; [done|].
  destruct (decide (k = k')) as [->|]; intros Hg.
  - injection Hg as ->. left.
  - right. by apply IH.
Qed.

Lemma get_is_Some d k : is_Some (PyDict.get k d) <-> k ∈ PyDict.keys d.
Proof.
  rewrite <- not_eq_None_Some, get_None.
  split; [apply dec_stable | tauto].
Qed.

Lemma contains_keys d k : PyDict.contains k d = bool_decide (k ∈ PyDict.keys d).
Proof. unfold PyDict.contains. apply bool_decide_ext, get_is_Some. Qed.

Lemma set_absent d k v : k ∉ PyDict.keys d -> PyDict.set k v d = d ++ [(k, v)].
Proof.
  unfold PyDict.keys. induction d as [|[k' v'] d IH]; simpl; [done|].
  rewrite not_elem_of_cons. intros [Hne Hk].
  destruct (decide (k = k')); [done|]. by rewrite IH.
Qed.

Lemma get_set_eq d k v : PyDict.get k (PyDict.set k v d) = Some v.
Proof.
  induction d as [|[k' v'] d IH]; simpl.
  - by rewrite decide_True.
  - destruct (decide (k = k')) as [->|Hne]; simpl.
    + by rewrite decide_True.
    + by rewrite decide_False.
Qed.

Lemma get_set_ne d k k' v : k <> k' -> PyDict.get k' (PyDict.set k v d) = PyDict.get k' d.
Proof.
  intros Hne. induction d as [|[k0 v0] d IH]; simpl.
  - by rewrite decide_False.
  - destruct (decide (k = k0)) as [->|]; simpl.
    + by rewrite !decide_False.
    + by rewrite IH.
Qed.

Lemma keys_set_present d k v : k ∈ PyDict.keys d -> PyDict.keys (PyDict.set k v d) = PyDict.keys d.
Proof.
  unfold PyDict.keys. induction d as [|[k' v'] d IH]; simpl.
  - by intros ?%elem_of_nil.
  - destruct (decide (k = k')) as [->|Hne]; simpl; [done|].
    rewrite elem_of_cons. intros [?|Hk]; [done|]. f_equal. by apply IH.
Qed.

Lemma get_elem_NoDup d k v : NoDup (PyDict.keys d) -> (k, v) ∈ d -> PyDict.get k d = Some v.
Proof.
  unfold PyDict.keys. induction d as [|[k' v'] d IH]; simpl.
  - by intros _ ?%elem_of_nil.
  - rewrite NoDup_cons, elem_of_cons. intros [Hk' Hnd] [Heq|Hin].
    + injection Heq as -> ->. by rewrite decide_True.
    + destruct (decide (k = k')) as [->|]; [|by apply IH].
      destruct Hk'. apply list_elem_of_fmap. by exists (k', v).
Qed.
End dict_facts.

(** ** Node extraction *)

Section first_seen_facts.
Context {A : Type} `{EqDecision A}.
Implicit Types (l : list A) (x : A).

Lemma elem_of_first_seen l x : x ∈ first_seen l <-> x ∈ l.
Proof.
  induction l as [|y l IH]; simpl; [done|].
  rewrite !elem_of_cons, list_elem_of_filter, IH.
  destruct (decide (x = y)); tauto.
Qed.

Lemma NoDup_first_seen l : NoDup (first_seen l).
Proof.
  induction l as [|y l IH]; simpl; [constructor|].
  apply NoDup_cons. split; [|by apply NoDup_filter].
  rewrite list_elem_of_filter. tauto.
Qed.
End first_seen_facts.

Lemma keys_numbered names : PyDict.keys (numbered names) = names.
Proof.
  unfold PyDict.keys, numbered. rewrite fmap_imap.
  induction names as [|n names IH] using rev_ind; [done|].
  rewrite imap_app, IH. simpl. done.
Qed.

Lemma values_numbered names :
  PyDict.values (numbered names) = seqZ 1 (Z.of_nat (length names)).
Proof.
  unfold PyDict.values, numbered. rewrite fmap_imap.
  induction names as [|n names IH] using rev_ind; [done|].
  rewrite imap_app, IH, length_app. simpl.
  replace (Z.of_nat (length names + 1)) with (Z.of_nat (length names) + 1) by lia.
  rewrite seqZ_app by lia. f_equal.
  rewrite Nat.add_0_r. replace 1 with (Z.succ 0) at 3 by done.
  rewrite seqZ_cons by lia. simpl. f_equal. lia.
Qed.

Lemma get_distinct_chemicals_flat df :
  get_distinct_chemicals df = (foldl visit ([], 1) (raw_tokens df)).1.
Proof.
  unfold get_distinct_chemicals, raw_tokens. f_equal.
  generalize (Reactant df ++ Product df) as cells.
  generalize (@nil (string * Z), 1) as st.
  intros st cells. revert st.
  induction cells as [|c cells IH]; intros st; simpl; [done|].
  rewrite foldl_app, <- IH. f_equal.
  generalize (PyStr.split separator c) as toks. intros toks. revert st.
  induction toks as [|t toks IHt]; intros st; simpl; [done|].
  rewrite <- IHt. f_equal. by destruct st.
Qed.

Lemma filter_filter_absorb {A} (P Q : A -> Prop)
    `{forall x, Decision (P x)} `{forall x, Decision (Q x)} (l : list A) :
  (forall x, P x -> Q x) -> filter P (filter Q l) = filter P l.
Proof.
  intros HPQ. rewrite list_filter_filter. apply list_filter_iff.
  intros x. split; [tauto | auto].
Qed.

Lemma filter_notin_snoc {A} `{EqDecision A} (names l : list A) (s : A) :
  filter (fun x => x ∉ names ++ [s]) l =
  filter (fun x => x ∉ names) (filter (fun y => y <> s) l).
Proof.
  rewrite list_filter_filter. apply list_filter_iff. intros x.
  rewrite elem_of_app, list_elem_of_singleton. tauto.
Qed.

Lemma numbered_snoc names s :
  numbered names ++ [(s, Z.of_nat (length names) + 1)] = numbered (names ++ [s]).
Proof. unfold numbered. rewrite imap_app. simpl. by rewrite Nat.add_0_r. Qed.

Lemma foldl_visit_numbered toks : forall names,
  NoDup names ->
  foldl visit (numbered names, Z.of_nat (length names) + 1) toks =
  (numbered (names ++ filter (fun x => x ∉ names) (first_seen (PyStr.strip <$> toks))),
   Z.of_nat (length (names ++ filter (fun x => x ∉ names)
                                     (first_seen (PyStr.strip <$> toks)))) + 1).
Proof.
  induction toks as [|t toks IH]; intros names Hnd.
  - simpl. by rewrite app_nil_r.
  - rewrite fmap_cons. cbn [foldl first_seen visit].
    rewrite contains_keys, keys_numbered.
    destruct (decide (PyStr.strip t ∈ names)) as [Hin|Hout].
    + rewrite bool_decide_true by done. rewrite IH by done.
      rewrite filter_cons_False by tauto.
      rewrite filter_filter_absorb; [done|]. by intros x Hx ->.
    + rewrite bool_decide_false by done.
      rewrite set_absent by by rewrite keys_numbered.
      rewrite numbered_snoc.
      replace (Z.of_nat (length names) + 1 + 1)
        with (Z.of_nat (length (names ++ [PyStr.strip t])) + 1)
        by (rewrite length_app; simpl; lia).
      rewrite IH.
      2:{ apply NoDup_app. split_and!; [done| |apply NoDup_singleton].
          intros x Hx ->%list_elem_of_singleton. done. }
      rewrite filter_cons_True by done.
      by rewrite filter_notin_snoc, <- app_assoc.
Qed.

(** Node extraction numbers the normalised names from 1 in the order in
    which they are first seen. *)
Lemma get_distinct_chemicals_numbered df :
  get_distinct_chemicals df = numbered (first_seen (chemical_names df)).
Proof.
  rewrite get_distinct_chemicals_flat.
  pose proof (foldl_visit_numbered (raw_tokens df) [] (NoDup_nil_2)) as H.
  change (numbered [], Z.of_nat (length (@nil string)) + 1)
    with (@nil (string * Z), 1) in H.
  rewrite H. cbn [fst app]. unfold chemical_names. f_equal.
  generalize (first_seen (PyStr.strip <$> raw_tokens df)) as l.
  induction l as [|x l IH]; [done|].
  rewrite filter_cons_True by apply not_elem_of_nil. by f_equal.
Qed.

(** ** Results and loops *)

Lemma comprehension_Return {A B} (f : A -> outcome B) l ys :
  comprehension f l = Return ys <-> Forall2 (fun x y => f x = Return y) l ys.
Proof.
  revert ys. induction l as [|x l IH]; intros ys; simpl.
  - split; [intros [= <-]; constructor | by intros ->%Forall2_nil_inv_l].
  - destruct (f x) as [y|e] eqn:Hx; simpl.
    + destruct (comprehension f l) as [ys'|e] eqn:Hl; simpl.
      * split.
        -- intros [= <-]. constructor; [done|]. by apply IH.
        -- intros (y' & ys'' & Hy & Hys & ->)%Forall2_cons_inv_l.
           apply IH in Hys. congruence.
      * split; [done|].
        intros (y' & ys'' & Hy & Hys & ->)%Forall2_cons_inv_l.
        apply IH in Hys. done.
    + split; [done|].
      intros (y' & ys'' & Hy & Hys & ->)%Forall2_cons_inv_l. congruence.
Qed.

Lemma comprehension_Raise {A B} (f : A -> outcome B) l e :
  comprehension f l = Raise e -> exists x, x ∈ l /\ f x = Raise e.
Proof.
  induction l as [|x l IH]; simpl; [done|].
  destruct (f x) as [y|e'] eqn:Hx; simpl.
  - destruct (comprehension f l) as [ys'|e'] eqn:Hl; simpl; [done|].
    intros [= ->]. destruct IH as (x' & Hin & Hx'); [done|].
    exists x'. split; [by right | done].
  - intros [= ->]. exists x. split; [left | done].
Qed.

Lemma comprehension_total {A B} (f : A -> outcome B) l :
  (forall x, x ∈ l -> exists y, f x = Return y) -> exists ys, comprehension f l = Return ys.
Proof.
  intros Hall. destruct (comprehension f l) as [ys|e] eqn:Hl; [by eexists|].
  apply comprehension_Raise in Hl as (x & Hin & Hx).
  destruct (Hall x Hin) as [y Hy]. congruence.
Qed.

Lemma Forall2_elem_of_r {A B} (P : A -> B -> Prop) l k y :
  Forall2 P l k -> y ∈ k -> exists x, x ∈ l /\ P x y.
Proof.
  induction 1 as [|x y' l k HP _ IH]; [by intros ?%elem_of_nil|].
  rewrite elem_of_cons. intros [->|Hin].
  - exists x. split; [left | done].
  - destruct (IH Hin) as (x' & Hx' & HPx). exists x'. split; [by right | done].
Qed.

Lemma Forall2_elem_of_l {A B} (P : A -> B -> Prop) l k x :
  Forall2 P l k -> x ∈ l -> exists y, y ∈ k /\ P x y.
Proof.
  induction 1 as [|x' y l k HP _ IH]; [by intros ?%elem_of_nil|].
  rewrite elem_of_cons. intros [->|Hin].
  - exists y. split; [left | done].
  - destruct (IH Hin) as (y' & Hy' & HPy). exists y'. split; [by right | done].
Qed.

(** ** Edge extraction *)

Section edges.
Variable nodes : dict string Z.
Variable use_chemical_names : bool.

Lemma node_index_endpoint tok v :
  node_index nodes tok = Return v <-> endpoint nodes false tok = Some v.
Proof.
  unfold node_index, endpoint.
  destruct (PyDict.get tok nodes); simpl; split; congruence.
Qed.

Lemma endpoints_Return cell vs :
  endpoints nodes use_chemical_names cell = Return vs <->
  Forall2 (fun tok v => endpoint nodes use_chemical_names tok = Some v)
          (PyStr.split separator cell) vs.
Proof.
  unfold endpoints. destruct use_chemical_names; simpl;
    rewrite comprehension_Return; split; intros H;
    eapply Forall2_impl; try exact H; intros tok v.
  - unfold endpoint. congruence.
  - unfold endpoint. congruence.
  - apply node_index_endpoint.
  - apply node_index_endpoint.
Qed.

Lemma endpoints_Raise cell e :
  endpoints nodes use_chemical_names cell = Raise e ->
  exists tok, tok ∈ PyStr.split separator cell /\ use_chemical_names = false /\
              PyDict.get tok nodes = None /\ e = KeyError tok.
Proof.
  unfold endpoints. destruct use_chemical_names; simpl;
    intros (tok & Hin & Htok)%comprehension_Raise; [done|].
  exists tok. unfold node_index in Htok.
  destruct (PyDict.get tok nodes); [done|]. by injection Htok as <-.
Qed.

Lemma elem_of_row_edges row es e :
  row_edges nodes use_chemical_names row = Return es ->
  e ∈ es <-> generates nodes use_chemical_names row e.
Proof.
  destruct row as [[x y] z]. unfold row_edges, generates. simpl.
  destruct (endpoints nodes use_chemical_names x) as [reacts|] eqn:Hx; [|done].
  destruct (endpoints nodes use_chemical_names y) as [products|] eqn:Hy; [|done].
  simpl. intros [= <-].
  apply endpoints_Return in Hx, Hy.
  rewrite list_elem_of_bind. split.
  - intros (react & (product & Hsing & Hp)%list_elem_of_bind & Hr).
    apply list_elem_of_singleton in Hsing as ->. simpl.
    destruct (Forall2_elem_of_r _ _ _ _ Hx Hr) as (a & Ha & Hea).
    destruct (Forall2_elem_of_r _ _ _ _ Hy Hp) as (b & Hb & Heb).
    by exists a, b.
  - intros (a & b & Ha & Hb & Hea & Heb & Hz).
    destruct (Forall2_elem_of_l _ _ _ _ Hx Ha) as (react & Hr & Hea').
    destruct (Forall2_elem_of_l _ _ _ _ Hy Hb) as (product & Hp & Heb').
    exists react. split; [|done].
    apply list_elem_of_bind. exists product. split; [|done].
    apply list_elem_of_singleton. destruct e as [[s t] w]. simpl in *. congruence.
Qed.

Lemma row_edges_Raise row e :
  row_edges nodes use_chemical_names row = Raise e ->
  exists tok, (tok ∈ PyStr.split separator row.1.1 \/ tok ∈ PyStr.split separator row.1.2) /\
              use_chemical_names = false /\ PyDict.get tok nodes = None /\ e = KeyError tok.
Proof.
  destruct row as [[x y] z]. unfold row_edges. simpl.
  destruct (endpoints nodes use_chemical_names x) as [reacts|] eqn:Hx; simpl.
  - destruct (endpoints nodes use_chemical_names y) as [products|] eqn:Hy; simpl; [done|].
    intros [= <-]. apply endpoints_Raise in Hy as (tok & ? & ? & ? & ?).
    exists tok. tauto.
  - intros [= <-]. apply endpoints_Raise in Hx as (tok & ? & ? & ? & ?).
    exists tok. tauto.
Qed.

Lemma elem_of_expansion rows es e :
  expansion nodes use_chemical_names rows = Return es ->
  e ∈ es <-> exists row, row ∈ rows /\ generates nodes use_chemical_names row e.
Proof.
  revert es. induction rows as [|row rows IH]; intros es; simpl.
  - intros [= <-]. split; [by intros ?%elem_of_nil|].
    by intros (row & ?%elem_of_nil & _).
  - destruct (row_edges nodes use_chemical_names row) as [es1|] eqn:Hrow; [|done].
    destruct (expansion nodes use_chemical_names rows) as [es2|]; [|done].
    simpl. intros [= <-]. rewrite elem_of_app, (elem_of_row_edges _ _ _ Hrow), (IH es2 eq_refl).
    split.
    + intros [Hg|(row' & Hin & Hg)]; [exists row | exists row'];
        (split; [|done]); [left | by right].
    + intros (row' & [->|Hin]%elem_of_cons & Hg); [by left | right; by exists row'].
Qed.

Lemma expansion_Raise rows e :
  expansion nodes use_chemical_names rows = Raise e ->
  exists row tok,
    row ∈ rows /\
    (tok ∈ PyStr.split separator row.1.1 \/ tok ∈ PyStr.split separator row.1.2) /\
    use_chemical_names = false /\ PyDict.get tok nodes = None /\ e = KeyError tok.
Proof.
  induction rows as [|row rows IH]; simpl; [done|].
  destruct (row_edges nodes use_chemical_names row) as [es1|] eqn:Hrow; simpl.
  - destruct (expansion nodes use_chemical_names rows) as [es2|]; simpl; [done|].
    intros [= <-]. destruct IH as (row' & tok & Hin & H); [done|].
    exists row', tok. split; [by right | done].
  - intros [= <-]. apply row_edges_Raise in Hrow as (tok & H).
    exists row, tok. split; [left | done].
Qed.

(** The loop of [get_edges] is the expansion of the rows followed by one
    pass over the generated edges. *)
Lemma for_each_expansion allow_multiple_edges rows st :
  for_each
    (fun st '(x, y, z) =>
       (reacts <-! endpoints nodes use_chemical_names x;
        products <-! endpoints nodes use_chemical_names y;
        Return (foldl (fun st react =>
                         foldl (fun st product =>
                                  record_edge allow_multiple_edges z st react product)
                               st products)
                      st reacts))%out)
    st rows =
  (es <-! expansion nodes use_chemical_names rows;
   Return (foldl (record allow_multiple_edges) st es))%out.
Proof.
  revert st. induction rows as [|[[x y] z] rows IH]; intros st; simpl; [done|].
  destruct (endpoints nodes use_chemical_names x) as [reacts|]; simpl; [|done].
  destruct (endpoints nodes use_chemical_names y) as [products|]; simpl; [|done].
  rewrite IH.
  destruct (expansion nodes use_chemical_names rows) as [es2|]; simpl; [|done].
  rewrite foldl_app. do 2 f_equal.
  clear. revert st. induction reacts as [|react reacts IHr]; intros st; simpl; [done|].
  rewrite foldl_app, <- IHr. f_equal.
  clear. revert st. induction products as [|product products IHp]; intros st; simpl; [done|].
  by rewrite <- IHp.
Qed.
End edges.

(** *** The pass over the generated edges *)

Lemma record_allow es : forall added edges,
  (foldl (record true) (added, edges) es).2 = list_to_set es ∪ edges.
Proof.
  induction es as [|[[s t] z] es IH]; intros added edges; simpl.
  - by rewrite (left_id_L ∅ (∪)).
  - rewrite IH. by rewrite (assoc_L (∪)), (comm_L (∪) {[ _ ]}).
Qed.

Lemma record_collapse_get p es : forall added edges,
  PyDict.get p (foldl (record false) (added, edges) es).1 =
  lowest (PyDict.get p added) (weights_of p es).
Proof.
  unfold lowest, weights_of.
  induction es as [|[[s t] z] es IH]; intros added edges; [done|].
  cbn [foldl]. unfold record at 2, record_edge. cbn [fst snd].
  destruct (decide ((s, t) = p)) as [<-|Hne].
  - rewrite filter_cons_True by done. rewrite fmap_cons. cbn [foldl snd].
    destruct (PyDict.get (s, t) added) as [w|] eqn:Hget.
    + destruct (bool_decide (w > z)); rewrite IH.
      * by rewrite get_set_eq.
      * by rewrite Hget.
    + rewrite IH. by rewrite get_set_eq.
  - rewrite filter_cons_False by done.
    destruct (PyDict.get (s, t) added) as [w|] eqn:Hget.
    + destruct (bool_decide (w > z)); rewrite IH; [|done].
      by rewrite get_set_ne.
    + rewrite IH. by rewrite get_set_ne.
Qed.

Lemma lowest_Some cur zs m :
  lowest cur zs = Some m ->
  (cur = Some m \/ m ∈ zs) /\ (forall w, cur = Some w -> m <= w) /\ (forall z, z ∈ zs -> m <= z).
Proof.
  unfold lowest. revert cur. induction zs as [|z zs IH]; intros cur; simpl.
  - intros ->. split_and!; [by left | intros w [= ->]; lia | by intros z ?%elem_of_nil].
  - intros H. apply IH in H as (Hfrom & Hcur & Hzs).
    destruct cur as [w|].
    + case_bool_decide as Hwz.
      * split_and!.
        -- right. destruct Hfrom as [[= ->]|?]; [left | by right].
        -- intros w' [= <-]. specialize (Hcur z eq_refl). lia.
        -- intros z' [->|?]%elem_of_cons; [by apply Hcur | by apply Hzs].
      * split_and!.
        -- destruct Hfrom as [?|?]; [by left | right; by right].
        -- done.
        -- intros z' [->|?]%elem_of_cons; [|by apply Hzs].
           specialize (Hcur w eq_refl). lia.
    + split_and!.
      * right. destruct Hfrom as [[= ->]|?]; [left | by right].
      * done.
      * intros z' [->|?]%elem_of_cons; [by apply Hcur | by apply Hzs].
Qed.

Lemma lowest_None cur zs : lowest cur zs = None -> cur = None /\ zs = [].
Proof.
  unfold lowest. revert cur. induction zs as [|z zs IH]; intros cur; simpl; [done|].
  intros H. apply IH in H as [H _].
  destruct cur; [case_bool_decide|]; done.
Qed.

Lemma elem_of_weights_of p es z : z ∈ weights_of p es <-> (p, z) ∈ es.
Proof.
  unfold weights_of. rewrite list_elem_of_fmap. split.
  - intros ([p' z'] & -> & [Hp Hin]%list_elem_of_filter). simpl in *. by subst.
  - intros Hin. exists (p, z). split; [done|]. by apply list_elem_of_filter.
Qed.

Lemma elem_of_collect_collapse st s t w :
  (s, t, w) ∈ collect false st <-> PyDict.get (s, t) st.1 = Some w.
Proof.
  destruct st as [added edges]. unfold collect. cbn [negb fst].
  assert (Hgen : forall (ks : list (value * value)) (acc : gset edge),
    (s, t, w) ∈ foldl (fun edges '(key1, key2) =>
                         match PyDict.get (key1, key2) added with
                         | Some w => {[ (key1, key2, w) ]} ∪ edges
                         | None => edges
                         end) acc ks <->
    (s, t, w) ∈ acc \/ ((s, t) ∈ ks /\ PyDict.get (s, t) added = Some w)).
  { induction ks as [|[k1 k2] ks IH]; intros acc; simpl.
    - split; [by left|]. intros [?|[?%elem_of_nil _]]; done.
    - rewrite IH, elem_of_cons.
      destruct (PyDict.get (k1, k2) added) as [w'|] eqn:Hk.
      + rewrite elem_of_union, elem_of_singleton. split.
        * intros [[[= -> -> ->]|?]|[? ?]]; [right|by left|right]; tauto.
        * intros [?|[[[= -> ->]|?] Hw]]; [tauto| |tauto].
          left. left. congruence.
      + split; [tauto|]. intros [?|[[[= -> ->]|?] Hw]]; [tauto|congruence|tauto]. }
  rewrite Hgen. split.
  - intros [?%elem_of_empty|[_ ?]]; done.
  - intros Hget. right. split; [|done]. apply get_is_Some. by eexists.
Qed.

(** *** The table and the run of [get_edges] *)

Lemma zip3_unweighted (rows : list (string * string)) :
  zip3 rows.*1 rows.*2 (replicate (length rows) 1) = (fun '(x, y) => (x, y, 1)) <$> rows.
Proof. induction rows as [|[x y] rows IH]; simpl; [done|]. f_equal. apply IH. Qed.

Lemma zip3_weighted (rows : list (string * string * Z)) :
  zip3 rows.*1.*1 rows.*1.*2 rows.*2 = rows.
Proof. induction rows as [|[[x y] z] rows IH]; simpl; [done|]. f_equal. apply IH. Qed.

Lemma Reactant_weighted_rows df : Reactant df = (fun row => row.1.1) <$> weighted_rows df.
Proof.
  destruct df as [rows|rows]; simpl.
  - rewrite <- list_fmap_compose. apply list_fmap_ext. by intros _ [x y] _.
  - by rewrite <- list_fmap_compose.
Qed.

Lemma Product_weighted_rows df : Product df = (fun row => row.1.2) <$> weighted_rows df.
Proof.
  destruct df as [rows|rows]; simpl.
  - rewrite <- list_fmap_compose. apply list_fmap_ext. by intros _ [x y] _.
  - by rewrite <- list_fmap_compose.
Qed.

Lemma elem_of_concat {A} (x : A) (ls : list (list A)) :
  x ∈ concat ls <-> exists l, x ∈ l /\ l ∈ ls.
Proof.
  induction ls as [|l ls IH]; simpl.
  - split; [by intros ?%elem_of_nil | by intros (l & _ & ?%elem_of_nil)].
  - rewrite elem_of_app, IH. split.
    + intros [?|(l' & ? & ?)]; [exists l | exists l']; (split; [done|]); [left | by right].
    + intros (l' & ? & [->|?]%elem_of_cons); [by left | right; by exists l'].
Qed.

Lemma elem_of_raw_tokens df tok :
  tok ∈ raw_tokens df <->
  exists row, row ∈ weighted_rows df /\
              (tok ∈ PyStr.split separator row.1.1 \/ tok ∈ PyStr.split separator row.1.2).
Proof.
  unfold raw_tokens. rewrite Reactant_weighted_rows, Product_weighted_rows.
  rewrite elem_of_concat. setoid_rewrite list_elem_of_fmap.
  setoid_rewrite elem_of_app. setoid_rewrite list_elem_of_fmap. split.
  - intros (toks & Htok & cell & -> & [(row & -> & Hrow)|(row & -> & Hrow)]);
      exists row; tauto.
  - intros (row & Hrow & [Htok|Htok]); eexists; (split; [exact Htok|]);
      eexists; (split; [reflexivity|]); [left | right]; by exists row.
Qed.

Lemma steps_column_missing df :
  bool_decide (steps_column ∉ columns df) =
  match df with Reactions _ => true | ReactionsWithSteps _ => false end.
Proof. by destruct df. Qed.

(** What one call of [get_edges] does: it completes the table, notes it if
    the weight column was missing, and passes over the expansion of the
    rows. *)
Lemma get_edges_run nodes use_chemical_names allow_multiple_edges w :
  get_edges nodes use_chemical_names allow_multiple_edges w =
  ((es <-! expansion nodes use_chemical_names (weighted_rows (table w));
    Return (collect allow_multiple_edges (foldl (record allow_multiple_edges) ([], ∅) es)))%out,
   match table w with
   | Reactions _ => World (with_steps (table w)) (stdout w ++ [steps_note]) (shown w)
   | ReactionsWithSteps _ => w
   end).
Proof.
  destruct w as [df out figs]. unfold get_edges, bind, read_table, lift. cbn [table].
  rewrite steps_column_missing. destruct df as [rows|rows].
  - unfold print, write_table, ret, assign_steps, len. cbn.
    rewrite zip3_unweighted, zip3_weighted, for_each_expansion.
    destruct (expansion _ _ _) as [es|e]; cbn; [|done].
    destruct (foldl _ _ es) as [added edges].
    unfold collect. cbn. by destruct allow_multiple_edges.
  - unfold ret. cbn.
    rewrite zip3_weighted, for_each_expansion.
    destruct (expansion _ _ _) as [es|e]; cbn; [|done].
    destruct (foldl _ _ es) as [added edges].
    unfold collect. cbn. by destruct allow_multiple_edges.
Qed.

Lemma expansion_total nodes use_chemical_names df :
  resolvable nodes use_chemical_names df ->
  exists es, expansion nodes use_chemical_names (weighted_rows df) = Return es.
Proof.
  intros Hres.
  destruct (expansion nodes use_chemical_names (weighted_rows df)) as [es|e] eqn:Hexp;
    [by eexists|].
  apply expansion_Raise in Hexp as (row & tok & Hrow & Htok & -> & Hget & _).
  destruct (Hres tok) as [v Hv].
  - apply elem_of_raw_tokens. by exists row.
  - unfold endpoint in Hv. by rewrite Hget in Hv.
Qed.

Lemma get_edges_total nodes use_chemical_names allow_multiple_edges w :
  resolvable nodes use_chemical_names (table w) ->
  exists edges, (get_edges nodes use_chemical_names allow_multiple_edges w).1 = Return edges.
Proof.
  intros (es & Hes)%expansion_total. rewrite get_edges_run. cbn [fst].
  rewrite Hes. by eexists.
Qed.

Lemma get_edges_Raise nodes use_chemical_names allow_multiple_edges w e :
  (get_edges nodes use_chemical_names allow_multiple_edges w).1 = Raise e ->
  exists tok, tok ∈ raw_tokens (table w) /\ use_chemical_names = false /\
              PyDict.get tok nodes = None /\ e = KeyError tok.
Proof.
  rewrite get_edges_run. cbn [fst].
  destruct (expansion _ _ _) as [es|e'] eqn:Hexp; [done|]. cbn. intros [= ->].
  apply expansion_Raise in Hexp as (row & tok & Hrow & Htok & H).
  exists tok. split; [|done]. apply elem_of_raw_tokens. by exists row.
Qed.

(** With parallel edges allowed the result holds the generated edges and
    nothing else. *)
Lemma elem_of_get_edges_multi nodes use_chemical_names w edges e :
  (get_edges nodes use_chemical_names true w).1 = Return edges ->
  e ∈ edges <-> generated nodes use_chemical_names (table w) e.
Proof.
  rewrite get_edges_run. cbn [fst].
  destruct (expansion _ _ _) as [es|] eqn:Hexp; [|done]. cbn [obind]. intros [= <-].
  unfold collect. cbn [negb].
  rewrite record_allow, elem_of_union, elem_of_list_to_set.
  rewrite (elem_of_expansion _ _ _ _ _ Hexp). unfold generated.
  split; [intros [?|?%elem_of_empty]|]; tauto.
Qed.

(** With parallel edges collapsed the result holds, for a pair, the lowest
    of the weights generated for it. *)
Lemma elem_of_get_edges_collapse nodes use_chemical_names w edges s t m :
  (get_edges nodes use_chemical_names false w).1 = Return edges ->
  (s, t, m) ∈ edges <->
  generated nodes use_chemical_names (table w) (s, t, m) /\
  forall z, generated nodes use_chemical_names (table w) (s, t, z) -> m <= z.
Proof.
  rewrite get_edges_run. cbn [fst].
  destruct (expansion _ _ _) as [es|] eqn:Hexp; [|done]. cbn [obind]. intros [= <-].
  rewrite elem_of_collect_collapse, record_collapse_get. cbn [PyDict.get].
  assert (Hw : forall z, z ∈ weights_of (s, t) es <->
                         generated nodes use_chemical_names (table w) (s, t, z)).
  { intros z. rewrite elem_of_weights_of. apply (elem_of_expansion _ _ _ _ _ Hexp). }
  split.
  - intros (Hfrom & _ & Hmin)%lowest_Some.
    destruct Hfrom as [?|Hin]; [done|].
    split; [by apply Hw|]. intros z Hz. by apply Hmin, Hw.
  - intros [Hm Hmin].
    destruct (lowest None (weights_of (s, t) es)) as [m'|] eqn:Hlow.
    + apply lowest_Some in Hlow as ([?|Hin] & _ & Hm'); [done|].
      f_equal.
      pose proof (Hm' m (proj2 (Hw m) Hm)).
      pose proof (Hmin m' (proj1 (Hw m') Hin)). lia.
    + apply lowest_None in Hlow as [_ Hnil]. apply (proj2 (Hw m)) in Hm.
      rewrite Hnil in Hm. by apply elem_of_nil in Hm.
Qed.

Lemma get_edges_generated nodes use_chemical_names allow_multiple_edges w edges e :
  (get_edges nodes use_chemical_names allow_multiple_edges w).1 = Return edges ->
  e ∈ edges -> generated nodes use_chemical_names (table w) e.
Proof.
  destruct allow_multiple_edges; intros Hrun Hin.
  - by apply (elem_of_get_edges_multi _ _ _ _ _ Hrun).
  - destruct e as [[s t] m]. by apply (elem_of_get_edges_collapse _ _ _ _ _ _ _ Hrun) in Hin as [? _].
Qed.

(** ** Splitting *)

Lemma rev_string_app acc cur s :
  PyStr.rev_string acc cur +:+ s = PyStr.rev_string (acc +:+ s) cur.
Proof. revert acc. induction cur as [|c cur IH]; intros acc; simpl; [done|]. by rewrite IH. Qed.

Lemma length_string_app (s1 s2 : string) :
  String.length (s1 +:+ s2) = (String.length s1 + String.length s2)%nat.
Proof. induction s1 as [|c s1 IH]; simpl; [done | by rewrite IH]. Qed.

Lemma startswith_app p s :
  PyStr.startswith p s = true -> exists s', s = p +:+ s'.
Proof.
  revert s. induction p as [|a p IH]; intros s; simpl.
  - intros _. by exists s.
  - destruct s as [|b s]; [done|]. destruct (decide (a = b)) as [->|]; [|done].
    intros [s' ->]%IH. by exists s'.
Qed.

Lemma split_scan_skip sep q cur s :
  PyStr.split_scan sep (String.length q) cur (q +:+ s) = PyStr.split_scan sep 0 cur s.
Proof. induction q as [|c q IH]; simpl; [done | apply IH]. Qed.

Lemma split_scan_cons sep skip cur s :
  exists piece pieces, PyStr.split_scan sep skip cur s = piece :: pieces.
Proof.
  revert skip cur. induction s as [|c s IH]; intros skip cur; simpl; [by eexists _, _|].
  destruct skip as [|k]; [|apply IH].
  destruct (PyStr.startswith sep (String c s)); [by eexists _, _ | apply IH].
Qed.

(** Joining the pieces of a split with the separator gives the string back. *)
Lemma join_split sep s :
  sep <> EmptyString -> String.concat sep (PyStr.split sep s) = s.
Proof.
  intros Hsep. unfold PyStr.split.
  assert (Hgen : forall n s cur, (String.length s <= n)%nat ->
            String.concat sep (PyStr.split_scan sep 0 cur s) =
            PyStr.rev_string EmptyString cur +:+ s).
  { clear s. induction n as [|n IH]; intros s cur Hlen.
    - destruct s; [|simpl in Hlen; lia]. simpl.
      rewrite rev_string_app. done.
    - destruct s as [|c s]; [simpl; by rewrite rev_string_app|].
      cbn [PyStr.split_scan].
      destruct (PyStr.startswith sep (String c s)) eqn:Hstart.
      + apply startswith_app in Hstart as [s' Hs'].
        destruct sep as [|a q]; [done|]. simpl in Hs'. injection Hs' as <- ->.
        cbn [String.length]. rewrite Nat.sub_succ, Nat.sub_0_r, split_scan_skip.
        destruct (split_scan_cons (String c q) 0 [] s') as (piece & pieces & Hp).
        pose proof (IH s' []) as IHs'. rewrite Hp in IHs' |- *.
        change (String.concat ?a (?x :: ?y :: ?l))
          with (x +:+ a +:+ String.concat a (y :: l)).
        rewrite IHs'.
        * simpl. by rewrite !rev_string_app.
        * simpl in Hlen. rewrite length_string_app in Hlen. lia.
      + rewrite IH by (simpl in Hlen; lia). simpl.
        by rewrite !rev_string_app.
  }
  by rewrite (Hgen (String.length s)).
Qed.

(** ** Trimming *)

Lemma rstrip_head c s :
  PyStr.is_space c = false -> PyStr.rstrip (String c s) = String c (PyStr.rstrip s).
Proof. intros Hc. simpl. rewrite Hc. by destruct (PyStr.rstrip s). Qed.

Lemma rstrip_idem s : PyStr.rstrip (PyStr.rstrip s) = PyStr.rstrip s.
Proof.
  induction s as [|c s IH]; [done|]. cbn [PyStr.rstrip].
  destruct (PyStr.rstrip s) as [|c' r] eqn:Hr.
  - destruct (PyStr.is_space c) eqn:Hc; [done|]. simpl. by rewrite Hc.
  - cbn [PyStr.rstrip]. cbn [PyStr.rstrip] in IH. by rewrite IH.
Qed.

Lemma lstrip_head s :
  PyStr.lstrip s = EmptyString \/
  exists c s', PyStr.lstrip s = String c s' /\ PyStr.is_space c = false.
Proof.
  induction s as [|c s IH]; simpl; [by left|].
  destruct (PyStr.is_space c) eqn:Hc; [done|]. right. by exists c, s.
Qed.

Lemma strip_idem s : PyStr.strip (PyStr.strip s) = PyStr.strip s.
Proof.
  unfold PyStr.strip.
  destruct (lstrip_head s) as [->|(c & s' & -> & Hc)]; [done|].
  rewrite (rstrip_head _ _ Hc). cbn [PyStr.lstrip]. rewrite Hc.
  rewrite (rstrip_head _ _ Hc). by rewrite rstrip_idem.
Qed.

Lemma lstrip_decompose s :
  exists l, s = l +:+ PyStr.lstrip s /\ all_space l = true.
Proof.
  induction s as [|c s (l & Hl & Hsp)]; [by exists EmptyString|]. simpl.
  destruct (PyStr.is_space c) eqn:Hc; [|by exists EmptyString].
  exists (String c l). simpl. rewrite Hc, Hsp. split; [|done].
  change (String c s = String c (l +:+ PyStr.lstrip s)). by rewrite <- Hl.
Qed.

Lemma rstrip_decompose s :
  exists r, s = PyStr.rstrip s +:+ r /\ all_space r = true.
Proof.
  induction s as [|c s (r & Hr & Hsp)]; [by exists EmptyString|]. simpl.
  destruct (PyStr.rstrip s) as [|c' t] eqn:Ht.
  - destruct (PyStr.is_space c) eqn:Hc.
    + exists (String c r). simpl. rewrite Hc, Hsp. split; [|done].
      change (String c s = String c (EmptyString +:+ r)). by rewrite <- Hr.
    + exists r. split; [|done].
      change (String c s = String c (EmptyString +:+ r)). by rewrite <- Hr.
  - exists r. split; [|done].
    change (String c s = String c (String c' t +:+ r)). by rewrite <- Hr.
Qed.

(** Trimming takes whitespace, and nothing else, off the two ends. *)
Lemma strip_decompose s :
  exists l r, s = l +:+ PyStr.strip s +:+ r /\ all_space l = true /\ all_space r = true.
Proof.
  destruct (lstrip_decompose s) as (l & Hl & Hsl).
  destruct (rstrip_decompose (PyStr.lstrip s)) as (r & Hr & Hsr).
  exists l, r. unfold PyStr.strip. by rewrite <- Hr.
Qed.

(** The keys of the extracted mapping are the normalised names. *)
Lemma get_distinct_chemicals_key df name :
  is_Some (PyDict.get name (get_distinct_chemicals df)) <-> name ∈ chemical_names df.
Proof.
  rewrite get_is_Some, get_distinct_chemicals_numbered, keys_numbered.
  apply elem_of_first_seen.
Qed.

(** A raw token is a key of the extracted mapping exactly when trimming
    leaves it as it is. *)
Lemma raw_token_key df tok :
  tok ∈ raw_tokens df ->
  is_Some (PyDict.get tok (get_distinct_chemicals df)) <-> PyStr.strip tok = tok.
Proof.
  intros Hin. rewrite get_distinct_chemicals_key. unfold chemical_names.
  rewrite list_elem_of_fmap. split.
  - intros (tok' & -> & _). apply strip_idem.
  - intros Heq. by exists tok.
Qed.

(** ** Aggregation helper *)

Section tabulate.
Context {K V : Type} `{EqDecision K}.
Implicit Types (f g : K -> V) (ks : list K).

Lemma keys_tabulate f ks : PyDict.keys (tabulate f ks) = ks.
Proof.
  unfold PyDict.keys, tabulate. rewrite <- list_fmap_compose.
  induction ks as [|k ks IH]; simpl; [done|]. by f_equal.
Qed.

Lemma values_tabulate f ks : PyDict.values (tabulate f ks) = f <$> ks.
Proof. unfold PyDict.values, tabulate. by rewrite <- list_fmap_compose. Qed.

Lemma tabulate_ext f g ks : (forall k, k ∈ ks -> f k = g k) -> tabulate f ks = tabulate g ks.
Proof.
  intros Hext. apply list_fmap_ext. intros i k Hk. f_equal.
  apply Hext. by eapply list_elem_of_lookup_2.
Qed.

Lemma get_tabulate f ks k : k ∈ ks -> PyDict.get k (tabulate f ks) = Some (f k).
Proof.
  induction ks as [|k' ks IH]; simpl; [by intros ?%elem_of_nil|].
  destruct (decide (k = k')) as [->|Hne]; [done|].
  intros [?|?]%elem_of_cons; [done | by apply IH].
Qed.

Lemma set_tabulate f ks k v :
  NoDup ks -> k ∈ ks ->
  PyDict.set k v (tabulate f ks) =
  tabulate (fun k' => if decide (k' = k) then v else f k') ks.
Proof.
  induction ks as [|k' ks IH]; simpl; [by intros _ ?%elem_of_nil|].
  rewrite NoDup_cons. intros [Hk' Hnd] Hin.
  destruct (decide (k = k')) as [->|Hne].
  - rewrite decide_True by done. f_equal.
    apply tabulate_ext. intros k Hk.
    rewrite decide_False; [done|]. by intros ->.
  - rewrite decide_False by done. f_equal.
    apply elem_of_cons in Hin as [?|Hin]; [done|]. by apply IH.
Qed.
End tabulate.

Section counting.
Context {A : Type} `{EqDecision A}.
Implicit Types (l : list A) (x k : A).

Lemma first_seen_snoc l x :
  first_seen (l ++ [x]) = if decide (x ∈ l) then first_seen l else first_seen l ++ [x].
Proof.
  induction l as [|y l IH]; [done|].
  cbn [app first_seen]. rewrite IH.
  destruct (decide (x ∈ l)) as [Hin|Hout].
  - rewrite decide_True; [done | by right].
  - rewrite filter_app. destruct (decide (x = y)) as [->|Hne].
    + rewrite decide_True by left.
      rewrite filter_cons_False by (by intros []). by rewrite app_nil_r.
    + rewrite decide_False by (by intros [?|?]%elem_of_cons).
      by rewrite filter_cons_True.
Qed.

Lemma occurrences_snoc k l x :
  occurrences k (l ++ [x]) = occurrences k l + (if decide (x = k) then 1 else 0).
Proof.
  unfold occurrences. rewrite filter_app, length_app.
  destruct (decide (x = k)).
  - rewrite filter_cons_True by done. simpl. lia.
  - rewrite filter_cons_False by done. simpl. lia.
Qed.

Lemma occurrences_not_elem k l : k ∉ l -> occurrences k l = 0.
Proof.
  unfold occurrences. induction l as [|y l IH]; [done|].
  rewrite not_elem_of_cons. intros [Hne Hout].
  rewrite filter_cons_False by (by intros ->). by apply IH.
Qed.
End counting.

(** The counter of [count_by] after a pass over [attrs]. *)
Lemma counter_tabulate (attrs : list value) :
  foldl (fun counter x =>
           match PyDict.get x counter with
           | Some c => PyDict.set x (c + 1) counter
           | None => PyDict.set x 1 counter
           end) [] attrs =
  tabulate (fun k => occurrences k attrs) (first_seen attrs).
Proof.
  induction attrs as [|x attrs IH] using rev_ind; [done|].
  rewrite foldl_app. cbn [foldl]. rewrite IH, first_seen_snoc.
  destruct (decide (x ∈ attrs)) as [Hin|Hout].
  - rewrite get_tabulate by by apply elem_of_first_seen.
    rewrite set_tabulate; [|apply NoDup_first_seen|by apply elem_of_first_seen].
    apply tabulate_ext. intros k _. rewrite occurrences_snoc.
    destruct (decide (k = x)) as [->|Hne].
    + by rewrite decide_True.
    + rewrite decide_False by done. lia.
  - assert (Hget : PyDict.get x (tabulate (fun k => occurrences k attrs) (first_seen attrs)) = None).
    { apply get_None. by rewrite keys_tabulate, elem_of_first_seen. }
    rewrite Hget, set_absent by by rewrite keys_tabulate, elem_of_first_seen.
    unfold tabulate. rewrite fmap_app. f_equal.
    + apply list_fmap_ext. intros i k Hk. rewrite occurrences_snoc.
      rewrite decide_False; [f_equal; lia|].
      intros ->. apply Hout, elem_of_first_seen. by eapply list_elem_of_lookup_2.
    + simpl. rewrite occurrences_snoc, occurrences_not_elem by done.
      by rewrite decide_True.
Qed.

Lemma tuple_item_valid element i :
  valid_index i element -> exists v, tuple_item element i = Return v.
Proof.
  unfold valid_index, tuple_item. intros Hi.
  rewrite bool_decide_true by (case_bool_decide; lia).
  destruct (element !! _) as [v|] eqn:Hv; [by eexists|].
  apply lookup_ge_None in Hv. case_bool_decide; lia.
Qed.

(** ** Undirected graphs *)

Section dict_update.
Context {K V : Type} `{EqDecision K}.
Implicit Types (d : dict K V) (k : K) (v : V).

Lemma NoDup_keys_set d k v : NoDup (PyDict.keys d) -> NoDup (PyDict.keys (PyDict.set k v d)).
Proof.
  intros Hnd. destruct (decide (k ∈ PyDict.keys d)) as [Hin|Hout].
  - by rewrite keys_set_present.
  - rewrite set_absent by done. unfold PyDict.keys in *. rewrite fmap_app.
    apply NoDup_app. split_and!; [done| |apply NoDup_singleton].
    simpl. by intros k' Hk' ->%list_elem_of_singleton.
Qed.

Lemma elem_of_set d k v k' v' :
  (k', v') ∈ PyDict.set k v d -> (k', v') = (k, v) \/ (k', v') ∈ d.
Proof.
  induction d as [|[k0 v0] d IH]; simpl.
  - intros ?%list_elem_of_singleton. by left.
  - destruct (decide (k = k0)) as [->|Hne]; rewrite !elem_of_cons; tauto.
Qed.
End dict_update.

Lemma adj_wf_set a n nbrs :
  adj_wf a -> NoDup (PyDict.keys nbrs) -> adj_wf (PyDict.set n nbrs a).
Proof.
  intros [Hnd Hin] Hnbrs. split; [by apply NoDup_keys_set|].
  intros n' nbrs' [[= -> ->]|?]%elem_of_set; [done | by eapply Hin].
Qed.

Lemma adj_wf_adj_set a u v d : adj_wf a -> adj_wf (nx.adj_set u v d a).
Proof.
  intros Hwf. apply adj_wf_set; [done|]. apply NoDup_keys_set.
  destruct (PyDict.get u a) as [nbrs|] eqn:Hu; simpl; [|constructor].
  destruct Hwf as [_ Hin]. eapply Hin. by apply get_Some_elem.
Qed.

Lemma adj_wf_add_node n g : adj_wf (nx.adj g) -> adj_wf (nx.adj (nx.add_node n g)).
Proof.
  intros Hwf. unfold nx.add_node. destruct (PyDict.contains n (nx.node g)); [done|].
  simpl. apply adj_wf_set; [done | constructor].
Qed.

Lemma adj_wf_add_nodes_from ns : forall g,
  adj_wf (nx.adj g) -> adj_wf (nx.adj (nx.add_nodes_from ns g)).
Proof.
  unfold nx.add_nodes_from. induction ns as [|n ns IH]; intros g Hwf; simpl; [done|].
  by apply IH, adj_wf_add_node.
Qed.

Lemma adj_wf_add_edge e g : adj_wf (nx.adj g) -> adj_wf (nx.adj (nx.add_edge e g)).
Proof.
  destruct e as [[u v] d]. intros Hwf. unfold nx.add_edge. simpl.
  by do 2 apply adj_wf_adj_set; do 2 apply adj_wf_add_node.
Qed.

Lemma adj_wf_add_weighted_edges_from es : forall g,
  adj_wf (nx.adj g) -> adj_wf (nx.adj (nx.add_weighted_edges_from es g)).
Proof.
  unfold nx.add_weighted_edges_from.
  induction es as [|e es IH]; intros g Hwf; simpl; [done|].
  by apply IH, adj_wf_add_edge.
Qed.

Lemma pair_same_source (n a b : value) :
  ({[ n; a ]} : gset value) = {[ n; b ]} -> a = b.
Proof.
  intros Heq.
  assert (a ∈ ({[ n; b ]} : gset value)) as Ha
    by (rewrite <- Heq; apply elem_of_union_r; by apply elem_of_singleton).
  assert (b ∈ ({[ n; a ]} : gset value)) as Hb
    by (rewrite Heq; apply elem_of_union_r; by apply elem_of_singleton).
  apply elem_of_union in Ha as [Ha%elem_of_singleton|Ha%elem_of_singleton]; [|done].
  apply elem_of_union in Hb as [Hb%elem_of_singleton|Hb%elem_of_singleton]; congruence.
Qed.

Lemma elem_of_edges_from (seen : list value) a e :
  e ∈ nx.edges_from seen a -> e.1.1 ∈ PyDict.keys a /\ e.1.2 ∉ seen.
Proof.
  revert seen. induction a as [|[n nbrs] a IH]; intros seen; simpl.
  - by intros ?%elem_of_nil.
  - rewrite elem_of_app, list_elem_of_omap.
    intros [([nbr d] & Hin & He)|Hin].
    + destruct (decide (nbr ∈ seen)); [done|]. injection He as <-. simpl.
      split; [left | done].
    + apply IH in Hin as [Hk Hs]. rewrite not_elem_of_cons in Hs.
      split; [by right | tauto].
Qed.

Lemma simple_row (seen : list value) (n : value) (nbrs : dict value Z) :
  NoDup (PyDict.keys nbrs) ->
  simple (omap (fun '(nbr, d) => if decide (nbr ∈ seen) then None else Some (n, nbr, d)) nbrs).
Proof.
  unfold simple, PyDict.keys. induction nbrs as [|[nbr d] nbrs IH]; simpl; [constructor|].
  rewrite NoDup_cons. intros [Hnbr Hnd].
  destruct (decide (nbr ∈ seen)); [by apply IH|].
  simpl. apply NoDup_cons. split; [|by apply IH].
  intros ([[n' nbr'] d'] & Heq & Hin)%list_elem_of_fmap. simpl in Heq.
  apply list_elem_of_omap in Hin as ([nbr'' d''] & Hin & He).
  destruct (decide (nbr'' ∈ seen)); [done|]. injection He as <- <- <-.
  apply pair_same_source in Heq as ->.
  apply Hnbr, list_elem_of_fmap. by exists (nbr'', d'').
Qed.

Lemma simple_app (es1 es2 : list edge) :
  simple es1 -> simple es2 ->
  (forall e1 e2, e1 ∈ es1 -> e2 ∈ es2 ->
                 ({[ e1.1.1; e1.1.2 ]} : gset value) <> {[ e2.1.1; e2.1.2 ]}) ->
  simple (es1 ++ es2).
Proof.
  unfold simple. intros H1 H2 Hdisj. rewrite fmap_app. apply NoDup_app. split_and!; [done| |done].
  intros p (e1 & -> & He1)%list_elem_of_fmap (e2 & Heq & He2)%list_elem_of_fmap.
  by apply (Hdisj e1 e2).
Qed.

Lemma simple_edges_from a : forall seen, adj_wf a -> simple (nx.edges_from seen a).
Proof.
  induction a as [|[n nbrs] a IH]; intros seen [Hnd Hin]; simpl; [constructor|].
  unfold PyDict.keys in Hnd. simpl in Hnd. apply NoDup_cons in Hnd as [Hn Hnd].
  apply simple_app.
  - apply (simple_row seen n nbrs). apply (Hin n nbrs). left.
  - apply IH. split; [done|]. intros n' nbrs' H'. apply (Hin n' nbrs'). by right.
  - intros [[n1 nbr1] d1] [[n2 nbr2] d2] H1 H2 Heq.
    apply list_elem_of_omap in H1 as ([nbr d] & _ & He).
    destruct (decide (nbr ∈ seen)); [done|]. injection He as <- <- <-.
    apply elem_of_edges_from in H2 as [Hk Hs]. simpl in *.
    rewrite not_elem_of_cons in Hs. destruct Hs as [Hne _].
    assert (n ∈ ({[ n2; nbr2 ]} : gset value)) as Hn'
      by (rewrite <- Heq; apply elem_of_union_l; by apply elem_of_singleton).
    apply elem_of_union in Hn' as [Hn'|Hn']; apply elem_of_singleton in Hn'; by subst.
Qed.

Lemma unweighted_columns (rows : list (string * string)) :
  ((fun '(x, y) => (x, y, 1)) <$> rows).*1.*1 = rows.*1 /\
  ((fun '(x, y) => (x, y, 1)) <$> rows).*1.*2 = rows.*2 /\
  ((fun '(x, y) => (x, y, 1)) <$> rows).*2 = replicate (length rows) 1.
Proof.
  induction rows as [|[x y] rows (IH1 & IH2 & IH3)]; [done|].
  cbn [fmap list_fmap length replicate fst snd] in *. by rewrite IH1, IH2, IH3.
Qed.

Lemma length_first_seen {A} `{Countable A} (l : list A) :
  length (first_seen l) = size (list_to_set l : gset A).
Proof.
  rewrite <- (size_list_to_set (C := gset A) (first_seen l)) by apply NoDup_first_seen.
  f_equal. apply set_eq. intros x.
  by rewrite !elem_of_list_to_set, elem_of_first_seen.
Qed.

Lemma resolvable_Forall nodes use_chemical_names df :
  Forall (fun tok => is_Some (endpoint nodes use_chemical_names tok)) (raw_tokens df) ->
  resolvable nodes use_chemical_names df.
Proof. intros Hall tok Hin. by eapply Forall_forall in Hall. Qed.

Lemma resolvable_names nodes df : resolvable nodes true df.
Proof. intros tok _. by eexists. Qed.

Lemma create_weighted_undirected_graph_run order use_chemical_names allow_multiple_edges w :
  create_weighted_undirected_graph order use_chemical_names allow_multiple_edges w =
  let nodes := get_distinct_chemicals (table w) in
  let r := get_edges nodes use_chemical_names allow_multiple_edges
             (World (table w) (stdout w ++ [chemicals_note nodes]) (shown w)) in
  (match r.1 with
   | Return edges =>
       Return (nx.add_weighted_edges_from (order edges)
                 (if negb use_chemical_names
                  then nx.add_nodes_from (VInt <$> PyDict.values nodes) nx.Graph_new
                  else nx.add_nodes_from (VStr <$> PyDict.keys nodes) nx.Graph_new),
               nodes)
   | Raise e => Raise e
   end, r.2).
Proof.
  unfold create_weighted_undirected_graph, bind, read_table, print, ret. cbn [table stdout shown].
  by destruct (get_edges _ _ _ _) as [[edges|e] w'].
Qed.

Lemma create_weighted_directed_graph_run order use_chemical_names allow_multiple_edges w :
  create_weighted_directed_graph order use_chemical_names allow_multiple_edges w =
  let nodes := get_distinct_chemicals (table w) in
  let r := get_edges nodes use_chemical_names allow_multiple_edges
             (World (table w) (stdout w ++ [chemicals_note nodes]) (shown w)) in
  (match r.1 with
   | Return edges =>
       Return (nx.di_add_weighted_edges_from (order edges)
                 (if negb use_chemical_names
                  then nx.di_add_nodes_from (VInt <$> PyDict.values nodes) nx.MultiDiGraph_new
                  else nx.di_add_nodes_from (VStr <$> PyDict.keys nodes) nx.MultiDiGraph_new),
               nodes)
   | Raise e => Raise e
   end, r.2).
Proof.
  unfold create_weighted_directed_graph, bind, read_table, print, ret. cbn [table stdout shown].
  by destruct (get_edges _ _ _ _) as [[edges|e] w'].
Qed.

(** ** Selector dispatch *)

(** The helpers that take a degree type refuse any other selector. *)
Lemma create_pdf_comparison_invalid graph option title w :
  option <> "out" -> option <> "in" ->
  degree_distribution.create_pdf_comparison graph option title w =
  (Raise degree_distribution.invalid_option, w).
Proof.
  intros Hout Hin. unfold degree_distribution.create_pdf_comparison.
  by rewrite !decide_False.
Qed.

Lemma create_comparison_scatter_plot_invalid graph option w :
  option <> "out" -> option <> "in" ->
  degree_distribution.create_comparison_scatter_plot_option1 graph option w =
  (Raise degree_distribution.invalid_option, w) /\
  degree_distribution.create_comparison_scatter_plot_option2 graph option w =
  (Raise degree_distribution.invalid_option, w).
Proof.
  intros Hout Hin.
  unfold degree_distribution.create_comparison_scatter_plot_option1,
    degree_distribution.create_comparison_scatter_plot_option2.
  by rewrite !decide_False.
Qed.

(** The dispatch of [analyse] has no such refusal: a selector it does not
    know leaves it with the graph built and nothing displayed. *)
Lemma analyse_unknown_selector order plot_type w :
  plot_type ∉ ["bar"; "scatter"; "exponent"; "scatter_comparison_plot";
               "distribution_comparison_plot"] ->
  resolvable (get_distinct_chemicals (table w)) false (table w) ->
  (degree_distribution.analyse order plot_type w).1 = Return tt /\
  shown (degree_distribution.analyse order plot_type w).2 = shown w.
Proof.
  intros Hsel Hres. rewrite !not_elem_of_cons in Hsel.
  destruct Hsel as (? & ? & ? & ? & ? & _).
  unfold degree_distribution.analyse, bind.
  rewrite create_weighted_directed_graph_run. cbn zeta.
  set (w1 := World _ _ _).
  destruct (get_edges_total _ false false w1 Hres) as [edges Hedges].
  pose proof (get_edges_run (get_distinct_chemicals (table w)) false false w1) as Hrun.
  destruct (get_edges _ _ _ w1) as [r w2]. cbn [fst snd] in *. subst r.
  rewrite !decide_False by done. unfold ret. cbn [fst snd]. split; [done|].
  injection Hrun as _ Hw2. rewrite Hw2. subst w1. cbn [table].
  by destruct (table w).
Qed.

Lemma get_edges_cells nodes use_chemical_names allow_multiple_edges w :
  Reactant (table (get_edges nodes use_chemical_names allow_multiple_edges w).2) =
    Reactant (table w) /\
  Product (table (get_edges nodes use_chemical_names allow_multiple_edges w).2) =
    Product (table w) /\
  len (table (get_edges nodes use_chemical_names allow_multiple_edges w).2) = len (table w).
Proof.
  rewrite get_edges_run. cbn [snd].
  destruct (table w) as [rows|rows] eqn:Hw; [|by rewrite Hw].
  cbn [table with_steps weighted_rows Reactant Product len].
  destruct (unweighted_columns rows) as (-> & -> & _). by rewrite length_fmap.
Qed.

Lemma expansion_Return_resolvable nodes use_chemical_names df es :
  expansion nodes use_chemical_names (weighted_rows df) = Return es ->
  resolvable nodes use_chemical_names df.
Proof.
  intros Hexp tok (row & Hrow & Htok)%elem_of_raw_tokens.
  revert es Hexp row Hrow Htok.
  induction (weighted_rows df) as [|row' rows IH]; intros es Hexp row Hrow Htok.
  - by apply elem_of_nil in Hrow.
  - cbn [expansion] in Hexp.
    destruct (row_edges nodes use_chemical_names row') as [es1|] eqn:H1; [|done].
    destruct (expansion nodes use_chemical_names rows) as [es2|] eqn:H2; [|done].
    apply elem_of_cons in Hrow as [->|Hrow]; [|by eapply IH].
    destruct row' as [[x y] z]. unfold row_edges in H1. cbn [fst snd] in Htok.
    destruct (endpoints nodes use_chemical_names x) as [reacts|] eqn:Hx; [|done].
    destruct (endpoints nodes use_chemical_names y) as [products|] eqn:Hy; [|done].
    apply endpoints_Return in Hx, Hy.
    destruct Htok as [Htok|Htok].
    + destruct (Forall2_elem_of_l _ _ _ _ Hx Htok) as (v & _ & Hv). by exists v.
    + destruct (Forall2_elem_of_l _ _ _ _ Hy Htok) as (v & _ & Hv). by exists v.
Qed.

(** Edge extraction returns exactly when every token stands for an endpoint. *)
Lemma get_edges_returns_iff nodes use_chemical_names allow_multiple_edges w :
  (exists edges,
     (get_edges nodes use_chemical_names allow_multiple_edges w).1 = Return edges) <->
  resolvable nodes use_chemical_names (table w).
Proof.
  split; [|apply get_edges_total].
  intros [edges Hedges]. revert Hedges. rewrite get_edges_run. cbn [fst].
  destruct (expansion _ _ _) as [es|e] eqn:Hexp; [|done]. intros _.
  by eapply expansion_Return_resolvable.
Qed.

(** In index-keyed mode, with the extracted mapping, a token stands for an
    endpoint exactly when trimming leaves it as it is. *)
Lemma resolvable_index_trimmed df :
  resolvable (get_distinct_chemicals df) false df <->
  forall tok, tok ∈ raw_tokens df -> PyStr.strip tok = tok.
Proof.
  unfold resolvable, endpoint. split; intros H tok Hin.
  - specialize (H tok Hin). rewrite fmap_is_Some in H.
    by apply (raw_token_key _ _ Hin).
  - rewrite fmap_is_Some. apply (raw_token_key _ _ Hin). by apply H.
Qed.

(** ** The cases of tests/test_utils.py *)

Example test_get_distinct_chemicals_1 :
  get_distinct_chemicals df_1 =
  [("calcium", 1); ("oxygen", 2); ("nitrogen", 3); ("carbon-dioxide", 4); ("hydrogen", 5)].
Proof. reflexivity. Qed.

Example test_get_edges_without_number_of_reaction_steps :
  (get_edges (get_distinct_chemicals df_1) false true (World df_1 [] [])).1 =
  Return {[ (VInt 1, VInt 2, 1); (VInt 2, VInt 2, 1); (VInt 3, VInt 2, 1);
            (VInt 1, VInt 5, 1); (VInt 2, VInt 5, 1); (VInt 3, VInt 5, 1);
            (VInt 4, VInt 4, 1); (VInt 3, VInt 3, 1) ]}.
Proof. reflexivity. Qed.

Example test_get_edges_with_number_of_reaction_steps :
  (get_edges (get_distinct_chemicals df_with_steps) false true
     (World df_with_steps [] [])).1 =
  Return {[ (VInt 1, VInt 2, 2); (VInt 2, VInt 2, 2); (VInt 3, VInt 2, 2);
            (VInt 1, VInt 5, 2); (VInt 2, VInt 5, 2); (VInt 3, VInt 5, 2);
            (VInt 4, VInt 4, 1); (VInt 3, VInt 3, 3); (VInt 2, VInt 2, 7);
            (VInt 2, VInt 2, 4) ]}.
Proof. reflexivity. Qed.

Example test_get_edges_with_chemical_names :
  (get_edges (get_distinct_chemicals df_with_steps) true true
     (World df_with_steps [] [])).1 =
  Return {[ (VStr "calcium", VStr "oxygen", 2); (VStr "oxygen", VStr "oxygen", 2);
            (VStr "nitrogen", VStr "oxygen", 2); (VStr "calcium", VStr "hydrogen", 2);
            (VStr "oxygen", VStr "hydrogen", 2); (VStr "nitrogen", VStr "hydrogen", 2);
            (VStr "carbon-dioxide", VStr "carbon-dioxide", 1);
            (VStr "nitrogen", VStr "nitrogen", 3); (VStr "oxygen", VStr "oxygen", 7);
            (VStr "oxygen", VStr "oxygen", 4) ]}.
Proof. reflexivity. Qed.

Example test_get_edges_not_allow_multiples :
  (get_edges (get_distinct_chemicals df_with_steps) false false
     (World df_with_steps [] [])).1 =
  Return {[ (VInt 1, VInt 2, 2); (VInt 2, VInt 2, 2); (VInt 3, VInt 2, 2);
            (VInt 1, VInt 5, 2); (VInt 2, VInt 5, 2); (VInt 3, VInt 5, 2);
            (VInt 4, VInt 4, 1); (VInt 3, VInt 3, 3) ]}.
Proof. reflexivity. Qed.

Example test_group_by_first_element :
  count_by 0 [[VInt 1; VInt 0]; [VInt 2; VInt 0]; [VInt 3; VInt 0];
              [VInt 1; VInt 1]; [VInt 2; VInt 2]] =
  Return ([VInt 1; VInt 2; VInt 3], [2; 2; 1]).
Proof. reflexivity. Qed.

(** A token with a trailing space is no key of the mapping. *)
Example get_edges_untrimmed_raises :
  get_distinct_chemicals df_untrimmed = [("glucose", 1); ("water", 2); ("ethanol", 3)] /\
  (get_edges (get_distinct_chemicals df_untrimmed) false true
     (World df_untrimmed [] [])).1 = Raise (KeyError "glucose ").
Proof. split; reflexivity. Qed.

(** The two parallel edges of the pair (oxygen, oxygen) end as one edge of
    the undirected graph. *)
Example undirected_parallel_edges_end_as_one :
  match (create_weighted_undirected_graph elements_order false true
           (World df_with_steps [] [])).1 with
  | Return (graph, _) => nx.edges graph
  | Raise _ => []
  end =
  [(VInt 1, VInt 5, 2); (VInt 1, VInt 2, 2); (VInt 2, VInt 2, 4); (VInt 2, VInt 3, 2);
   (VInt 2, VInt 5, 2); (VInt 3, VInt 3, 3); (VInt 3, VInt 5, 2); (VInt 4, VInt 4, 1)].
Proof. vm_compute. reflexivity. Qed.

(** * The properties of the specification *)

(** C3: node extraction maps exactly the distinct trimmed tokens of the
    [Reactant] and [Product] cells, split on the separator, to the integers
    1, 2, ... in the order in which the names are first seen; every name has
    one identifier, and no two names share one. *)
Theorem get_distinct_chemicals_spec (df : DataFrame) :
  let nodes := get_distinct_chemicals df in
  PyDict.keys nodes = first_seen (chemical_names df) /\
  PyDict.values nodes = seqZ 1 (Z.of_nat (length (first_seen (chemical_names df)))) /\
  (forall name, name ∈ PyDict.keys nodes <-> name ∈ chemical_names df) /\
  length (PyDict.values nodes) = size (list_to_set (chemical_names df) : gset string) /\
  NoDup (PyDict.keys nodes) /\
  NoDup (PyDict.values nodes) /\
  (forall i name, first_seen (chemical_names df) !! i = Some name ->
                  PyDict.get name nodes = Some (Z.of_nat i + 1)).
Proof.
  intros nodes. subst nodes. rewrite get_distinct_chemicals_numbered.
  rewrite keys_numbered, values_numbered.
  split_and!.
  - done.
  - done.
  - intros name. apply elem_of_first_seen.
  - by rewrite length_seqZ, Nat2Z.id, length_first_seen.
  - apply NoDup_first_seen.
  - apply NoDup_seqZ.
  - intros i name Hi. apply get_elem_NoDup.
    + rewrite keys_numbered. apply NoDup_first_seen.
    + unfold numbered. apply list_elem_of_lookup. exists i.
      by rewrite list_lookup_imap, Hi.
Qed.

Lemma get_distinct_chemicals_spec_witness :
  PyDict.keys (get_distinct_chemicals df_1) =
    ["calcium"; "oxygen"; "nitrogen"; "carbon-dioxide"; "hydrogen"] /\
  PyDict.values (get_distinct_chemicals df_1) = [1; 2; 3; 4; 5] /\
  PyDict.get "nitrogen" (get_distinct_chemicals df_1) = Some 3.
Proof.
  destruct (get_distinct_chemicals_spec df_1) as (Hk & Hv & _ & _ & _ & _ & Hget).
  split_and!.
  - rewrite Hk. vm_compute. reflexivity.
  - rewrite Hv. vm_compute. reflexivity.
  - apply (Hget 2%nat). vm_compute. reflexivity.
Defined.








(** C1: with parallel edges disallowed, edge extraction returns whenever
    every token stands for an endpoint, and then every pair generated by at
    least one row has exactly one edge in the result, whose weight is the
    lowest of the weights of the rows that generate the pair. *)
Theorem get_edges_collapse_minimum nodes use_chemical_names (w : world) :
  (resolvable nodes use_chemical_names (table w) ->
   exists edges, (get_edges nodes use_chemical_names false w).1 = Return edges) /\
  forall edges,
    (get_edges nodes use_chemical_names false w).1 = Return edges ->
    forall s t,
      (exists z, generated nodes use_chemical_names (table w) (s, t, z)) ->
      exists m,
        (s, t, m) ∈ edges /\
        (forall m', (s, t, m') ∈ edges -> m' = m) /\
        generated nodes use_chemical_names (table w) (s, t, m) /\
        forall z, generated nodes use_chemical_names (table w) (s, t, z) -> m <= z.
Proof.
  split; [apply get_edges_total|].
  intros edges Hrun s t [z Hz].
  assert (Hex : exists m, (s, t, m) ∈ edges).
  { revert Hrun. rewrite get_edges_run. cbn [fst].
    destruct (expansion _ _ _) as [es|] eqn:Hexp; [|done]. cbn [obind]. intros [= <-].
    destruct (lowest None (weights_of (s, t) es)) as [m|] eqn:Hlow.
    - exists m. by rewrite elem_of_collect_collapse, record_collapse_get.
    - apply lowest_None in Hlow as [_ Hnil].
      assert (z ∈ weights_of (s, t) es) as Hin
        by by apply elem_of_weights_of, (elem_of_expansion _ _ _ _ _ Hexp).
      rewrite Hnil in Hin. by apply elem_of_nil in Hin. }
  destruct Hex as [m Hm]. exists m.
  pose proof (proj1 (elem_of_get_edges_collapse _ _ _ _ s t m Hrun) Hm) as [Hgen Hmin].
  split_and!; [done| |done|done].
  intros m' Hm'.
  apply (elem_of_get_edges_collapse _ _ _ _ s t m' Hrun) in Hm' as [Hgen' Hmin'].
  specialize (Hmin m' Hgen'). specialize (Hmin' m Hgen). lia.
Qed.

Lemma get_edges_collapse_minimum_witness :
  exists edges,
    (get_edges (get_distinct_chemicals df_with_steps) false false
       (World df_with_steps [] [])).1 = Return edges /\
    exists m, (VInt 2, VInt 2, m) ∈ edges /\ m <= 4.
Proof.
  destruct (get_edges_collapse_minimum (get_distinct_chemicals df_with_steps) false
              (World df_with_steps [] [])) as [Htotal Hmin].
  destruct Htotal as [edges Hedges].
  { apply resolvable_Forall. by_decide. }
  exists edges. split; [done|].
  assert (Hgen : generated (get_distinct_chemicals df_with_steps) false df_with_steps
                   (VInt 2, VInt 2, 4)).
  { exists ("oxygen", "oxygen", 4). split; [by_decide|].
    exists "oxygen", "oxygen". split_and!; try by_decide; vm_compute; reflexivity. }
  destruct (Hmin edges Hedges (VInt 2) (VInt 2)) as (m & Hin & _ & _ & Hlow).
  { by exists 4. }
  exists m. split; [done|]. by apply Hlow.
Defined.

(** C2: with parallel edges allowed, edge extraction returns whenever every
    token stands for an endpoint, and then its result is exactly the set of
    the triples (source, target, weight) of the cross product of the reactant
    and product tokens of each row, with the weight of the row; the row
    "calcium; oxygen; nitrogen" -> "oxygen; hydrogen" of a table without
    weights gives the six edges of weight 1. *)
Theorem get_edges_cross_product nodes use_chemical_names (w : world) :
  (resolvable nodes use_chemical_names (table w) ->
   exists edges, (get_edges nodes use_chemical_names true w).1 = Return edges) /\
  (forall edges,
     (get_edges nodes use_chemical_names true w).1 = Return edges ->
     forall e, e ∈ edges <-> generated nodes use_chemical_names (table w) e) /\
  (get_edges nodes true true
     (World (Reactions [("calcium; oxygen; nitrogen", "oxygen; hydrogen")])
            (stdout w) (shown w))).1 =
  Return {[ (VStr "calcium", VStr "oxygen", 1); (VStr "calcium", VStr "hydrogen", 1);
            (VStr "oxygen", VStr "oxygen", 1); (VStr "oxygen", VStr "hydrogen", 1);
            (VStr "nitrogen", VStr "oxygen", 1); (VStr "nitrogen", VStr "hydrogen", 1) ]}.
Proof.
  split_and!.
  - apply get_edges_total.
  - intros edges Hrun e. by apply elem_of_get_edges_multi.
  - rewrite get_edges_run. cbn [fst table weighted_rows fmap list_fmap].
    assert (Hex : expansion nodes true
                    [("calcium; oxygen; nitrogen", "oxygen; hydrogen", 1)] =
                  Return [(VStr "calcium", VStr "oxygen", 1);
                          (VStr "calcium", VStr "hydrogen", 1);
                          (VStr "oxygen", VStr "oxygen", 1);
                          (VStr "oxygen", VStr "hydrogen", 1);
                          (VStr "nitrogen", VStr "oxygen", 1);
                          (VStr "nitrogen", VStr "hydrogen", 1)])
      by (vm_compute; reflexivity).
    rewrite Hex. cbn [obind]. unfold collect. cbn [negb].
    rewrite record_allow. cbn [list_to_set foldr]. f_equal.
Qed.

Lemma get_edges_cross_product_witness :
  exists edges,
    (get_edges (get_distinct_chemicals df_with_steps) false true
       (World df_with_steps [] [])).1 = Return edges /\
    (VInt 2, VInt 2, 7) ∈ edges /\ (VInt 2, VInt 2, 4) ∈ edges /\ (VInt 1, VInt 5, 2) ∈ edges.
Proof.
  destruct (get_edges_cross_product (get_distinct_chemicals df_with_steps) false
              (World df_with_steps [] [])) as (Htotal & Hiff & _).
  destruct Htotal as [edges Hedges].
  { apply resolvable_Forall. by_decide. }
  exists edges. split; [done|].
  split_and!; apply (Hiff edges Hedges).
  - exists ("oxygen", "oxygen", 7). split; [by_decide|].
    exists "oxygen", "oxygen". split_and!; try by_decide; vm_compute; reflexivity.
  - exists ("oxygen", "oxygen", 4). split; [by_decide|].
    exists "oxygen", "oxygen". split_and!; try by_decide; vm_compute; reflexivity.
  - exists ("calcium; oxygen; nitrogen", "oxygen; hydrogen", 2). split; [by_decide|].
    exists "calcium", "hydrogen". split_and!; try by_decide; vm_compute; reflexivity.
Defined.

(** On a table without the weight column the generated edges are those that
    join a token of the reactant cell of a row to a token of its product
    cell, each with weight 1. *)
Lemma generated_unweighted nodes use_chemical_names rows s t m :
  generated nodes use_chemical_names (Reactions rows) (s, t, m) <->
  m = 1 /\
  exists x y a b,
    (x, y) ∈ rows /\
    a ∈ PyStr.split separator x /\ b ∈ PyStr.split separator y /\
    endpoint nodes use_chemical_names a = Some s /\
    endpoint nodes use_chemical_names b = Some t.
Proof.
  unfold generated, generates. cbn [weighted_rows fst snd]. split.
  - intros (row & ([x y] & -> & Hrow)%list_elem_of_fmap & a & b & Ha & Hb & Hs & Ht & Hm).
    cbn [fst snd] in *. split; [done|]. by exists x, y, a, b.
  - intros (-> & x & y & a & b & Hrow & Ha & Hb & Hs & Ht).
    exists (x, y, 1). split.
    + apply list_elem_of_fmap. by exists (x, y).
    + by exists a, b.
Qed.

(** C5: on a table without the weight column edge extraction does not fail
    for the lack of it: it prints the note, writes a column of ones of the
    length of the table, and goes on as on the table with that column. It
    returns whenever every token stands for an endpoint (the only exception
    it can raise is the [KeyError] of a token that is not a node), and what
    it returns are the edges of weight 1, and no other, that join a token of
    the reactant cell of a row to a token of its product cell. *)
Theorem get_edges_missing_steps_column nodes use_chemical_names allow_multiple_edges
    (w : world) :
  steps_column ∉ columns (table w) ->
  let r := get_edges nodes use_chemical_names allow_multiple_edges w in
  stdout r.2 = stdout w ++ [steps_note] /\
  Number_of_Reaction_Steps (table r.2) = Return (replicate (len (table w)) 1) /\
  r.1 = (get_edges nodes use_chemical_names allow_multiple_edges
           (World (with_steps (table w)) (stdout w) (shown w))).1 /\
  (resolvable nodes use_chemical_names (table w) -> exists edges, r.1 = Return edges) /\
  (forall e, r.1 = Raise e ->
             exists tok, e = KeyError tok /\ PyDict.get tok nodes = None /\
                         use_chemical_names = false) /\
  (forall edges, r.1 = Return edges ->
     forall s t m,
       (s, t, m) ∈ edges <->
       m = 1 /\
       exists x y a b,
         (x, y) ∈ zip (Reactant (table w)) (Product (table w)) /\
         a ∈ PyStr.split separator x /\ b ∈ PyStr.split separator y /\
         endpoint nodes use_chemical_names a = Some s /\
         endpoint nodes use_chemical_names b = Some t) /\
  (forall edges e, r.1 = Return edges -> e ∈ edges -> e.2 = 1).
Proof.
  intros Hmissing r. subst r.
  destruct (table w) as [rows|rows] eqn:Hw.
  2:{ destruct Hmissing. by_decide. }
  assert (forall edges,
            (get_edges nodes use_chemical_names allow_multiple_edges w).1 = Return edges ->
            forall s t m,
              (s, t, m) ∈ edges <->
              generated nodes use_chemical_names (Reactions rows) (s, t, m)) as Hiff.
  { intros edges Hrun s t m. destruct allow_multiple_edges.
    - by rewrite (elem_of_get_edges_multi _ _ _ _ _ Hrun), Hw.
    - rewrite (elem_of_get_edges_collapse _ _ _ _ _ _ _ Hrun), Hw. split; [tauto|].
      intros Hgen. split; [done|]. intros z Hz.
      apply generated_unweighted in Hgen as [-> _].
      apply generated_unweighted in Hz as [-> _]. lia. }
  split_and!.
  - rewrite get_edges_run, Hw. done.
  - rewrite get_edges_run, Hw.
    cbn [snd table with_steps weighted_rows Number_of_Reaction_Steps len].
    f_equal. apply unweighted_columns.
  - rewrite !get_edges_run. cbn [fst table]. by rewrite Hw.
  - rewrite <- Hw. apply get_edges_total.
  - intros e (tok & _ & ? & ? & ?)%get_edges_Raise. by exists tok.
  - intros edges Hrun s t m. rewrite (Hiff edges Hrun), generated_unweighted.
    cbn [Reactant Product]. by rewrite zip_fst_snd.
  - intros edges [[s t] m] Hrun Hin.
    by apply (Hiff edges Hrun), generated_unweighted in Hin as [-> _].
Qed.

Lemma get_edges_missing_steps_column_witness :
  stdout (get_edges (get_distinct_chemicals df_1) false true (World df_1 [] [])).2 =
    [steps_note] /\
  Number_of_Reaction_Steps
    (table (get_edges (get_distinct_chemicals df_1) false true (World df_1 [] [])).2) =
    Return [1; 1; 1; 1; 1] /\
  exists edges,
    (get_edges (get_distinct_chemicals df_1) false true (World df_1 [] [])).1 =
      Return edges /\
    (VInt 1, VInt 5, 1) ∈ edges /\
    (VInt 4, VInt 4, 1) ∈ edges /\
    (forall m, (VInt 1, VInt 4, m) ∉ edges) /\
    forall e, e ∈ edges -> e.2 = 1.
Proof.
  destruct (get_edges_missing_steps_column (get_distinct_chemicals df_1) false true
              (World df_1 [] [])) as (Hout & Hcol & _ & Htotal & _ & Hiff & Hone).
  { by_decide. }
  split; [exact Hout|]. split; [exact Hcol|].
  destruct Htotal as [edges Hedges].
  { apply resolvable_Forall. by_decide. }
  exists edges. split; [done|]. split_and!.
  - apply (Hiff edges Hedges). split; [done|].
    exists "calcium; oxygen; nitrogen", "oxygen; hydrogen", "calcium", "hydrogen".
    split_and!; try by_decide; vm_compute; reflexivity.
  - apply (Hiff edges Hedges). split; [done|].
    exists "carbon-dioxide", "carbon-dioxide", "carbon-dioxide", "carbon-dioxide".
    split_and!; try by_decide; vm_compute; reflexivity.
  - intros m (_ & x & y & a & b & Hrow & Ha & Hb & Hs & Ht)%(Hiff edges Hedges).
    cbn [table Reactant Product df_1 fmap list_fmap fst snd zip zip_with] in Hrow.
    repeat (apply elem_of_cons in Hrow as [[= -> ->]|Hrow]);
      [..|by apply elem_of_nil in Hrow];
      vm_compute in Ha, Hb;
      repeat (apply elem_of_cons in Ha as [->|Ha]); try (by apply elem_of_nil in Ha);
      repeat (apply elem_of_cons in Hb as [->|Hb]); try (by apply elem_of_nil in Hb);
      vm_compute in Hs, Ht; congruence.
  - intros e. by apply Hone.
Defined.

(** C10: edge extraction adds the weight column, filled with the integer 1
    for every row, to a table that lacks it, leaves a table that has it as
    it is, and never changes the [Reactant] and [Product] columns; this
    holds whether or not it raises. *)
Theorem get_edges_table_effect nodes use_chemical_names allow_multiple_edges (w : world) :
  let w' := (get_edges nodes use_chemical_names allow_multiple_edges w).2 in
  (steps_column ∉ columns (table w) ->
   Number_of_Reaction_Steps (table w') = Return (replicate (len (table w)) 1) /\
   columns (table w') = columns (table w) ++ [steps_column]) /\
  (steps_column ∈ columns (table w) -> table w' = table w) /\
  Reactant (table w') = Reactant (table w) /\
  Product (table w') = Product (table w) /\
  len (table w') = len (table w).
Proof.
  intros w'. subst w'.
  destruct (get_edges_cells nodes use_chemical_names allow_multiple_edges w)
    as (HR & HP & Hlen).
  split_and!; [| |done..].
  - intros Hmissing. rewrite get_edges_run. cbn [snd].
    destruct (table w) as [rows|rows] eqn:Hw.
    + cbn [table with_steps weighted_rows Number_of_Reaction_Steps columns len].
      by destruct (unweighted_columns rows) as (_ & _ & ->).
    + destruct Hmissing. by_decide.
  - intros Hpresent. rewrite get_edges_run. cbn [snd].
    destruct (table w) as [rows|rows] eqn:Hw; [|done].
    exfalso. revert Hpresent. by_decide.
Qed.

Lemma get_edges_table_effect_witness :
  table (get_edges (get_distinct_chemicals df_1) false true (World df_1 [] [])).2 =
    ReactionsWithSteps [("calcium; oxygen; nitrogen", "oxygen; hydrogen", 1);
                        ("carbon-dioxide", "carbon-dioxide", 1);
                        ("nitrogen", "nitrogen", 1);
                        ("oxygen", "oxygen", 1);
                        ("oxygen", "oxygen", 1)] /\
  table (get_edges (get_distinct_chemicals df_with_steps) false false
           (World df_with_steps [] [])).2 = df_with_steps.
Proof.
  split.
  - destruct (get_edges_table_effect (get_distinct_chemicals df_1) false true
                (World df_1 [] [])) as (Hadd & _ & HR & HP & _).
    destruct Hadd as [Hsteps _]; [by_decide|].
    destruct (table _) as [rows|rows]; [done|].
    cbn [Number_of_Reaction_Steps Reactant Product] in *.
    rewrite <- (zip3_weighted rows), HR, HP.
    injection Hsteps as ->. vm_compute. reflexivity.
  - apply (get_edges_table_effect (get_distinct_chemicals df_with_steps) false false
             (World df_with_steps [] [])).
    by_decide.
Defined.

(** C9: in index-keyed mode, with the mapping that node extraction gives for
    the table, edge extraction looks the raw tokens up: it returns exactly
    when trimming leaves every token of the table as it is, and when some
    token carries surrounding whitespace it raises the [KeyError] of such a
    token, although the trimmed name is a node. *)
Theorem get_edges_index_lookup_untrimmed allow_multiple_edges (w : world) :
  let nodes := get_distinct_chemicals (table w) in
  let r := (get_edges nodes false allow_multiple_edges w).1 in
  ((exists edges, r = Return edges) <->
   forall tok, tok ∈ raw_tokens (table w) -> PyStr.strip tok = tok) /\
  ((exists tok, tok ∈ raw_tokens (table w) /\ PyStr.strip tok <> tok) ->
   exists key, r = Raise (KeyError key) /\
               key ∈ raw_tokens (table w) /\
               PyStr.strip key <> key /\
               PyDict.get key nodes = None /\
               is_Some (PyDict.get (PyStr.strip key) nodes)).
Proof.
  intros nodes r. subst nodes r.
  pose proof (get_edges_returns_iff (get_distinct_chemicals (table w)) false
                allow_multiple_edges w) as Hret.
  rewrite resolvable_index_trimmed in Hret.
  split; [done|]. intros (tok & Hin & Hne).
  destruct (get_edges _ _ _ w).1 as [edges|e] eqn:Hr.
  - destruct Hne. apply Hret; [by exists edges | done].
  - apply get_edges_Raise in Hr as (key & Hkey & _ & Hnone & ->).
    exists key. split_and!; [done..| |done|].
    + intros Heq. apply (raw_token_key _ _ Hkey) in Heq as [i Hi]. congruence.
    + apply get_distinct_chemicals_key, list_elem_of_fmap. by exists key.
Qed.

Lemma get_edges_index_lookup_untrimmed_witness :
  exists key,
    (get_edges (get_distinct_chemicals df_untrimmed) false true
       (World df_untrimmed [] [])).1 = Raise (KeyError key) /\
    key ∈ raw_tokens df_untrimmed /\
    PyStr.strip key <> key /\
    PyDict.get key (get_distinct_chemicals df_untrimmed) = None /\
    is_Some (PyDict.get (PyStr.strip key) (get_distinct_chemicals df_untrimmed)).
Proof.
  apply (get_edges_index_lookup_untrimmed true (World df_untrimmed [] [])).
  exists "glucose ". split; by_decide.
Defined.

(** C7: for an index that selects a field of every tuple, the aggregation
    helper returns the distinct values of the field in the order in which
    they are first seen and, at the same positions, the number of tuples
    that carry each value; the empty sequence gives two empty outputs, and
    the five tuples (1,0), (2,0), (3,0), (1,1), (2,2) grouped by their second
    field give the values 0, 1, 2 with the counts 3, 1, 1. *)
Theorem count_by_spec (atr_number : Z) (tuple_list : list (list value)) :
  (Forall (valid_index atr_number) tuple_list ->
   exists attrs,
     Forall2 (fun element a => tuple_item element atr_number = Return a) tuple_list attrs /\
     count_by atr_number tuple_list =
       Return (first_seen attrs, (fun k => occurrences k attrs) <$> first_seen attrs)) /\
  count_by atr_number [] = Return ([], []) /\
  count_by 1 [[VInt 1; VInt 0]; [VInt 2; VInt 0]; [VInt 3; VInt 0];
              [VInt 1; VInt 1]; [VInt 2; VInt 2]] =
    Return ([VInt 0; VInt 1; VInt 2], [3; 1; 1]).
Proof.
  split_and!; [|done|done].
  intros Hvalid.
  destruct (comprehension_total (fun element => tuple_item element atr_number) tuple_list)
    as [attrs Hattrs].
  { intros element Hin. apply tuple_item_valid. by eapply Forall_forall in Hvalid. }
  exists attrs. split; [by apply comprehension_Return|].
  unfold count_by. rewrite Hattrs. cbn [obind].
  by rewrite counter_tabulate, keys_tabulate, values_tabulate.
Qed.

Lemma count_by_spec_witness :
  count_by 0 [[VInt 1; VInt 0]; [VInt 2; VInt 0]; [VInt 3; VInt 0];
              [VInt 1; VInt 1]; [VInt 2; VInt 2]] =
    Return ([VInt 1; VInt 2; VInt 3], [2; 2; 1]).
Proof.
  destruct (count_by_spec 0 [[VInt 1; VInt 0]; [VInt 2; VInt 0]; [VInt 3; VInt 0];
                             [VInt 1; VInt 1]; [VInt 2; VInt 2]]) as [Hspec _].
  destruct Hspec as (attrs & Hattrs & Hcount).
  { repeat constructor; unfold valid_index; simpl; lia. }
  rewrite Hcount.
  apply comprehension_Return in Hattrs. vm_compute in Hattrs.
  injection Hattrs as <-. vm_compute. reflexivity.
Defined.

(** C6: whatever the table and the flags, and in whatever order the edge set
    is passed over, the undirected graph that the builder returns lists at
    most one edge for any unordered pair of nodes; the builder returns
    whenever every token stands for an endpoint, as it always does in
    name-keyed mode. *)
Theorem create_weighted_undirected_graph_simple (order : set_order)
    (use_chemical_names allow_multiple_edges : bool) (w : world) :
  (resolvable (get_distinct_chemicals (table w)) use_chemical_names (table w) ->
   exists graph nodes,
     (create_weighted_undirected_graph order use_chemical_names allow_multiple_edges w).1 =
     Return (graph, nodes)) /\
  forall graph nodes,
    (create_weighted_undirected_graph order use_chemical_names allow_multiple_edges w).1 =
    Return (graph, nodes) ->
    simple (nx.edges graph).
Proof.
  rewrite create_weighted_undirected_graph_run. cbn zeta. cbn [fst]. split.
  - intros Hres. set (w1 := World _ _ _).
    destruct (get_edges_total _ use_chemical_names allow_multiple_edges w1 Hres)
      as [edges ->].
    by eexists _, _.
  - intros graph nodes.
    destruct (get_edges _ _ _ _).1 as [edges|e]; [|done]. intros [= <- _].
    apply simple_edges_from, adj_wf_add_weighted_edges_from.
    destruct (negb use_chemical_names); apply adj_wf_add_nodes_from;
      (split; [constructor | by intros n nbrs ?%elem_of_nil]).
Qed.

Lemma create_weighted_undirected_graph_simple_witness :
  exists graph nodes,
    (create_weighted_undirected_graph elements_order true true
       (World df_with_steps [] [])).1 = Return (graph, nodes) /\
    simple (nx.edges graph).
Proof.
  destruct (create_weighted_undirected_graph_simple elements_order true true
              (World df_with_steps [] [])) as [Htotal Hsimple].
  destruct Htotal as (graph & nodes & Hrun).
  { apply resolvable_names. }
  exists graph, nodes. split; [done|]. by apply (Hsimple graph nodes).
Defined.

(** C4: the dispatch of the degree-distribution analysis on the selector
    "histogram", which is none of its plot types: the analysis builds the
    graph, displays nothing and ends without raising. *)
Theorem analyse_unknown_plot_type_returns :
  degree_distribution.analyse elements_order "histogram" (World df_with_steps [] []) =
  (Return tt, World df_with_steps ["There are 5 chemicals in this graph."] []).
Proof.
  pose proof (analyse_unknown_selector elements_order "histogram"
                (World df_with_steps [] [])) as [Hret Hshown].
  { by_decide. }
  { apply resolvable_Forall. by_decide. }
  destruct (degree_distribution.analyse _ _ _) as [r [df out figs]] eqn:Hrun.
  cbn [fst snd shown] in *. subst r figs.
  assert (Hw : (degree_distribution.analyse elements_order "histogram"
                  (World df_with_steps [] [])).2 = World df out []) by by rewrite Hrun.
  revert Hw. unfold degree_distribution.analyse, bind.
  rewrite create_weighted_directed_graph_run. cbn zeta.
  rewrite get_edges_run. cbn [fst snd table stdout shown].
  assert (Hex : exists es, expansion (get_distinct_chemicals df_with_steps) false
                             (weighted_rows df_with_steps) = Return es).
  { apply expansion_total, resolvable_Forall. by_decide. }
  destruct Hex as [es ->]. cbn [obind df_with_steps]. unfold ret. cbn [snd].
  intros [= <- <-]. reflexivity.
Qed.

(** * Further properties of the graph builder *)

(** ** Edge extraction *)

Lemma generated_same_rows nodes use_chemical_names df df' e :
  same_rows df df' ->
  generated nodes use_chemical_names df e <-> generated nodes use_chemical_names df' e.
Proof.
  intros Hperm. unfold same_rows in Hperm. unfold generated.
  split; intros (row & Hrow & Hgen); exists row; (split; [|done]).
  - by rewrite <- Hperm.
  - by rewrite Hperm.
Qed.

Lemma resolvable_same_rows nodes use_chemical_names df df' :
  same_rows df df' ->
  resolvable nodes use_chemical_names df <-> resolvable nodes use_chemical_names df'.
Proof.
  intros Hperm. unfold same_rows in Hperm. unfold resolvable.
  split; intros Hres tok (row & Hrow & Htok)%elem_of_raw_tokens;
    apply Hres, elem_of_raw_tokens; exists row; (split; [|done]).
  - by rewrite Hperm.
  - by rewrite <- Hperm.
Qed.

(** The edge set is a function of the generated edges only. *)
Lemma get_edges_ext nodes nodes' names names' allow_multiple_edges w w' edges edges' :
  (get_edges nodes names allow_multiple_edges w).1 = Return edges ->
  (get_edges nodes' names' allow_multiple_edges w').1 = Return edges' ->
  (forall e, generated nodes names (table w) e <-> generated nodes' names' (table w') e) ->
  edges = edges'.
Proof.
  intros Hrun Hrun' Hgen. apply set_eq. intros [[s t] m].
  destruct allow_multiple_edges.
  - by rewrite (elem_of_get_edges_multi _ _ _ _ _ Hrun),
      (elem_of_get_edges_multi _ _ _ _ _ Hrun').
  - rewrite (elem_of_get_edges_collapse _ _ _ _ _ _ _ Hrun),
      (elem_of_get_edges_collapse _ _ _ _ _ _ _ Hrun').
    rewrite Hgen. by setoid_rewrite Hgen.
Qed.

(** X1: the order of the rows does not matter to edge extraction: on two
    tables with the same rows it returns on both or on neither, and the edge
    sets it returns are equal. *)
Theorem get_edges_row_order nodes use_chemical_names allow_multiple_edges (w w' : world) :
  same_rows (table w) (table w') ->
  forall edges,
    (get_edges nodes use_chemical_names allow_multiple_edges w).1 = Return edges <->
    (get_edges nodes use_chemical_names allow_multiple_edges w').1 = Return edges.
Proof.
  intros Hperm.
  assert (Hhalf : forall v v' edges, same_rows (table v) (table v') ->
            (get_edges nodes use_chemical_names allow_multiple_edges v).1 = Return edges ->
            (get_edges nodes use_chemical_names allow_multiple_edges v').1 = Return edges).
  { intros v v' edges Hp Hrun.
    destruct (get_edges_total nodes use_chemical_names allow_multiple_edges v') as [edges' Hrun'].
    { apply (resolvable_same_rows _ _ _ _ Hp).
      apply (get_edges_returns_iff nodes use_chemical_names allow_multiple_edges v).
      by exists edges. }
    rewrite Hrun'. f_equal. symmetry.
    apply (get_edges_ext _ _ _ _ _ _ _ _ _ Hrun Hrun').
    intros e. by apply generated_same_rows. }
  intros edges. split; apply Hhalf; [done|].
  unfold same_rows in *. by symmetry.
Qed.

Lemma get_edges_row_order_witness :
  (get_edges (get_distinct_chemicals df_with_steps) false false
     (World (ReactionsWithSteps (reverse (weighted_rows df_with_steps))) [] [])).1 =
  (get_edges (get_distinct_chemicals df_with_steps) false false
     (World df_with_steps [] [])).1.
Proof.
  destruct (get_edges (get_distinct_chemicals df_with_steps) false false
              (World df_with_steps [] [])).1 as [edges|e] eqn:Hrun.
  - apply (get_edges_row_order (get_distinct_chemicals df_with_steps) false false
             (World df_with_steps [] [])
             (World (ReactionsWithSteps (reverse (weighted_rows df_with_steps))) [] [])).
    + unfold same_rows. cbn [table weighted_rows]. symmetry. apply reverse_Permutation.
    + exact Hrun.
  - exfalso. revert Hrun. rewrite get_edges_run. cbn [fst table].
    destruct (expansion_total (get_distinct_chemicals df_with_steps) false df_with_steps)
      as [es ->]; [|done].
    apply resolvable_Forall. by_decide.
Defined.

(** With parallel edges collapsed every generated pair keeps an edge. *)
Lemma get_edges_collapse_covers nodes use_chemical_names w edges s t z :
  (get_edges nodes use_chemical_names false w).1 = Return edges ->
  generated nodes use_chemical_names (table w) (s, t, z) ->
  exists m, (s, t, m) ∈ edges.
Proof.
  rewrite get_edges_run. cbn [fst].
  destruct (expansion _ _ _) as [es|] eqn:Hexp; [|done]. cbn [obind]. intros [= <-] Hz.
  destruct (lowest None (weights_of (s, t) es)) as [m|] eqn:Hlow.
  - exists m. by rewrite elem_of_collect_collapse, record_collapse_get.
  - apply lowest_None in Hlow as [_ Hnil].
    assert (z ∈ weights_of (s, t) es) as Hin
      by by apply elem_of_weights_of, (elem_of_expansion _ _ _ _ _ Hexp).
    rewrite Hnil in Hin. by apply elem_of_nil in Hin.
Qed.

(** X2: collapsing parallel edges takes edges away and no pair of nodes:
    edge extraction returns under one policy exactly when it returns under
    the other, the collapsed set is part of the full one, and the two join
    the same pairs. *)
Theorem get_edges_collapse_within_multi nodes use_chemical_names (w : world) :
  ((exists edges, (get_edges nodes use_chemical_names false w).1 = Return edges) <->
   (exists edges, (get_edges nodes use_chemical_names true w).1 = Return edges)) /\
  forall collapsed full,
    (get_edges nodes use_chemical_names false w).1 = Return collapsed ->
    (get_edges nodes use_chemical_names true w).1 = Return full ->
    collapsed ⊆ full /\
    (forall s t, (exists z, (s, t, z) ∈ full) <-> (exists m, (s, t, m) ∈ collapsed)) /\
    (size collapsed <= size full)%nat.
Proof.
  split; [by rewrite !get_edges_returns_iff|].
  intros collapsed full Hc Hf.
  assert (Hsub : collapsed ⊆ full).
  { intros [[s t] m] Hin.
    apply (elem_of_get_edges_multi _ _ _ _ _ Hf).
    by apply (elem_of_get_edges_collapse _ _ _ _ _ _ _ Hc) in Hin as [? _]. }
  split_and!; [done| |by apply subseteq_size].
  intros s t. split.
  - intros [z Hz]. apply (elem_of_get_edges_multi _ _ _ _ _ Hf) in Hz.
    by eapply get_edges_collapse_covers.
  - intros [m Hm]. exists m. by apply Hsub.
Qed.

Lemma get_edges_collapse_within_multi_witness :
  exists collapsed full,
    (get_edges (get_distinct_chemicals df_with_steps) false false
       (World df_with_steps [] [])).1 = Return collapsed /\
    (get_edges (get_distinct_chemicals df_with_steps) false true
       (World df_with_steps [] [])).1 = Return full /\
    collapsed ⊆ full.
Proof.
  eexists _, _. split; [reflexivity|]. split; [reflexivity|].
  apply (get_edges_collapse_within_multi (get_distinct_chemicals df_with_steps) false
           (World df_with_steps [] [])); reflexivity.
Defined.

(** X3: edge extraction completes the table once: a second run on the table
    the first run left prints nothing, changes nothing and has the outcome
    of the first. *)
Theorem get_edges_second_run nodes use_chemical_names allow_multiple_edges (w : world) :
  let first := get_edges nodes use_chemical_names allow_multiple_edges w in
  get_edges nodes use_chemical_names allow_multiple_edges first.2 = (first.1, first.2).
Proof.
  intros first. subst first. rewrite !get_edges_run. cbn [fst snd].
  destruct (table w) as [rows|rows] eqn:Hw.
  - cbn [table with_steps weighted_rows]. done.
  - by rewrite Hw.
Qed.

(** Whatever the policy, every generated pair has an edge in the result. *)
Lemma get_edges_pair_covered nodes use_chemical_names allow_multiple_edges w edges s t z :
  (get_edges nodes use_chemical_names allow_multiple_edges w).1 = Return edges ->
  generated nodes use_chemical_names (table w) (s, t, z) ->
  exists m, (s, t, m) ∈ edges.
Proof.
  destruct allow_multiple_edges; intros Hrun Hgen.
  - exists z. by apply (elem_of_get_edges_multi _ _ _ _ _ Hrun).
  - by eapply get_edges_collapse_covers.
Qed.

Lemma split_first sep s : exists tok, tok ∈ PyStr.split sep s.
Proof.
  unfold PyStr.split. destruct (split_scan_cons sep 0 [] s) as (piece & pieces & ->).
  exists piece. left.
Qed.

(** In name-keyed mode the endpoints of the returned edges are the raw
    tokens of the table, every one of them. *)
Lemma get_edges_names_endpoint_iff nodes allow_multiple_edges w edges n :
  (get_edges nodes true allow_multiple_edges w).1 = Return edges ->
  (exists e, e ∈ edges /\ (n = e.1.1 \/ n = e.1.2)) <->
  exists tok, tok ∈ raw_tokens (table w) /\ n = VStr tok.
Proof.
  intros Hrun. split.
  - intros (e & Hin & Hend).
    apply (get_edges_generated _ _ _ _ _ _ Hrun) in Hin
      as (row & Hrow & a & b & Ha & Hb & Hea & Heb & _).
    unfold endpoint in Hea, Heb. injection Hea as Hea. injection Heb as Heb.
    destruct Hend as [->| ->]; [exists a | exists b]; (split; [|done]);
      apply elem_of_raw_tokens; exists row; tauto.
  - intros (tok & (row & Hrow & Htok)%elem_of_raw_tokens & ->).
    destruct Htok as [Htok|Htok].
    + destruct (split_first separator row.1.2) as [b Hb].
      destruct (get_edges_pair_covered _ _ _ _ _ (VStr tok) (VStr b) row.2 Hrun)
        as [m Hm].
      { exists row. split; [done|]. by exists tok, b. }
      exists (VStr tok, VStr b, m). split; [done|]. by left.
    + destruct (split_first separator row.1.1) as [a Ha].
      destruct (get_edges_pair_covered _ _ _ _ _ (VStr a) (VStr tok) row.2 Hrun)
        as [m Hm].
      { exists row. split; [done|]. by exists a, tok. }
      exists (VStr a, VStr tok, m). split; [done|]. by right.
Qed.

(** In index-keyed mode the endpoints of the returned edges are identifiers
    that the mapping gives to raw tokens of the table. *)
Lemma get_edges_index_endpoint nodes allow_multiple_edges w edges e :
  (get_edges nodes false allow_multiple_edges w).1 = Return edges ->
  e ∈ edges ->
  exists a b i j,
    e.1.1 = VInt i /\ e.1.2 = VInt j /\
    a ∈ raw_tokens (table w) /\ b ∈ raw_tokens (table w) /\
    PyDict.get a nodes = Some i /\ PyDict.get b nodes = Some j.
Proof.
  intros Hrun Hin.
  apply (get_edges_generated _ _ _ _ _ _ Hrun) in Hin
    as (row & Hrow & a & b & Ha & Hb & Hea & Heb & _).
  unfold endpoint in Hea, Heb.
  destruct (PyDict.get a nodes) as [i|] eqn:Hi; [|done].
  destruct (PyDict.get b nodes) as [j|] eqn:Hj; [|done].
  injection Hea as Hea. injection Heb as Heb.
  exists a, b, i, j. split_and!; [done|done| | |done|done].
  - apply elem_of_raw_tokens. exists row. tauto.
  - apply elem_of_raw_tokens. exists row. tauto.
Qed.

(** X4: in name-keyed mode edge extraction never raises and does not
    consult the mapping; the endpoints of its edges are the raw tokens of
    the table, every one of them, and such an endpoint is a name of the
    extracted mapping exactly when trimming leaves the token as it is. *)
Theorem get_edges_names_endpoints nodes allow_multiple_edges (w : world) :
  exists edges,
    (get_edges nodes true allow_multiple_edges w).1 = Return edges /\
    (forall nodes', (get_edges nodes' true allow_multiple_edges w).1 = Return edges) /\
    (forall e, e ∈ edges -> exists a b, e.1.1 = VStr a /\ e.1.2 = VStr b) /\
    (forall tok, tok ∈ raw_tokens (table w) <->
                 exists e, e ∈ edges /\ (e.1.1 = VStr tok \/ e.1.2 = VStr tok)) /\
    (forall tok, tok ∈ raw_tokens (table w) ->
                 is_Some (PyDict.get tok (get_distinct_chemicals (table w))) <->
                 PyStr.strip tok = tok).
Proof.
  destruct (get_edges_total nodes true allow_multiple_edges w (resolvable_names _ _))
    as [edges Hrun].
  exists edges. split_and!; [done| | | |].
  - intros nodes'.
    destruct (get_edges_total nodes' true allow_multiple_edges w (resolvable_names _ _))
      as [edges' Hrun'].
    rewrite Hrun'. f_equal.
    apply (get_edges_ext _ _ _ _ _ _ _ _ _ Hrun' Hrun). intros e.
    unfold generated, generates, endpoint. done.
  - intros e (row & _ & a & b & _ & _ & Ha & Hb & _)%(get_edges_generated _ _ _ _ _ _ Hrun).
    exists a, b. unfold endpoint in Ha, Hb. split; congruence.
  - intros tok.
    pose proof (get_edges_names_endpoint_iff _ _ _ _ (VStr tok) Hrun) as Hiff. split.
    + intros Htok. destruct (proj2 Hiff) as (e & He & Hend); [by exists tok|].
      exists e. split; [done|]. destruct Hend; [by left | by right].
    + intros (e & He & Hend). destruct (proj1 Hiff) as (tok' & Htok' & Heq).
      { exists e. split; [done|]. destruct Hend; [by left | by right]. }
      by injection Heq as ->.
  - intros tok Hin. by apply raw_token_key.
Qed.

(** X5: in index-keyed mode the endpoints of the returned edges are
    identifiers of the mapping, each the identifier of a raw token of the
    table; with the mapping that node extraction gives for the table they
    lie between 1 and the number of nodes. *)
Theorem get_edges_index_endpoints nodes allow_multiple_edges (w : world) edges e :
  (get_edges nodes false allow_multiple_edges w).1 = Return edges ->
  e ∈ edges ->
  exists a b i j,
    e.1.1 = VInt i /\ e.1.2 = VInt j /\
    a ∈ raw_tokens (table w) /\ b ∈ raw_tokens (table w) /\
    PyDict.get a nodes = Some i /\ PyDict.get b nodes = Some j /\
    (nodes = get_distinct_chemicals (table w) ->
     1 <= i <= Z.of_nat (length nodes) /\ 1 <= j <= Z.of_nat (length nodes)).
Proof.
  intros Hrun Hin.
  destruct (get_edges_index_endpoint _ _ _ _ _ Hrun Hin)
    as (a & b & i & j & Hei & Hej & Ha & Hb & Hi & Hj).
  exists a, b, i, j. split_and!; [done..|].
  - intros ->.
    assert (Hbound : forall k v, PyDict.get k (get_distinct_chemicals (table w)) = Some v ->
              1 <= v <= Z.of_nat (length (get_distinct_chemicals (table w)))).
    { intros k v Hk. apply get_Some_elem in Hk.
      assert (v ∈ PyDict.values (get_distinct_chemicals (table w))) as Hv
        by (apply list_elem_of_fmap; by exists (k, v)).
      revert Hv. rewrite get_distinct_chemicals_numbered, values_numbered.
      unfold numbered. rewrite length_imap, elem_of_seqZ. lia. }
    split; by eapply Hbound.
Qed.

Lemma get_edges_index_endpoints_witness :
  exists a b i j,
    a ∈ raw_tokens df_with_steps /\ b ∈ raw_tokens df_with_steps /\
    PyDict.get a (get_distinct_chemicals df_with_steps) = Some i /\
    PyDict.get b (get_distinct_chemicals df_with_steps) = Some j /\
    1 <= i <= 5 /\ 1 <= j <= 5.
Proof.
  destruct (get_edges_index_endpoints (get_distinct_chemicals df_with_steps) false
              (World df_with_steps [] [])
              {[ (VInt 1, VInt 2, 2); (VInt 2, VInt 2, 2); (VInt 3, VInt 2, 2);
                 (VInt 1, VInt 5, 2); (VInt 2, VInt 5, 2); (VInt 3, VInt 5, 2);
                 (VInt 4, VInt 4, 1); (VInt 3, VInt 3, 3) ]}
              (VInt 4, VInt 4, 1))
    as (a & b & i & j & _ & _ & Ha & Hb & Hi & Hj & Hbound).
  - reflexivity.
  - apply elem_of_union_l, elem_of_union_r. by apply elem_of_singleton.
  - destruct (Hbound eq_refl) as [Hbi Hbj]. cbn [table] in Ha, Hb.
    exists a, b, i, j.
    split; [exact Ha|]. split; [exact Hb|]. split; [exact Hi|]. split; [exact Hj|].
    split; [exact Hbi | exact Hbj].
Defined.

Lemma get_edges_second_run_witness :
  get_edges (get_distinct_chemicals df_1) false true
    (get_edges (get_distinct_chemicals df_1) false true (World df_1 [] [])).2 =
  (Return {[ (VInt 1, VInt 2, 1); (VInt 2, VInt 2, 1); (VInt 3, VInt 2, 1);
             (VInt 1, VInt 5, 1); (VInt 2, VInt 5, 1); (VInt 3, VInt 5, 1);
             (VInt 4, VInt 4, 1); (VInt 3, VInt 3, 1) ]},
   World (with_steps df_1) [steps_note] []).
Proof.
  rewrite (get_edges_second_run (get_distinct_chemicals df_1) false true (World df_1 [] [])).
  reflexivity.
Defined.

Lemma get_edges_names_endpoints_witness :
  exists edges,
    (get_edges [] true true (World df_untrimmed [] [])).1 = Return edges /\
    (exists e, e ∈ edges /\ (e.1.1 = VStr "glucose " \/ e.1.2 = VStr "glucose ")) /\
    ~ is_Some (PyDict.get "glucose " (get_distinct_chemicals df_untrimmed)).
Proof.
  destruct (get_edges_names_endpoints [] true (World df_untrimmed [] []))
    as (edges & Hrun & _ & _ & Hends & Hkey).
  exists edges. split; [done|]. split.
  - apply Hends. by_decide.
  - intros Hsome. apply Hkey in Hsome; [|by_decide]. revert Hsome. by_decide.
Defined.

(** ** Aggregation helper *)

Lemma tuple_item_Return element i v :
  tuple_item element i = Return v -> valid_index i element.
Proof.
  unfold tuple_item, valid_index.
  case_bool_decide as Hrange; [|done]. intros _.
  case_bool_decide; lia.
Qed.

Lemma tuple_item_Raise element i e : tuple_item element i = Raise e -> e = IndexError.
Proof.
  unfold tuple_item. case_bool_decide; [|congruence].
  destruct (element !! _); congruence.
Qed.

Lemma sum_Z_app l1 l2 : sum_Z (l1 ++ l2) = sum_Z l1 + sum_Z l2.
Proof. unfold sum_Z. induction l1 as [|x l1 IH]; simpl; [done|]. rewrite IH. lia. Qed.

Lemma occurrences_cons {A} `{EqDecision A} (k x : A) l :
  occurrences k (x :: l) = (if decide (x = k) then 1 else 0) + occurrences k l.
Proof.
  unfold occurrences. destruct (decide (x = k)).
  - rewrite filter_cons_True by done. simpl. lia.
  - rewrite filter_cons_False by done. lia.
Qed.

Lemma occurrences_pos {A} `{EqDecision A} (k : A) l : k ∈ l -> 1 <= occurrences k l.
Proof.
  induction l as [|x l IH]; [by intros ?%elem_of_nil|].
  rewrite occurrences_cons. intros [->|Hin]%elem_of_cons.
  - rewrite decide_True by done. unfold occurrences. lia.
  - specialize (IH Hin). destruct (decide (x = k)); lia.
Qed.

(** The counts of a list over the keys [ks], when [ks] has every element
    of the list once, add up to the length of the list. *)
Lemma sum_occurrences {A} `{EqDecision A} (ks : list A) : forall l,
  NoDup ks -> (forall x, x ∈ l -> x ∈ ks) ->
  sum_Z ((fun k => occurrences k l) <$> ks) = Z.of_nat (length l).
Proof.
  induction ks as [|k ks IH]; intros l Hnd Hin.
  - destruct l as [|x l]; [done|]. exfalso.
    eapply not_elem_of_nil, (Hin x). left.
  - apply NoDup_cons in Hnd as [Hk Hnd].
    rewrite fmap_cons. unfold sum_Z. cbn [foldr].
    fold (sum_Z ((fun k0 => occurrences k0 l) <$> ks)).
    assert (Hrest : (fun k0 => occurrences k0 l) <$> ks =
                    (fun k0 => occurrences k0 (filter (fun x => x <> k) l)) <$> ks).
    { apply list_fmap_ext. intros i k' Hk'. unfold occurrences. do 2 f_equal.
      rewrite list_filter_filter. apply list_filter_iff. intros x. split; [|tauto].
      intros ->. split; [done|]. intros ->. apply Hk. by eapply list_elem_of_lookup_2. }
    rewrite Hrest, IH; [|done|].
    + unfold occurrences.
      pose proof (Permutation_length (filter_app_complement (fun x => x = k) l)) as Hlen.
      rewrite length_app in Hlen. lia.
    + intros x [Hne Hx]%list_elem_of_filter.
      apply Hin in Hx. apply elem_of_cons in Hx as [?|?]; done.
Qed.

(** What [count_by] returns, when it returns. *)
Lemma count_by_Return atr_number tuple_list x y :
  count_by atr_number tuple_list = Return (x, y) ->
  exists attrs,
    Forall2 (fun element a => tuple_item element atr_number = Return a) tuple_list attrs /\
    x = first_seen attrs /\ y = (fun k => occurrences k attrs) <$> first_seen attrs.
Proof.
  unfold count_by.
  destruct (comprehension _ tuple_list) as [attrs|] eqn:Hattrs; [|done].
  cbn [obind]. rewrite counter_tabulate, keys_tabulate, values_tabulate.
  intros [= <- <-]. exists attrs. split; [by apply comprehension_Return | done].
Qed.

(** X6: the two outputs of the aggregation helper have the same length, no
    value is listed twice, every count is at least 1 and the counts add up
    to the number of tuples. *)
Theorem count_by_counts_all atr_number tuple_list x y :
  count_by atr_number tuple_list = Return (x, y) ->
  length x = length y /\
  NoDup x /\
  Forall (fun c => 1 <= c) y /\
  sum_Z y = Z.of_nat (length tuple_list).
Proof.
  intros (attrs & Hattrs & -> & ->)%count_by_Return.
  split_and!.
  - by rewrite length_fmap.
  - apply NoDup_first_seen.
  - apply Forall_fmap, Forall_forall. intros k Hk. simpl.
    by apply occurrences_pos, elem_of_first_seen.
  - rewrite (Forall2_length _ _ _ Hattrs).
    apply sum_occurrences; [apply NoDup_first_seen|].
    intros a Ha. by apply elem_of_first_seen.
Qed.

Lemma count_by_counts_all_witness :
  sum_Z [3; 1; 1] = 5 /\ NoDup [VInt 0; VInt 1; VInt 2].
Proof.
  destruct (count_by_counts_all 1 [[VInt 1; VInt 0]; [VInt 2; VInt 0]; [VInt 3; VInt 0];
                                   [VInt 1; VInt 1]; [VInt 2; VInt 2]]
              [VInt 0; VInt 1; VInt 2] [3; 1; 1]) as (_ & Hnd & _ & Hsum).
  - reflexivity.
  - split; [exact Hsum | exact Hnd].
Defined.

(** X7: the aggregation helper returns exactly when the index selects a
    field of every tuple; otherwise it raises [IndexError], and it raises
    nothing else. *)
Theorem count_by_IndexError atr_number tuple_list :
  ((exists r, count_by atr_number tuple_list = Return r) <->
   Forall (valid_index atr_number) tuple_list) /\
  (forall e, count_by atr_number tuple_list = Raise e -> e = IndexError) /\
  (~ Forall (valid_index atr_number) tuple_list ->
   count_by atr_number tuple_list = Raise IndexError).
Proof.
  assert (Hret : (exists r, count_by atr_number tuple_list = Return r) <->
                 Forall (valid_index atr_number) tuple_list).
  { split.
    - intros [[x y] (attrs & Hattrs & _)%count_by_Return].
      apply Forall_forall. intros element Hin.
      destruct (Forall2_elem_of_l _ _ _ _ Hattrs Hin) as (a & _ & Ha).
      by eapply tuple_item_Return.
    - intros Hvalid.
      destruct (comprehension_total (fun element => tuple_item element atr_number) tuple_list)
        as [attrs Hattrs].
      { intros element Hin. apply tuple_item_valid. by eapply Forall_forall in Hvalid. }
      unfold count_by. rewrite Hattrs. by eexists. }
  assert (Hexn : forall e, count_by atr_number tuple_list = Raise e -> e = IndexError).
  { intros e. unfold count_by.
    destruct (comprehension _ tuple_list) as [attrs|e'] eqn:Hattrs; [done|].
    cbn [obind]. intros [= <-].
    apply comprehension_Raise in Hattrs as (element & _ & Hitem).
    by eapply tuple_item_Raise. }
  split_and!; [done..|].
  intros Hinvalid.
  destruct (count_by atr_number tuple_list) as [r|e] eqn:Hrun.
  - destruct Hinvalid. apply Hret. by exists r.
  - by rewrite (Hexn e eq_refl).
Qed.

Lemma count_by_IndexError_witness :
  count_by 2 [[VInt 1; VInt 0; VInt 7]; [VInt 2; VInt 0]] = Raise IndexError.
Proof.
  apply (count_by_IndexError 2 [[VInt 1; VInt 0; VInt 7]; [VInt 2; VInt 0]]).
  intros Hall. apply Forall_cons in Hall as [_ Hall]. apply Forall_cons in Hall as [Hbad _].
  unfold valid_index in Hbad. simpl in Hbad. lia.
Defined.

(** ** Node extraction *)

Lemma elem_of_numbered names name i :
  (name, i) ∈ numbered names <-> exists k, names !! k = Some name /\ i = Z.of_nat k + 1.
Proof.
  unfold numbered. rewrite list_elem_of_lookup. split.
  - intros (k & Hk). rewrite list_lookup_imap in Hk.
    destruct (names !! k) as [name'|] eqn:Hname; [|done].
    injection Hk as <- <-. by exists k.
  - intros (k & Hk & ->). exists k. by rewrite list_lookup_imap, Hk.
Qed.

(** X8: two tokens of the table are the same node exactly when their
    trimmed forms are equal: the trimmed form of every token has an
    identifier, and two tokens have the same identifier if and only if they
    have the same trimmed form. *)
Theorem get_distinct_chemicals_same_node (df : DataFrame) (a b : string) :
  a ∈ raw_tokens df -> b ∈ raw_tokens df ->
  exists i j,
    PyDict.get (PyStr.strip a) (get_distinct_chemicals df) = Some i /\
    PyDict.get (PyStr.strip b) (get_distinct_chemicals df) = Some j /\
    (i = j <-> PyStr.strip a = PyStr.strip b).
Proof.
  intros Ha Hb.
  assert (Hkey : forall tok, tok ∈ raw_tokens df ->
            is_Some (PyDict.get (PyStr.strip tok) (get_distinct_chemicals df))).
  { intros tok Htok. apply get_distinct_chemicals_key, list_elem_of_fmap. by exists tok. }
  destruct (Hkey a Ha) as [i Hi], (Hkey b Hb) as [j Hj].
  exists i, j. split_and!; [done..|]. split.
  - intros <-. apply get_Some_elem in Hi, Hj.
    rewrite get_distinct_chemicals_numbered in Hi, Hj.
    apply elem_of_numbered in Hi as (k & Hk & ->), Hj as (k' & Hk' & Heq).
    assert (k = k') as <- by lia. congruence.
  - intros Heq. rewrite Heq in Hi. congruence.
Qed.

Lemma get_distinct_chemicals_same_node_witness :
  exists i j,
    PyDict.get (PyStr.strip "glucose ") (get_distinct_chemicals df_untrimmed) = Some i /\
    PyDict.get (PyStr.strip "water") (get_distinct_chemicals df_untrimmed) = Some j /\
    i <> j.
Proof.
  destruct (get_distinct_chemicals_same_node df_untrimmed "glucose " "water")
    as (i & j & Hi & Hj & Hiff); [by_decide | by_decide |].
  exists i, j. split_and!; [done..|].
  intros Heq. apply Hiff in Heq. revert Heq. by_decide.
Defined.

Lemma chemical_names_same_rows df df' name :
  same_rows df df' -> name ∈ chemical_names df <-> name ∈ chemical_names df'.
Proof.
  intros Hperm. unfold same_rows in Hperm. unfold chemical_names.
  rewrite !list_elem_of_fmap.
  split; intros (tok & -> & (row & Hrow & Htok)%elem_of_raw_tokens);
    exists tok; (split; [done|]); apply elem_of_raw_tokens; exists row; (split; [|done]).
  - by rewrite <- Hperm.
  - by rewrite Hperm.
Qed.

(** X9: the order of the rows matters to node extraction for the numbering
    only: on two tables with the same rows it gives mappings with the same
    names and the same number of nodes. *)
Theorem get_distinct_chemicals_row_order (df df' : DataFrame) :
  same_rows df df' ->
  (forall name, name ∈ PyDict.keys (get_distinct_chemicals df) <->
                name ∈ PyDict.keys (get_distinct_chemicals df')) /\
  length (get_distinct_chemicals df) = length (get_distinct_chemicals df').
Proof.
  intros Hperm.
  assert (Hnames : forall name,
            name ∈ first_seen (chemical_names df) <-> name ∈ first_seen (chemical_names df')).
  { intros name. rewrite !elem_of_first_seen. by apply chemical_names_same_rows. }
  rewrite !get_distinct_chemicals_numbered, !keys_numbered. split; [done|].
  unfold numbered. rewrite !length_imap.
  apply Nat.le_antisymm; apply submseteq_length, NoDup_submseteq;
    try apply NoDup_first_seen; intros name; apply Hnames.
Qed.

Lemma get_distinct_chemicals_row_order_witness :
  length (get_distinct_chemicals
            (Reactions [("oxygen", "oxygen"); ("oxygen", "oxygen"); ("nitrogen", "nitrogen");
                        ("carbon-dioxide", "carbon-dioxide");
                        ("calcium; oxygen; nitrogen", "oxygen; hydrogen")])) = 5%nat.
Proof.
  destruct (get_distinct_chemicals_row_order df_1
              (Reactions [("oxygen", "oxygen"); ("oxygen", "oxygen"); ("nitrogen", "nitrogen");
                          ("carbon-dioxide", "carbon-dioxide");
                          ("calcium; oxygen; nitrogen", "oxygen; hydrogen")]))
    as [_ Hlen].
  - unfold same_rows. cbn [weighted_rows df_1 fmap list_fmap].
    apply (reverse_Permutation
             [("oxygen", "oxygen", 1); ("oxygen", "oxygen", 1); ("nitrogen", "nitrogen", 1);
              ("carbon-dioxide", "carbon-dioxide", 1);
              ("calcium; oxygen; nitrogen", "oxygen; hydrogen", 1)]).
  - rewrite <- Hlen. reflexivity.
Defined.

(** ** Graph assembly *)

Lemma contains_true {K V} `{EqDecision K} (d : dict K V) k :
  PyDict.contains k d = true <-> k ∈ PyDict.keys d.
Proof. rewrite contains_keys. apply bool_decide_eq_true. Qed.

Lemma keys_set {K V} `{EqDecision K} (d : dict K V) k v :
  PyDict.keys (PyDict.set k v d) =
  if decide (k ∈ PyDict.keys d) then PyDict.keys d else PyDict.keys d ++ [k].
Proof.
  destruct (decide (k ∈ PyDict.keys d)) as [Hin|Hout].
  - by apply keys_set_present.
  - rewrite set_absent by done. unfold PyDict.keys. by rewrite fmap_app.
Qed.

Lemma graph_wf_new : graph_wf nx.Graph_new.
Proof. split; [done | constructor]. Qed.

Lemma add_node_keys n g :
  graph_wf g ->
  graph_wf (nx.add_node n g) /\
  PyDict.keys (nx.node (nx.add_node n g)) =
    if decide (n ∈ PyDict.keys (nx.node g))
    then PyDict.keys (nx.node g) else PyDict.keys (nx.node g) ++ [n].
Proof.
  intros [Hadj Hnd]. unfold nx.add_node. rewrite contains_keys.
  destruct (decide (n ∈ PyDict.keys (nx.node g))) as [Hin|Hout].
  - by rewrite bool_decide_true.
  - rewrite bool_decide_false by done. unfold graph_wf. cbn [nx.node nx.adj].
    rewrite !keys_set, Hadj.
    rewrite !decide_False by done. split; [|done]. split; [done|].
    apply NoDup_app. split_and!; [done| |apply NoDup_singleton].
    by intros x Hx ->%list_elem_of_singleton.
Qed.

Lemma add_node_elem n g m :
  graph_wf g ->
  m ∈ PyDict.keys (nx.node (nx.add_node n g)) <-> m ∈ PyDict.keys (nx.node g) \/ m = n.
Proof.
  intros Hwf. destruct (add_node_keys n g Hwf) as [_ ->].
  destruct (decide (n ∈ PyDict.keys (nx.node g))).
  - split; [by left|]. by intros [?| ->].
  - by rewrite elem_of_app, list_elem_of_singleton.
Qed.

Lemma add_node_prefix n g :
  graph_wf g ->
  PyDict.keys (nx.node g) `prefix_of` PyDict.keys (nx.node (nx.add_node n g)).
Proof.
  intros Hwf. destruct (add_node_keys n g Hwf) as [_ ->].
  destruct (decide (n ∈ PyDict.keys (nx.node g))); [done|]. by apply prefix_app_r.
Qed.

Lemma add_nodes_from_keys ns : forall g,
  graph_wf g ->
  graph_wf (nx.add_nodes_from ns g) /\
  (forall n, n ∈ PyDict.keys (nx.node (nx.add_nodes_from ns g)) <->
             n ∈ PyDict.keys (nx.node g) \/ n ∈ ns) /\
  (NoDup ns -> (forall n, n ∈ ns -> n ∉ PyDict.keys (nx.node g)) ->
   PyDict.keys (nx.node (nx.add_nodes_from ns g)) = PyDict.keys (nx.node g) ++ ns).
Proof.
  unfold nx.add_nodes_from. induction ns as [|n ns IH]; intros g Hwf; cbn [foldl].
  - split_and!; [done| |by rewrite app_nil_r].
    intros n. split; [by left|]. by intros [?|?%elem_of_nil].
  - destruct (add_node_keys n g Hwf) as [Hwf' Hkeys].
    destruct (IH _ Hwf') as (Hwf'' & Hin & Hexact). split_and!; [done| |].
    + intros m. rewrite Hin, Hkeys, elem_of_cons.
      destruct (decide (n ∈ PyDict.keys (nx.node g))) as [Hn|Hn].
      * split; [tauto|]. intros [?|[->|?]]; tauto.
      * rewrite elem_of_app, list_elem_of_singleton. tauto.
    + intros [Hn Hnd]%NoDup_cons Hfresh.
      rewrite Hexact, Hkeys; [| done |].
      * rewrite decide_False by (apply Hfresh; left). by rewrite <- app_assoc.
      * intros m Hm. rewrite Hkeys.
        rewrite decide_False by (apply Hfresh; left).
        rewrite elem_of_app, list_elem_of_singleton.
        intros [?| ->]; [|done]. eapply Hfresh; [by right | done].
Qed.

Lemma adj_set_keys u v d a :
  u ∈ PyDict.keys a -> PyDict.keys (nx.adj_set u v d a) = PyDict.keys a.
Proof. intros Hu. unfold nx.adj_set. by rewrite keys_set, decide_True. Qed.

Lemma add_edge_keys e g :
  graph_wf g ->
  graph_wf (nx.add_edge e g) /\
  PyDict.keys (nx.node (nx.add_edge e g)) =
    PyDict.keys (nx.node (nx.add_node e.1.2 (nx.add_node e.1.1 g))).
Proof.
  destruct e as [[u v] d]. intros Hwf. cbn [fst snd].
  destruct (add_node_keys u g Hwf) as [Hwf1 _].
  destruct (add_node_keys v _ Hwf1) as [Hwf2 _].
  unfold nx.add_edge. cbn [nx.node nx.adj]. split; [|done].
  assert (Hu : u ∈ PyDict.keys (nx.node (nx.add_node v (nx.add_node u g)))).
  { apply (add_node_elem _ _ _ Hwf1). left. apply (add_node_elem _ _ _ Hwf). by right. }
  assert (Hv : v ∈ PyDict.keys (nx.node (nx.add_node v (nx.add_node u g)))).
  { apply (add_node_elem _ _ _ Hwf1). by right. }
  destruct Hwf2 as [Hadj Hnd]. split; [|done]. cbn [nx.node nx.adj].
  rewrite <- Hadj in Hu, Hv.
  rewrite adj_set_keys; [|by rewrite adj_set_keys].
  by rewrite adj_set_keys.
Qed.

Lemma add_weighted_edges_from_keys es : forall g,
  graph_wf g ->
  graph_wf (nx.add_weighted_edges_from es g) /\
  PyDict.keys (nx.node g) `prefix_of`
    PyDict.keys (nx.node (nx.add_weighted_edges_from es g)) /\
  (forall n, n ∈ PyDict.keys (nx.node (nx.add_weighted_edges_from es g)) <->
             n ∈ PyDict.keys (nx.node g) \/ endpoint_of n es).
Proof.
  unfold nx.add_weighted_edges_from. induction es as [|e es IH]; intros g Hwf; cbn [foldl].
  - split_and!; [done..|]. intros n. split; [by left|].
    intros [?|(e & ?%elem_of_nil & _)]; done.
  - destruct (add_edge_keys e g Hwf) as [Hwf' Hkeys].
    destruct (add_node_keys e.1.1 g Hwf) as [Hwf1 _].
    destruct (IH _ Hwf') as (Hwf'' & Hpre & Hin).
    assert (Hgrow : forall n, n ∈ PyDict.keys (nx.node (nx.add_edge e g)) <->
                      n ∈ PyDict.keys (nx.node g) \/ n = e.1.1 \/ n = e.1.2).
    { intros n. rewrite Hkeys, (add_node_elem _ _ _ Hwf1), (add_node_elem _ _ _ Hwf).
      tauto. }
    split_and!; [done| |].
    + etrans; [|exact Hpre]. rewrite Hkeys.
      etrans; [by apply add_node_prefix | by apply add_node_prefix].
    + intros n. rewrite Hin, Hgrow. unfold endpoint_of. split.
      * intros [[?|Hn]|(e' & He' & Hn)]; [by left| |].
        -- right. exists e. split; [left | done].
        -- right. exists e'. split; [by right | done].
      * intros [?|(e' & [->|He']%elem_of_cons & Hn)]; [tauto|tauto|].
        right. by exists e'.
Qed.

Lemma elem_of_iterate (order : set_order) (edges : gset edge) e :
  e ∈ order edges <-> e ∈ edges.
Proof. by rewrite (iterate_perm order edges), elem_of_elements. Qed.

Lemma prefix_full {A} (l k : list A) :
  l `prefix_of` k -> NoDup k -> (forall x, x ∈ k -> x ∈ l) -> k = l.
Proof.
  intros [r ->] Hnd Hall. destruct r as [|x r]; [by rewrite app_nil_r|]. exfalso.
  apply NoDup_app in Hnd as (_ & Hdisj & _).
  apply (Hdisj x); [|left]. apply Hall. rewrite elem_of_app. right. left.
Qed.

Lemma get_edges_same_table nodes use_chemical_names allow_multiple_edges w w' :
  table w = table w' ->
  (get_edges nodes use_chemical_names allow_multiple_edges w).1 =
  (get_edges nodes use_chemical_names allow_multiple_edges w').1.
Proof. intros Heq. rewrite !get_edges_run. cbn [fst]. by rewrite Heq. Qed.

(** What the builder of the undirected graph returns, when it returns. *)
Lemma create_weighted_undirected_graph_Return order names allow_multiple_edges w graph nodes :
  (create_weighted_undirected_graph order names allow_multiple_edges w).1 =
    Return (graph, nodes) ->
  nodes = get_distinct_chemicals (table w) /\
  exists edges,
    (get_edges nodes names allow_multiple_edges w).1 = Return edges /\
    graph = nx.add_weighted_edges_from (order edges)
              (nx.add_nodes_from
                 (if names then VStr <$> PyDict.keys nodes else VInt <$> PyDict.values nodes)
                 nx.Graph_new).
Proof.
  rewrite create_weighted_undirected_graph_run. cbn zeta. cbn [fst].
  set (w1 := World _ _ _).
  rewrite (get_edges_same_table _ names allow_multiple_edges w1 w) by done.
  destruct (get_edges _ _ _ w).1 as [edges|e] eqn:Hrun; [|done].
  intros [= <- <-]. split; [done|]. exists edges. split; [done|]. by destruct names.
Qed.

Lemma create_weighted_undirected_graph_total order names allow_multiple_edges w :
  resolvable (get_distinct_chemicals (table w)) names (table w) ->
  exists graph nodes,
    (create_weighted_undirected_graph order names allow_multiple_edges w).1 =
    Return (graph, nodes).
Proof.
  intros Hres. rewrite create_weighted_undirected_graph_run. cbn zeta. cbn [fst].
  set (w1 := World _ _ _).
  destruct (get_edges_total _ names allow_multiple_edges w1 Hres) as [edges ->].
  by eexists _, _.
Qed.

Lemma NoDup_keys_get_distinct_chemicals df :
  NoDup (PyDict.keys (get_distinct_chemicals df)) /\
  NoDup (PyDict.values (get_distinct_chemicals df)).
Proof.
  rewrite get_distinct_chemicals_numbered, keys_numbered, values_numbered.
  split; [apply NoDup_first_seen | apply NoDup_seqZ].
Qed.

(** X10: the nodes of the undirected graph. In index-keyed mode they are the
    identifiers 1, 2, ... of the mapping, in that order, and nothing else; in
    name-keyed mode they are the names of the mapping, in that order,
    followed by the raw tokens that are no name of the mapping, one node for
    every token that differs from its trimmed form. The adjacency has an
    entry for every node and no node is listed twice. *)
Theorem create_weighted_undirected_graph_nodes (order : set_order)
    (use_chemical_names allow_multiple_edges : bool) (w : world) graph nodes :
  (create_weighted_undirected_graph order use_chemical_names allow_multiple_edges w).1 =
    Return (graph, nodes) ->
  nodes = get_distinct_chemicals (table w) /\
  PyDict.keys (nx.adj graph) = PyDict.keys (nx.node graph) /\
  NoDup (PyDict.keys (nx.node graph)) /\
  (use_chemical_names = false ->
   PyDict.keys (nx.node graph) = VInt <$> seqZ 1 (Z.of_nat (length nodes))) /\
  (use_chemical_names = true ->
   (VStr <$> PyDict.keys nodes) `prefix_of` PyDict.keys (nx.node graph) /\
   forall n, n ∈ PyDict.keys (nx.node graph) <->
             exists s, n = VStr s /\
                       (s ∈ chemical_names (table w) \/ s ∈ raw_tokens (table w))).
Proof.
  intros (Hnodes & edges & Hrun & ->)%create_weighted_undirected_graph_Return.
  destruct (NoDup_keys_get_distinct_chemicals (table w)) as [Hndk Hndv].
  rewrite <- Hnodes in Hndk, Hndv.
  set (ns := if use_chemical_names then VStr <$> PyDict.keys nodes
             else VInt <$> PyDict.values nodes).
  assert (Hns : NoDup ns).
  { subst ns. destruct use_chemical_names; apply NoDup_fmap_2; try done;
      by intros x y [= ->]. }
  destruct (add_nodes_from_keys ns nx.Graph_new graph_wf_new) as (Hwf0 & _ & Hexact).
  specialize (Hexact Hns (fun n _ => not_elem_of_nil n)).
  change (PyDict.keys (nx.node nx.Graph_new) ++ ns) with ns in Hexact.
  destruct (add_weighted_edges_from_keys (order edges) _ Hwf0) as ([Hadj Hnd] & Hpre & Hin).
  rewrite Hexact in Hpre, Hin.
  split_and!; [done..| |].
  - intros ->. subst ns.
    rewrite Hnodes at 2. rewrite get_distinct_chemicals_numbered. unfold numbered.
    rewrite length_imap.
    rewrite <- (values_numbered (first_seen (chemical_names (table w)))),
      <- get_distinct_chemicals_numbered, <- Hnodes.
    apply prefix_full; [done..|].
    intros n [Hn|(e & He & Hend)]%Hin; [done|].
    apply elem_of_iterate in He.
    destruct (get_edges_index_endpoint _ _ _ _ _ Hrun He)
      as (a & b & i & j & Hei & Hej & _ & _ & Hi & Hj).
    apply list_elem_of_fmap.
    destruct Hend as [->| ->]; [exists i | exists j]; (split; [done|]);
      apply list_elem_of_fmap; [exists (a, i) | exists (b, j)];
      (split; [done|]); by apply get_Some_elem.
  - intros ->. subst ns. split; [done|]. intros n. rewrite Hin.
    assert (Hend : endpoint_of n (order edges) <->
                   exists tok, tok ∈ raw_tokens (table w) /\ n = VStr tok).
    { rewrite <- (get_edges_names_endpoint_iff _ _ _ _ n Hrun). unfold endpoint_of.
      by setoid_rewrite elem_of_iterate. }
    rewrite Hend, list_elem_of_fmap.
    assert (Hkeys : forall s, s ∈ PyDict.keys nodes <-> s ∈ chemical_names (table w)).
    { intros s. rewrite Hnodes, get_distinct_chemicals_numbered, keys_numbered.
      apply elem_of_first_seen. }
    split.
    + intros [(s & -> & Hs)|(tok & Htok & ->)]; eexists; (split; [done|]).
      * left. by apply Hkeys.
      * by right.
    + intros (s & -> & [Hs|Hs]); [left | right]; exists s; (split; [done|]); [|done].
      by apply Hkeys.
Qed.

Lemma create_weighted_undirected_graph_nodes_witness :
  exists graph nodes,
    (create_weighted_undirected_graph elements_order true true
       (World df_untrimmed [] [])).1 = Return (graph, nodes) /\
    VStr "glucose " ∈ PyDict.keys (nx.node graph) /\
    VStr "glucose" ∈ PyDict.keys (nx.node graph).
Proof.
  destruct (create_weighted_undirected_graph_total elements_order true true
              (World df_untrimmed [] [])) as (graph & nodes & Hrun);
    [apply resolvable_names|].
  exists graph, nodes. split; [done|].
  destruct (create_weighted_undirected_graph_nodes elements_order true true
              (World df_untrimmed [] []) graph nodes Hrun) as (_ & _ & _ & _ & Hnames).
  destruct (Hnames eq_refl) as [_ Hin].
  split; apply Hin.
  - exists "glucose ". split; [done|]. right. by_decide.
  - exists "glucose". split; [done|]. left. by_decide.
Defined.

(** *** The adjacency of the undirected graph *)

Lemma get_set {K V} `{EqDecision K} (d : dict K V) k k' v :
  PyDict.get k' (PyDict.set k v d) = if decide (k = k') then Some v else PyDict.get k' d.
Proof.
  destruct (decide (k = k')) as [->|Hne]; [apply get_set_eq | by apply get_set_ne].
Qed.

Lemma weight_of_adj_set a b d adj u v :
  weight_of (nx.adj_set a b d adj) u v =
  if decide (a = u /\ b = v) then Some d else weight_of adj u v.
Proof.
  unfold weight_of, nx.adj_set. rewrite get_set.
  destruct (decide (a = u)) as [->|Hne].
  - change (default [] (Some ?x)) with x. rewrite get_set.
    destruct (decide (b = v)) as [->|Hne].
    + by rewrite decide_True.
    + rewrite decide_False by tauto. done.
  - rewrite decide_False by tauto. done.
Qed.

Lemma weight_of_add_node n g u v :
  graph_wf g -> weight_of (nx.adj (nx.add_node n g)) u v = weight_of (nx.adj g) u v.
Proof.
  intros [Hadj _]. unfold nx.add_node. rewrite contains_keys.
  case_bool_decide as Hn; [done|]. cbn [nx.adj]. unfold weight_of. rewrite get_set.
  destruct (decide (n = u)) as [->|Hne]; [|done].
  rewrite <- Hadj in Hn. apply get_None in Hn. by rewrite Hn.
Qed.

Lemma weight_of_add_edge a b d g u v :
  graph_wf g ->
  weight_of (nx.adj (nx.add_edge (a, b, d) g)) u v =
  if decide ((u = a /\ v = b) \/ (u = b /\ v = a)) then Some d else weight_of (nx.adj g) u v.
Proof.
  intros Hwf. destruct (add_node_keys a g Hwf) as [Hwf1 _].
  unfold nx.add_edge. cbn [nx.adj].
  rewrite !weight_of_adj_set, (weight_of_add_node _ _ _ _ Hwf1), (weight_of_add_node _ _ _ _ Hwf).
  destruct (decide (b = u /\ a = v)) as [[<- <-]|Hba].
  { rewrite decide_True; [done | by right]. }
  destruct (decide (a = u /\ b = v)) as [[<- <-]|Hab].
  { rewrite decide_True; [done | by left]. }
  rewrite decide_False; [done|].
  intros [[-> ->]|[-> ->]]; tauto.
Qed.

Lemma weight_of_add_nodes_from ns : forall g u v,
  graph_wf g ->
  weight_of (nx.adj (nx.add_nodes_from ns g)) u v = weight_of (nx.adj g) u v.
Proof.
  unfold nx.add_nodes_from. induction ns as [|n ns IH]; intros g u v Hwf; cbn [foldl]; [done|].
  destruct (add_node_keys n g Hwf) as [Hwf1 _].
  by rewrite IH, weight_of_add_node.
Qed.

(** The adjacency after a list of edges was added: it is symmetric if it
    was, every weight it holds is the old one or the weight of an added edge
    between the two nodes, and every added edge joins its endpoints. *)
Lemma weight_of_add_weighted_edges_from es : forall g,
  graph_wf g ->
  (forall u v, weight_of (nx.adj g) u v = weight_of (nx.adj g) v u) ->
  (forall u v, weight_of (nx.adj (nx.add_weighted_edges_from es g)) u v =
               weight_of (nx.adj (nx.add_weighted_edges_from es g)) v u) /\
  (forall u v d, weight_of (nx.adj (nx.add_weighted_edges_from es g)) u v = Some d ->
                 weight_of (nx.adj g) u v = Some d \/ (u, v, d) ∈ es \/ (v, u, d) ∈ es) /\
  (forall u v, is_Some (weight_of (nx.adj g) u v) \/
               (exists d, (u, v, d) ∈ es \/ (v, u, d) ∈ es) ->
               is_Some (weight_of (nx.adj (nx.add_weighted_edges_from es g)) u v)).
Proof.
  unfold nx.add_weighted_edges_from.
  induction es as [|[[a b] d] es IH]; intros g Hwf Hsym; cbn [foldl].
  - split_and!; [done| by left |].
    intros u v [?|(d & [?%elem_of_nil|?%elem_of_nil])]; done.
  - destruct (add_edge_keys (a, b, d) g Hwf) as [Hwf' _].
    destruct (IH (nx.add_edge (a, b, d) g) Hwf') as (Hsym' & Hfrom & Hto).
    { intros u v. rewrite !weight_of_add_edge by done. rewrite (Hsym u v).
      destruct (decide ((u = a /\ v = b) \/ (u = b /\ v = a))) as [Huv|Huv].
      - rewrite decide_True; [done | tauto].
      - rewrite decide_False; [done | tauto]. }
    split_and!; [done| |].
    + intros u v d' [Hold|[Hin|Hin]]%Hfrom.
      * rewrite weight_of_add_edge in Hold by done.
        case_decide as Hcase; [|by left]. injection Hold as <-. right.
        destruct Hcase as [[-> ->]|[-> ->]]; [left | right]; left.
      * right. left. by right.
      * right. right. by right.
    + intros u v Hcase. apply Hto. rewrite weight_of_add_edge by done.
      case_decide as Hab; [left; by eexists|].
      destruct Hcase as [?|(d' & [Hin|Hin])]; [by left| |].
      * apply elem_of_cons in Hin as [[= -> -> ->]|Hin]; [exfalso; tauto|].
        right. exists d'. by left.
      * apply elem_of_cons in Hin as [[= -> -> ->]|Hin]; [exfalso; tauto|].
        right. exists d'. by right.
Qed.

(** Every edge of the edge view is held by the adjacency. *)
Lemma edges_from_weight a : forall (seen : list value) u v d,
  adj_wf a -> (u, v, d) ∈ nx.edges_from seen a -> weight_of a u v = Some d.
Proof.
  induction a as [|[n nbrs] a IH]; intros seen u v d [Hnd Hin]; cbn [nx.edges_from].
  - by intros ?%elem_of_nil.
  - unfold PyDict.keys in Hnd. cbn [fmap list_fmap fst] in Hnd.
    apply NoDup_cons in Hnd as [Hn Hnd].
    rewrite elem_of_app. intros [Hrow|Htail].
    + apply list_elem_of_omap in Hrow as ([nbr d'] & Hnbr & Hsome).
      destruct (decide (nbr ∈ seen)); [done|]. injection Hsome as <- <- <-.
      unfold weight_of. cbn [PyDict.get]. rewrite decide_True by done.
      change (default [] (Some ?x)) with x.
      apply get_elem_NoDup; [|done]. apply (Hin n nbrs). left.
    + pose proof (elem_of_edges_from _ _ _ Htail) as [Hu _]. cbn [fst] in Hu.
      unfold weight_of. cbn [PyDict.get].
      rewrite decide_False by (intros ->; done).
      apply (IH (n :: seen)); [|done].
      split; [done|]. intros n' nbrs' H'. apply (Hin n' nbrs'). by right.
Qed.

(** An edge that the adjacency holds in both directions is in the edge view
    in one of them. *)
Lemma edges_from_either a : forall (seen : list value) u v d nbrs_u nbrs_v,
  NoDup (PyDict.keys a) ->
  (u, nbrs_u) ∈ a -> (v, d) ∈ nbrs_u -> (v, nbrs_v) ∈ a -> (u, d) ∈ nbrs_v ->
  u ∉ seen -> v ∉ seen ->
  (u, v, d) ∈ nx.edges_from seen a \/ (v, u, d) ∈ nx.edges_from seen a.
Proof.
  induction a as [|[n nbrs] a IH]; intros seen u v d nbrs_u nbrs_v Hnd Hu Hvd Hv Hud Hus Hvs.
  - by apply elem_of_nil in Hu.
  - unfold PyDict.keys in Hnd. cbn [fmap list_fmap fst] in Hnd.
    apply NoDup_cons in Hnd as [Hn Hnd]. cbn [nx.edges_from].
    rewrite !elem_of_app, !list_elem_of_omap.
    apply elem_of_cons in Hu as [[= -> ->]|Hu].
    { left. left. exists (v, d). split; [done|]. by rewrite decide_False. }
    apply elem_of_cons in Hv as [[= -> ->]|Hv].
    { right. left. exists (u, d). split; [done|]. by rewrite decide_False. }
    assert (u <> n).
    { intros ->. apply Hn, list_elem_of_fmap. by exists (n, nbrs_u). }
    assert (v <> n).
    { intros ->. apply Hn, list_elem_of_fmap. by exists (n, nbrs_v). }
    destruct (IH (n :: seen) u v d nbrs_u nbrs_v) as [?|?]; try done.
    + by apply not_elem_of_cons.
    + by apply not_elem_of_cons.
    + left. by right.
    + right. by right.
Qed.

Lemma weight_of_elem a u v d :
  weight_of a u v = Some d -> exists nbrs, (u, nbrs) ∈ a /\ (v, d) ∈ nbrs.
Proof.
  unfold weight_of. destruct (PyDict.get u a) as [nbrs|] eqn:Hu.
  - change (default [] (Some ?x)) with x. intros Hv. exists nbrs. split; by apply get_Some_elem.
  - done.
Qed.

(** X11: the edges of the undirected graph. The adjacency is symmetric;
    every edge of the edge view carries the weight of an extracted edge that
    joins the same two nodes, in one direction or the other; and every
    extracted edge has its two nodes joined by an edge of the view. *)
Theorem create_weighted_undirected_graph_edges (order : set_order)
    (use_chemical_names allow_multiple_edges : bool) (w : world) graph nodes edges :
  (create_weighted_undirected_graph order use_chemical_names allow_multiple_edges w).1 =
    Return (graph, nodes) ->
  (get_edges nodes use_chemical_names allow_multiple_edges w).1 = Return edges ->
  (forall u v, weight_of (nx.adj graph) u v = weight_of (nx.adj graph) v u) /\
  (forall u v d, (u, v, d) ∈ nx.edges graph ->
                 weight_of (nx.adj graph) u v = Some d /\
                 ((u, v, d) ∈ edges \/ (v, u, d) ∈ edges)) /\
  (forall u v d, (u, v, d) ∈ edges ->
                 exists d', ((u, v, d') ∈ nx.edges graph \/ (v, u, d') ∈ nx.edges graph) /\
                            ((u, v, d') ∈ edges \/ (v, u, d') ∈ edges)).
Proof.
  intros (Hnodes & edges' & Hrun & ->)%create_weighted_undirected_graph_Return Hedges.
  assert (edges' = edges) as -> by congruence. clear Hedges.
  set (ns := if use_chemical_names then VStr <$> PyDict.keys nodes
             else VInt <$> PyDict.values nodes).
  destruct (add_nodes_from_keys ns nx.Graph_new graph_wf_new) as (Hwf0 & _ & _).
  assert (Hnone : forall u v, weight_of (nx.adj (nx.add_nodes_from ns nx.Graph_new)) u v = None).
  { intros u v. by rewrite weight_of_add_nodes_from by apply graph_wf_new. }
  destruct (weight_of_add_weighted_edges_from (order edges) _ Hwf0)
    as (Hsym & Hfrom & Hto).
  { intros u v. by rewrite !Hnone. }
  set (graph := nx.add_weighted_edges_from (order edges) _) in *.
  assert (Hadj : adj_wf (nx.adj graph)).
  { apply adj_wf_add_weighted_edges_from, adj_wf_add_nodes_from.
    split; [constructor | by intros n nbrs ?%elem_of_nil]. }
  assert (Hext : forall u v d, weight_of (nx.adj graph) u v = Some d ->
                   (u, v, d) ∈ edges \/ (v, u, d) ∈ edges).
  { intros u v d [Hold|Hin]%Hfrom; [by rewrite Hnone in Hold|].
    by rewrite !elem_of_iterate in Hin. }
  split_and!; [done| |].
  - intros u v d Hin. apply (edges_from_weight _ _ _ _ _ Hadj) in Hin.
    split; [done | by apply Hext].
  - intros u v d Hin.
    destruct (Hto u v) as [d' Hd'].
    { right. exists d. left. by apply elem_of_iterate. }
    exists d'. split; [|by apply Hext].
    pose proof Hd' as Hvu. rewrite Hsym in Hvu.
    apply weight_of_elem in Hd' as (nbrs_u & Hu & Hvd).
    apply weight_of_elem in Hvu as (nbrs_v & Hv & Hud).
    apply (edges_from_either _ [] u v d' nbrs_u nbrs_v); try done.
    + apply Hadj.
    + apply not_elem_of_nil.
    + apply not_elem_of_nil.
Qed.

Lemma create_weighted_undirected_graph_edges_witness :
  exists graph nodes edges,
    (create_weighted_undirected_graph elements_order true true
       (World df_with_steps [] [])).1 = Return (graph, nodes) /\
    (get_edges nodes true true (World df_with_steps [] [])).1 = Return edges /\
    exists d', ((VStr "oxygen", VStr "oxygen", d') ∈ nx.edges graph \/
                (VStr "oxygen", VStr "oxygen", d') ∈ nx.edges graph) /\
               ((VStr "oxygen", VStr "oxygen", d') ∈ edges \/
                (VStr "oxygen", VStr "oxygen", d') ∈ edges).
Proof.
  destruct (create_weighted_undirected_graph_total elements_order true true
              (World df_with_steps [] [])) as (graph & nodes & Hrun);
    [apply resolvable_names|].
  destruct (get_edges_total nodes true true (World df_with_steps [] [])
              (resolvable_names _ _)) as [edges Hedges].
  exists graph, nodes, edges. split; [done|]. split; [done|].
  destruct (create_weighted_undirected_graph_edges elements_order true true
              (World df_with_steps [] []) graph nodes edges Hrun Hedges) as (_ & _ & Hjoin).
  apply (Hjoin (VStr "oxygen") (VStr "oxygen") 7).
  apply (elem_of_get_edges_multi _ _ _ _ _ Hedges).
  exists ("oxygen", "oxygen", 7). split; [by_decide|].
  exists "oxygen", "oxygen". split_and!; try by_decide; reflexivity.
Defined.

(** *** The directed multigraph *)

Lemma di_add_node_elem n g m :
  m ∈ PyDict.keys (nx.di_node (nx.di_add_node n g)) <->
  m ∈ PyDict.keys (nx.di_node g) \/ m = n.
Proof.
  unfold nx.di_add_node. rewrite contains_keys. case_bool_decide as Hn.
  - split; [by left|]. by intros [?| ->].
  - cbn [nx.di_node]. rewrite keys_set, decide_False by done.
    by rewrite elem_of_app, list_elem_of_singleton.
Qed.



Lemma di_add_nodes_from_elem ns : forall g m,
  m ∈ PyDict.keys (nx.di_node (nx.di_add_nodes_from ns g)) <->
  m ∈ PyDict.keys (nx.di_node g) \/ m ∈ ns.
Proof.
  unfold nx.di_add_nodes_from. induction ns as [|n ns IH]; intros g m; cbn [foldl].
  - split; [by left|]. by intros [?|?%elem_of_nil].
  - rewrite IH, di_add_node_elem, elem_of_cons. tauto.
Qed.






(** * Properties of the preprocessing *)

Lemma is_space_lower_char c : PyStr.is_space (lower_char c) = PyStr.is_space c.
Proof. destruct c as [[] [] [] [] [] [] [] []]; reflexivity. Qed.

Lemma lower_char_idem c : lower_char (lower_char c) = lower_char c.
Proof. destruct c as [[] [] [] [] [] [] [] []]; reflexivity. Qed.

Lemma lower_char_separator c :
  (";"%char = lower_char c <-> ";"%char = c) /\ (" "%char = lower_char c <-> " "%char = c).
Proof.
  destruct c as [[] [] [] [] [] [] [] []];
    (split; split; intros H; first [reflexivity | discriminate H]).
Qed.

Lemma lower_idem s : lower (lower s) = lower s.
Proof. induction s as [|c s IH]; simpl; [done|]. by rewrite lower_char_idem, IH. Qed.

Lemma length_lower s : String.length (lower s) = String.length s.
Proof. induction s as [|c s IH]; simpl; [done|]. by rewrite IH. Qed.

Lemma lower_app s1 s2 : lower (s1 +:+ s2) = lower s1 +:+ lower s2.
Proof.
  induction s1 as [|c s1 IH]; [done|].
  change (String (lower_char c) (lower (s1 +:+ s2)) =
          String (lower_char c) (lower s1 +:+ lower s2)).
  by rewrite IH.
Qed.

Lemma lstrip_lower s : PyStr.lstrip (lower s) = lower (PyStr.lstrip s).
Proof.
  induction s as [|c s IH]; [done|]. cbn [lower PyStr.lstrip].
  rewrite is_space_lower_char. by destruct (PyStr.is_space c).
Qed.

Lemma rstrip_lower s : PyStr.rstrip (lower s) = lower (PyStr.rstrip s).
Proof.
  induction s as [|c s IH]; [done|]. cbn [lower PyStr.rstrip]. rewrite IH.
  destruct (PyStr.rstrip s) as [|c' r]; cbn [lower].
  - rewrite is_space_lower_char. by destruct (PyStr.is_space c).
  - done.
Qed.

(** Trimming and lowering commute. *)
Lemma strip_lower s : PyStr.strip (lower s) = lower (PyStr.strip s).
Proof. unfold PyStr.strip. by rewrite lstrip_lower, rstrip_lower. Qed.

Lemma rev_string_lower cur : forall acc,
  PyStr.rev_string (lower acc) (lower_char <$> cur) = lower (PyStr.rev_string acc cur).
Proof.
  induction cur as [|c cur IH]; intros acc; [done|].
  cbn [fmap list_fmap PyStr.rev_string]. apply (IH (String c acc)).
Qed.

Lemma startswith_separator_lower s :
  PyStr.startswith separator (lower s) = PyStr.startswith separator s.
Proof.
  unfold separator. destruct s as [|c [|c' s]]; [done| |].
  - cbn [lower PyStr.startswith].
    destruct (lower_char_separator c) as [Hsemi _].
    destruct (decide (";"%char = lower_char c)) as [Heq|Hne];
      destruct (decide (";"%char = c)) as [Heq'|Hne'];
      first [reflexivity | exfalso; tauto].
  - cbn [lower PyStr.startswith].
    destruct (lower_char_separator c) as [Hsemi _].
    destruct (lower_char_separator c') as [_ Hsp].
    destruct (decide (";"%char = lower_char c)) as [Heq|Hne];
      destruct (decide (";"%char = c)) as [Heq'|Hne'];
      destruct (decide (" "%char = lower_char c')) as [Heq2|Hne2];
      destruct (decide (" "%char = c')) as [Heq2'|Hne2'];
      first [reflexivity | exfalso; tauto].
Qed.

Lemma split_scan_lower s : forall skip cur,
  PyStr.split_scan separator skip (lower_char <$> cur) (lower s) =
  (fun x => lower x) <$> PyStr.split_scan separator skip cur s.
Proof.
  induction s as [|c s IH]; intros skip cur.
  - cbn [lower PyStr.split_scan fmap list_fmap]. f_equal. apply (rev_string_lower cur EmptyString).
  - change (lower (String c s)) with (String (lower_char c) (lower s)).
    cbn [PyStr.split_scan]. destruct skip as [|k]; [|apply IH].
    change (String (lower_char c) (lower s)) with (lower (String c s)).
    rewrite startswith_separator_lower.
    destruct (PyStr.startswith separator (String c s)).
    + rewrite fmap_cons. f_equal.
      * apply (rev_string_lower cur EmptyString).
      * apply (IH _ []).
    + apply (IH 0%nat (c :: cur)).
Qed.

(** Splitting and lowering commute: lowering puts no separator in and takes
    none out. *)
Lemma split_lower s :
  PyStr.split separator (lower s) = (fun x => lower x) <$> PyStr.split separator s.
Proof. apply (split_scan_lower s 0%nat []). Qed.

Lemma assign_lower_pairs (rows : list (string * string)) :
  zip (zip ((fun x => lower x) <$> rows.*1) rows.*2).*1
      ((fun x => lower x) <$> (zip ((fun x => lower x) <$> rows.*1) rows.*2).*2) =
  (fun '(x, y) => (lower x, lower y)) <$> rows.
Proof. induction rows as [|[x y] rows IH]; [done|]. cbn. f_equal. apply IH. Qed.

Lemma assign_lower_triples (rows : list (string * string * Z)) :
  zip3 (zip3 ((fun x => lower x) <$> rows.*1.*1) rows.*1.*2 rows.*2).*1.*1
       ((fun x => lower x) <$> (zip3 ((fun x => lower x) <$> rows.*1.*1) rows.*1.*2 rows.*2).*1.*2)
       (zip3 ((fun x => lower x) <$> rows.*1.*1) rows.*1.*2 rows.*2).*2 =
  (fun '(x, y, z) => (lower x, lower y, z)) <$> rows.
Proof. induction rows as [|[[x y] z] rows IH]; [done|]. cbn. f_equal. apply IH. Qed.

(** What a run of the preprocessing does. *)
Lemma preprocess_run w :
  preprocess w = (Return (lowered (table w)), World (lowered (table w)) (stdout w) (shown w)).
Proof.
  destruct w as [df out figs].
  unfold preprocess, step1_lowercase, bind, read_table, write_table.
  cbn [table stdout shown]. destruct df as [rows|rows].
  - cbn [Reactant Product assign_Reactant assign_Product lowered].
    by rewrite assign_lower_pairs.
  - cbn [Reactant Product assign_Reactant assign_Product lowered].
    by rewrite assign_lower_triples.
Qed.

Lemma weighted_rows_lowered df :
  weighted_rows (lowered df) =
  (fun '(x, y, z) => (lower x, lower y, z)) <$> weighted_rows df.
Proof.
  destruct df as [rows|rows]; cbn [lowered weighted_rows]; [|done].
  rewrite <- !list_fmap_compose. apply list_fmap_ext. by intros _ [x y] _.
Qed.

Lemma Reactant_lowered df : Reactant (lowered df) = (fun x => lower x) <$> Reactant df.
Proof.
  rewrite !Reactant_weighted_rows, weighted_rows_lowered, <- !list_fmap_compose.
  apply list_fmap_ext. by intros _ [[x y] z] _.
Qed.

Lemma Product_lowered df : Product (lowered df) = (fun x => lower x) <$> Product df.
Proof.
  rewrite !Product_weighted_rows, weighted_rows_lowered, <- !list_fmap_compose.
  apply list_fmap_ext. by intros _ [[x y] z] _.
Qed.

Lemma lowered_idem df : lowered (lowered df) = lowered df.
Proof.
  destruct df as [rows|rows]; cbn [lowered]; f_equal;
    rewrite <- list_fmap_compose; apply list_fmap_ext.
  - intros _ [x y] _. cbn. by rewrite !lower_idem.
  - intros _ [[x y] z] _. cbn. by rewrite !lower_idem.
Qed.

Lemma concat_fmap_fmap {A B} (f : A -> B) (ls : list (list A)) :
  concat ((fun l : list A => f <$> l) <$> ls) = f <$> concat ls.
Proof. induction ls as [|l ls IH]; [done|]. cbn. by rewrite fmap_app, IH. Qed.

Lemma raw_tokens_lowered df :
  raw_tokens (lowered df) = (fun x => lower x) <$> raw_tokens df.
Proof.
  unfold raw_tokens. rewrite Reactant_lowered, Product_lowered, <- fmap_app.
  rewrite <- concat_fmap_fmap, <- !list_fmap_compose. f_equal.
  apply list_fmap_ext. intros _ cell _. cbn. apply split_lower.
Qed.

Lemma chemical_names_lowered df :
  chemical_names (lowered df) = (fun x => lower x) <$> chemical_names df.
Proof.
  unfold chemical_names. rewrite raw_tokens_lowered, <- !list_fmap_compose.
  apply list_fmap_ext. intros _ tok _. cbn. apply strip_lower.
Qed.

Lemma length_first_seen_fmap {A B} `{EqDecision A} `{EqDecision B} (f : A -> B) (l : list A) :
  (length (first_seen (f <$> l)) <= length (first_seen l))%nat.
Proof.
  rewrite <- (length_fmap f (first_seen l)). apply submseteq_length, NoDup_submseteq.
  - apply NoDup_first_seen.
  - intros y (x & -> & Hx)%elem_of_first_seen%list_elem_of_fmap.
    apply list_elem_of_fmap. exists x. by rewrite elem_of_first_seen.
Qed.

Lemma string_app_empty (s : string) : s +:+ EmptyString = s.
Proof.
  induction s as [|c s IH]; [done|].
  change (String c (s +:+ EmptyString) = String c s). by rewrite IH.
Qed.

(** Trimming leaves a token as it is exactly when it leaves its lower-case
    form as it is. *)
Lemma strip_lower_fixed tok : PyStr.strip (lower tok) = lower tok <-> PyStr.strip tok = tok.
Proof.
  rewrite strip_lower. split; [|by intros ->].
  intros Heq. destruct (strip_decompose tok) as (l & r & Htok & _).
  assert (String.length (PyStr.strip tok) = String.length tok) as Hlen
    by (by rewrite <- (length_lower (PyStr.strip tok)), Heq, length_lower).
  rewrite Htok in Hlen at 2. rewrite !length_string_app in Hlen.
  destruct l as [|a l]; [|simpl in Hlen; lia].
  destruct r as [|b r]; [|simpl in Hlen; lia].
  rewrite Htok at 2. by rewrite string_app_empty.
Qed.

Lemma generated_lowered nodes df e' :
  generated nodes true (lowered df) e' <->
  exists e, generated nodes true df e /\ e' = lower_edge e.
Proof.
  unfold generated, generates, endpoint. rewrite weighted_rows_lowered. split.
  - intros (row' & ([[x y] z] & -> & Hrow)%list_elem_of_fmap & a' & b' & Ha & Hb & Hs & Ht & Hz).
    cbn [fst snd] in Ha, Hb, Hz. rewrite split_lower in Ha, Hb.
    apply list_elem_of_fmap in Ha as (a & -> & Ha).
    apply list_elem_of_fmap in Hb as (b & -> & Hb).
    exists (VStr a, VStr b, z). split.
    + exists (x, y, z). split; [done|]. by exists a, b.
    + destruct e' as [[s t] m]. cbn [fst snd] in Hs, Ht, Hz.
      injection Hs as <-. injection Ht as <-. by rewrite Hz.
  - intros (e & (row & Hrow & a & b & Ha & Hb & Hs & Ht & Hz) & ->).
    destruct row as [[x y] z]. cbn [fst snd] in Ha, Hb, Hz.
    exists (lower x, lower y, z). split.
    + apply list_elem_of_fmap. by exists (x, y, z).
    + exists (lower a), (lower b). cbn [fst snd]. rewrite !split_lower.
      destruct e as [[s t] m]. cbn [fst snd] in Hs, Ht, Hz.
      injection Hs as <-. injection Ht as <-.
      split_and!; [apply list_elem_of_fmap; by exists a
                  |apply list_elem_of_fmap; by exists b|done|done|done].
Qed.

(** X13: the preprocessing puts every cell of the two name columns of the
    caller's table in lower case and returns that very table; it leaves the
    weight column, be it there or not, the number of rows, the output and the
    figures as they are; preprocessing a preprocessed table changes
    nothing. *)
Theorem preprocess_effect (w : world) :
  let w' := (preprocess w).2 in
  (preprocess w).1 = Return (table w') /\
  Reactant (table w') = (fun x => lower x) <$> Reactant (table w) /\
  Product (table w') = (fun x => lower x) <$> Product (table w) /\
  Number_of_Reaction_Steps (table w') = Number_of_Reaction_Steps (table w) /\
  len (table w') = len (table w) /\
  stdout w' = stdout w /\ shown w' = shown w /\
  preprocess w' = (Return (table w'), w').
Proof.
  cbv zeta. rewrite !preprocess_run. cbn [fst snd table stdout shown].
  rewrite lowered_idem, Reactant_lowered, Product_lowered. split_and!; try done.
  - destruct (table w) as [rows|rows]; cbn [lowered Number_of_Reaction_Steps]; [done|].
    f_equal. rewrite <- list_fmap_compose. apply list_fmap_ext. by intros _ [[x y] z] _.
  - destruct (table w) as [rows|rows]; cbn [lowered len]; by rewrite length_fmap.
Qed.

(** X14: preprocessing and splitting commute, and so do preprocessing and
    trimming: the raw tokens of the preprocessed table are the raw tokens of
    the table in lower case, its nodes are the names of the table in lower
    case in the order of their first appearance, and there are no more of
    them than before. A token with surrounding whitespace keeps it: with the
    mapping extracted from it, index-keyed edge extraction returns on the
    preprocessed table exactly when it does on the table. *)
Theorem preprocess_names (w : world) allow_multiple_edges :
  let w' := (preprocess w).2 in
  raw_tokens (table w') = (fun x => lower x) <$> raw_tokens (table w) /\
  PyDict.keys (get_distinct_chemicals (table w')) =
    first_seen ((fun x => lower x) <$> chemical_names (table w)) /\
  (length (get_distinct_chemicals (table w')) <=
   length (get_distinct_chemicals (table w)))%nat /\
  ((exists edges, (get_edges (get_distinct_chemicals (table w')) false
                     allow_multiple_edges w').1 = Return edges) <->
   (exists edges, (get_edges (get_distinct_chemicals (table w)) false
                     allow_multiple_edges w).1 = Return edges)).
Proof.
  cbv zeta. rewrite preprocess_run. cbn [snd table]. split_and!.
  - apply raw_tokens_lowered.
  - by rewrite get_distinct_chemicals_numbered, keys_numbered, chemical_names_lowered.
  - rewrite <- !(length_fmap fst).
    change (length (PyDict.keys (get_distinct_chemicals (lowered (table w)))) <=
            length (PyDict.keys (get_distinct_chemicals (table w))))%nat.
    rewrite !get_distinct_chemicals_numbered, !keys_numbered, chemical_names_lowered.
    apply length_first_seen_fmap.
  - rewrite !get_edges_returns_iff. cbn [table]. rewrite !resolvable_index_trimmed.
    rewrite raw_tokens_lowered. split.
    + intros H tok Hin. apply strip_lower_fixed, H, list_elem_of_fmap. by exists tok.
    + intros H tok' (tok & -> & Hin)%list_elem_of_fmap. by apply strip_lower_fixed, H.
Qed.

(** X15: name-keyed edge extraction after preprocessing. Every edge of the
    preprocessed table is an edge of the table with its two names in lower
    case, and every edge of the table has its lower-case pair joined, by an
    edge that weighs no more; when parallel edges are kept the edges are
    exactly the lower-case forms of the edges of the table. *)
Theorem get_edges_after_preprocess nodes allow_multiple_edges (w : world) edges edges' :
  (get_edges nodes true allow_multiple_edges w).1 = Return edges ->
  (get_edges nodes true allow_multiple_edges (preprocess w).2).1 = Return edges' ->
  (forall e', e' ∈ edges' -> exists e, e ∈ edges /\ e' = lower_edge e) /\
  (forall e, e ∈ edges ->
     exists m, (lower_value e.1.1, lower_value e.1.2, m) ∈ edges' /\ m <= e.2) /\
  (allow_multiple_edges = true -> forall e', e' ∈ edges' <-> exists e, e ∈ edges /\ e' = lower_edge e).
Proof.
  rewrite preprocess_run. cbn [snd]. intros Hrun Hrun'.
  set (w' := World (lowered (table w)) (stdout w) (shown w)) in *.
  assert (forall e', generated nodes true (table w') e' <->
                     exists e, generated nodes true (table w) e /\ e' = lower_edge e) as Hgen
    by (intros e'; apply generated_lowered).
  destruct allow_multiple_edges.
  - assert (forall e', e' ∈ edges' <-> exists e, e ∈ edges /\ e' = lower_edge e) as Hiff.
    { intros e'. rewrite (elem_of_get_edges_multi _ _ _ _ _ Hrun'), Hgen.
      split; intros (e & He & ->); exists e; (split; [|done]);
        by apply (elem_of_get_edges_multi _ _ _ _ _ Hrun). }
    split_and!.
    + intros e'. apply Hiff.
    + intros e He. exists e.2. split; [|lia]. apply Hiff. by exists e.
    + intros _. exact Hiff.
  - split_and!; [| |done].
    + intros [[s' t'] m] Hin.
      apply (elem_of_get_edges_collapse _ _ _ _ _ _ _ Hrun') in Hin as [Hin Hmin].
      apply Hgen in Hin as ([[s t] m0] & He & Heq).
      unfold lower_edge in Heq. cbn [fst snd] in Heq. injection Heq as -> -> ->.
      exists (s, t, m0). split; [|done].
      apply (elem_of_get_edges_collapse _ _ _ _ _ _ _ Hrun). split; [done|].
      intros z Hz. apply Hmin, Hgen. by exists (s, t, z).
    + intros [[s t] z] Hin. cbn [fst snd].
      apply (get_edges_generated _ _ _ _ _ _ Hrun) in Hin.
      assert (generated nodes true (table w') (lower_value s, lower_value t, z)) as Hz
        by (apply Hgen; by exists (s, t, z)).
      destruct (get_edges_collapse_covers _ _ _ _ _ _ _ Hrun' Hz) as [m Hm].
      exists m. split; [done|].
      by apply (elem_of_get_edges_collapse _ _ _ _ _ _ _ Hrun') in Hm as [_ Hmin]; apply Hmin.
Qed.

Lemma get_edges_after_preprocess_witness :
  exists e, e ∈ ({[ (VStr "Glucose", VStr "Ethanol", 3);
                    (VStr "glucose", VStr "ETHANOL", 2) ]} : gset edge) /\
            (VStr "glucose", VStr "ethanol", 2) = lower_edge e.
Proof.
  pose (w := World (ReactionsWithSteps [("Glucose", "Ethanol", 3); ("glucose", "ETHANOL", 2)])
               [] []).
  assert ((get_edges [] true false w).1 =
          Return ({[ (VStr "Glucose", VStr "Ethanol", 3);
                     (VStr "glucose", VStr "ETHANOL", 2) ]} : gset edge)) as Hrun
    by reflexivity.
  assert ((get_edges [] true false (preprocess w).2).1 =
          Return ({[ (VStr "glucose", VStr "ethanol", 2) ]} : gset edge)) as Hrun'
    by reflexivity.
  apply (proj1 (get_edges_after_preprocess [] false w _ _ Hrun Hrun')
               (VStr "glucose", VStr "ethanol", 2)).
  by apply elem_of_singleton.
Defined.

(** * Properties of the path lengths *)

Lemma scan_row (distance : nat -> nat -> graph_property.entry) i js distances max_length :
  foldl (fun '(distances, max_length) j =>
           if bool_decide (i <> j)
           then match distance i j with
                | graph_property.Finite d =>
                    (distances ++ [d],
                     if bool_decide (d > max_length) then d else max_length)
                | graph_property.inf => (distances, max_length)
                end
           else (distances, max_length))
        (distances, max_length) js =
  let row := j ← js;
             if bool_decide (i <> j)
             then match distance i j with
                  | graph_property.Finite d => [d]
                  | graph_property.inf => []
                  end
             else [] in
  (distances ++ row, foldl Z.max max_length row).
Proof.
  cbv zeta. revert distances max_length.
  induction js as [|j js IH]; intros distances max_length.
  - cbn. by rewrite app_nil_r.
  - cbn [foldl mbind list_bind]. fold (@mbind list _).
    case_bool_decide; [destruct (distance i j) as [d|]|]; rewrite IH; cbn [app foldl].
    + rewrite <- app_assoc. cbn [app]. f_equal. f_equal.
      case_bool_decide; lia.
    + done.
    + done.
Qed.

Lemma scan_rows (distance : nat -> nat -> graph_property.entry) rows js acc :
  foldl (fun st i =>
           foldl (fun '(distances, max_length) j =>
                    if bool_decide (i <> j)
                    then match distance i j with
                         | graph_property.Finite d =>
                             (distances ++ [d],
                              if bool_decide (d > max_length) then d else max_length)
                         | graph_property.inf => (distances, max_length)
                         end
                    else (distances, max_length))
                 st js)
        (acc, foldl Z.max 0 acc) rows =
  let found := i ← rows; j ← js;
               if bool_decide (i <> j)
               then match distance i j with
                    | graph_property.Finite d => [d]
                    | graph_property.inf => []
                    end
               else [] in
  (acc ++ found, foldl Z.max 0 (acc ++ found)).
Proof.
  cbv zeta. revert acc. induction rows as [|i rows IH]; intros acc.
  - cbn. by rewrite app_nil_r.
  - cbn [foldl]. rewrite scan_row. cbv zeta. rewrite <- foldl_app, IH.
    cbn [mbind list_bind]. by rewrite app_assoc.
Qed.

(** The two loops collect the finite lengths off the diagonal and the
    largest of them. *)
Lemma scan_spec distance n :
  graph_property.scan distance n =
  (finite_lengths distance n, longest (finite_lengths distance n)).
Proof. apply (scan_rows distance (seq 0 n) (seq 0 n) []). Qed.

Lemma tally_from (counter : Z -> Z) xs x y num avg :
  foldl (fun '(x, y, num, avg) i =>
           let pom := counter i in
           (x ++ [i], y ++ [Py.Int pom], num + pom, avg + pom * i))
        (x, y, num, avg) xs =
  (x ++ xs, y ++ ((fun i => Py.Int (counter i)) <$> xs),
   num + sum_Z (counter <$> xs), avg + sum_Z ((fun i => counter i * i) <$> xs)).
Proof.
  revert x y num avg. induction xs as [|i xs IH]; intros x y num avg.
  - cbn. rewrite !app_nil_r. f_equal; [f_equal|]; lia.
  - cbn [foldl]. cbv zeta. rewrite IH, <- !app_assoc. cbn [app fmap list_fmap].
    unfold sum_Z. cbn [foldr]. f_equal; [f_equal|]; lia.
Qed.

Lemma tally_spec counter max_length :
  graph_property.tally counter max_length =
  (Py.range 1 max_length, (fun i => Py.Int (counter i)) <$> Py.range 1 max_length,
   sum_Z (counter <$> Py.range 1 max_length),
   sum_Z ((fun i => counter i * i) <$> Py.range 1 max_length)).
Proof. unfold graph_property.tally. by rewrite tally_from. Qed.

Lemma sum_Z_cons x l : sum_Z (x :: l) = x + sum_Z l.
Proof. done. Qed.

Lemma sum_Z_select (c : Z -> Z) (d : Z) xs :
  NoDup xs ->
  sum_Z ((fun i => if decide (d = i) then c i else 0) <$> xs) =
  if decide (d ∈ xs) then c d else 0.
Proof.
  induction 1 as [|i xs Hi Hnd IH]; [done|].
  rewrite fmap_cons, sum_Z_cons, IH.
  destruct (decide (d = i)) as [->|Hne].
  - rewrite decide_False by done. rewrite decide_True by (apply elem_of_cons; by left). lia.
  - destruct (decide (d ∈ xs)) as [Hin|Hout].
    + rewrite decide_True by (apply elem_of_cons; by right). lia.
    + rewrite decide_False; [lia|]. by intros [?|?]%elem_of_cons.
Qed.

Lemma sum_Z_add (f g : Z -> Z) xs :
  sum_Z ((fun i => f i + g i) <$> xs) = sum_Z (f <$> xs) + sum_Z (g <$> xs).
Proof.
  induction xs as [|i xs IH]; [done|].
  rewrite !fmap_cons, !sum_Z_cons, IH. lia.
Qed.

Lemma sum_Z_zero {A} (xs : list A) : sum_Z ((fun _ => 0) <$> xs) = 0.
Proof. induction xs as [|i xs IH]; [done|]. by rewrite fmap_cons, sum_Z_cons, IH. Qed.

(** The counts of the values of [xs] add up to the number of elements that
    are among [xs]. *)
Lemma sum_occurrences_among (ds xs : list Z) :
  NoDup xs ->
  sum_Z ((fun i => occurrences i ds) <$> xs) =
  Z.of_nat (length (filter (fun d => d ∈ xs) ds)).
Proof.
  intros Hnd. induction ds as [|d ds IH].
  - apply (sum_Z_zero xs).
  - erewrite list_fmap_ext; [|intros _ i _; apply occurrences_cons].
    rewrite (sum_Z_add (fun i => if decide (d = i) then 1 else 0)), IH.
    rewrite (sum_Z_select (fun _ => 1)) by done.
    destruct (decide (d ∈ xs)).
    + rewrite filter_cons_True by done. cbn [length]. lia.
    + rewrite filter_cons_False by done. lia.
Qed.

Lemma sum_weighted_among (ds xs : list Z) :
  NoDup xs ->
  sum_Z ((fun i => occurrences i ds * i) <$> xs) = sum_Z (filter (fun d => d ∈ xs) ds).
Proof.
  intros Hnd. induction ds as [|d ds IH].
  - apply (sum_Z_zero xs).
  - erewrite list_fmap_ext;
      [|intros _ i _; rewrite occurrences_cons, Z.mul_add_distr_r; reflexivity].
    rewrite (sum_Z_add (fun i => (if decide (d = i) then 1 else 0) * i)), IH.
    erewrite (list_fmap_ext _ (fun i => if decide (d = i) then i else 0));
      [|intros _ i _; by destruct (decide (d = i)); lia].
    rewrite (sum_Z_select (fun i => i)) by done.
    destruct (decide (d ∈ xs)).
    + rewrite filter_cons_True by done. rewrite sum_Z_cons. lia.
    + rewrite filter_cons_False by done. lia.
Qed.

Lemma elem_of_range k start stop : k ∈ Py.range start stop <-> start <= k < stop.
Proof. unfold Py.range. rewrite elem_of_seqZ. lia. Qed.

Lemma among_range_counted m ds : filter (fun d => d ∈ Py.range 1 m) ds = counted m ds.
Proof. unfold counted. apply list_filter_iff. intros d. apply elem_of_range. Qed.

Lemma range_length start (l : nat) : Py.range start (start + Z.of_nat l) = seqZ start (Z.of_nat l).
Proof. unfold Py.range. f_equal. lia. Qed.

Lemma seqZ_S start (l : nat) :
  seqZ start (Z.of_nat (S l)) = start :: seqZ (start + 1) (Z.of_nat l).
Proof. rewrite seqZ_cons by lia. f_equal. f_equal; lia. Qed.

(** The loop of the divisions, from the cell it has arrived at. *)
Lemma normalise_loop num (todo pre : list Py.number) :
  Py.for_each (graph_property.normalise num) (pre ++ todo)
    (seqZ (1 + Z.of_nat (length pre)) (Z.of_nat (length todo))) =
  if decide (num = 0)
  then match todo with
       | [] => Py.Return pre
       | _ :: _ => Py.Raise Py.ZeroDivisionError
       end
  else Py.Return (pre ++ ((fun pom => Py.Div pom (Py.Int num)) <$> todo)).
Proof.
  revert pre. induction todo as [|pom todo IH]; intros pre.
  - cbn. rewrite app_nil_r. by destruct (decide (num = 0)).
  - change (length (pom :: todo)) with (S (length todo)).
    rewrite seqZ_S. cbn [Py.for_each]. unfold graph_property.normalise at 1.
    replace (Z.to_nat (1 + Z.of_nat (length pre) - 1)) with (length pre) by lia.
    rewrite list_lookup_middle by done. unfold Py.truediv.
    destruct (decide (num = 0)) as [Hz|Hnz]; [done|]. cbn [Py.bind].
    rewrite insert_app_r_alt by lia. rewrite Nat.sub_diag. cbn [insert list_insert].
    rewrite (cons_middle _ pre todo), app_assoc.
    specialize (IH (pre ++ [Py.Div pom (Py.Int num)])).
    rewrite length_app in IH. cbn [length] in IH.
    replace (1 + Z.of_nat (length pre + 1)) with (1 + Z.of_nat (length pre) + 1) in IH by lia.
    rewrite IH. by rewrite <- app_assoc.
Qed.

Lemma range_from_1 m : Py.range 1 m = seqZ 1 (Z.of_nat (length (Py.range 1 m))).
Proof. unfold Py.range. rewrite length_seqZ. unfold seqZ. by rewrite Nat2Z.id. Qed.

Lemma longest_from m ds :
  m <= foldl Z.max m ds /\ (forall d, d ∈ ds -> d <= foldl Z.max m ds) /\
  (foldl Z.max m ds = m \/ foldl Z.max m ds ∈ ds).
Proof.
  revert m. induction ds as [|d ds IH]; intros m; cbn [foldl].
  - split_and!; [lia| |by left]. by intros d ?%elem_of_nil.
  - destruct (IH (Z.max m d)) as (Hle & Hall & Hin). split_and!.
    + lia.
    + intros d' [->|Hd']%elem_of_cons; [lia|by apply Hall].
    + destruct Hin as [Heq|Hin].
      * destruct (decide (m <= d)).
        -- right. rewrite Heq. replace (Z.max m d) with d by lia. by left.
        -- left. lia.
      * right. by right.
Qed.

(** The largest length is no less than any, is not negative and, when
    positive, is one of the lengths. *)
Lemma longest_spec ds :
  0 <= longest ds /\ (forall d, d ∈ ds -> d <= longest ds) /\
  (longest ds = 0 \/ longest ds ∈ ds).
Proof. apply longest_from. Qed.

(** The result of the function in terms of the lengths. *)
Lemma average_shortest_path_run distance n :
  graph_property.average_shortest_path distance n =
  let ds := finite_lengths distance n in
  let m := longest ds in
  let num := Z.of_nat (length (counted m ds)) in
  if decide (num = 0)
  then Py.Raise Py.ZeroDivisionError
  else Py.Return
         (Py.range 1 m,
          (fun i => Py.Div (Py.Int (occurrences i ds)) (Py.Int num)) <$> Py.range 1 m,
          Py.Div (Py.Int (sum_Z (counted m ds))) (Py.Int num)).
Proof.
  unfold graph_property.average_shortest_path. rewrite scan_spec, tally_spec. cbv zeta.
  assert (NoDup (Py.range 1 (longest (finite_lengths distance n)))) as Hnd
    by apply NoDup_seqZ.
  rewrite (sum_occurrences_among _ _ Hnd), (sum_weighted_among _ _ Hnd), !among_range_counted.
  set (ds := finite_lengths distance n). set (m := longest ds).
  set (num := Z.of_nat (length (counted m ds))).
  pose proof (normalise_loop num ((fun i => Py.Int (occurrences i ds)) <$> Py.range 1 m) [])
    as Hloop.
  rewrite length_fmap, <- range_from_1 in Hloop. cbn [app length] in Hloop.
  change (1 + Z.of_nat 0) with 1 in Hloop. rewrite Hloop. unfold Py.truediv.
  destruct (decide (num = 0)) as [Hz|Hnz].
  - by destruct (_ <$> Py.range 1 m).
  - cbn [Py.bind]. by rewrite <- list_fmap_compose.
Qed.

Lemma elem_of_finite_lengths distance n d :
  d ∈ finite_lengths distance n <->
  exists i j, (i < n)%nat /\ (j < n)%nat /\ i <> j /\ distance i j = graph_property.Finite d.
Proof.
  unfold finite_lengths. rewrite list_elem_of_bind. setoid_rewrite list_elem_of_bind.
  setoid_rewrite elem_of_seq. split.
  - intros (i & (j & Hd & Hj) & Hi). exists i, j.
    case_bool_decide; [|by apply elem_of_nil in Hd].
    destruct (distance i j) as [d'|]; [|by apply elem_of_nil in Hd].
    apply list_elem_of_singleton in Hd as ->. split_and!; [lia|lia|done|done].
  - intros (i & j & Hi & Hj & Hne & Hd). exists i. split; [|lia].
    exists j. split; [|lia]. rewrite bool_decide_true by done. rewrite Hd.
    by apply list_elem_of_singleton.
Qed.

(** The counted lengths are none exactly when the positive lengths are all
    the same. *)
Lemma counted_nil ds :
  counted (longest ds) ds = [] <->
  forall d d', d ∈ ds -> d' ∈ ds -> 1 <= d -> 1 <= d' -> d = d'.
Proof.
  destruct (longest_spec ds) as (Hpos & Hall & Hin). unfold counted. split.
  - intros Hnil d d' Hd Hd' H1 H1'.
    assert (forall k, k ∈ ds -> 1 <= k -> k = longest ds) as Htop.
    { intros k Hk Hk1. pose proof (Hall k Hk) as Hle.
      destruct (decide (k = longest ds)) as [|Hne]; [done|]. exfalso.
      assert (k ∈ filter (fun d => 1 <= d < longest ds) ds) as Hf
        by (apply list_elem_of_filter; split; [lia|done]).
      rewrite Hnil in Hf. by apply elem_of_nil in Hf. }
    by rewrite (Htop d), (Htop d').
  - intros Hsame. apply elem_of_nil_inv. intros k [Hk Hkin]%list_elem_of_filter.
    destruct Hin as [Hz|Hin]; [lia|].
    specialize (Hsame k (longest ds) Hkin Hin). lia.
Qed.

(** X16: the only exception of the average shortest path length is that of
    the division by zero, and it is raised exactly when the positive finite
    lengths off the diagonal of the matrix are all the same: so on a graph
    without a path, and on one whose paths all have one length. *)
Theorem average_shortest_path_ZeroDivisionError distance n :
  (graph_property.average_shortest_path distance n = Py.Raise Py.ZeroDivisionError <->
   forall i j i' j' d d',
     (i < n)%nat -> (j < n)%nat -> i <> j ->
     (i' < n)%nat -> (j' < n)%nat -> i' <> j' ->
     distance i j = graph_property.Finite d ->
     distance i' j' = graph_property.Finite d' ->
     1 <= d -> 1 <= d' -> d = d') /\
  (forall e, graph_property.average_shortest_path distance n = Py.Raise e ->
             e = Py.ZeroDivisionError).
Proof.
  rewrite average_shortest_path_run. cbv zeta. split.
  - transitivity (counted (longest (finite_lengths distance n)) (finite_lengths distance n) = []).
    + destruct (counted _ _) as [|k ks] eqn:Hc.
      * by rewrite decide_True by done.
      * rewrite decide_False by (cbn [length]; lia). done.
    + rewrite counted_nil. split.
      * intros Hsame i j i' j' d d' Hi Hj Hne Hi' Hj' Hne' Hd Hd'.
        apply Hsame; apply elem_of_finite_lengths; eauto 10.
      * intros Hsame d d' (i & j & Hi & Hj & Hne & Hd)%elem_of_finite_lengths
          (i' & j' & Hi' & Hj' & Hne' & Hd')%elem_of_finite_lengths.
        by apply (Hsame i j i' j').
  - intros e. destruct (decide _); [|done]. by intros [= <-].
Qed.

(** X17: what the average shortest path length returns. The lengths listed
    run from 1 to one below the largest finite length; each comes with the
    number of pairs of nodes at that length over the number of pairs at a
    listed length, and the average is the sum of the listed lengths of the
    pairs over their number. The pairs at the largest length, which exist,
    are neither listed nor counted. *)
Theorem average_shortest_path_result distance n x y avg :
  graph_property.average_shortest_path distance n = Py.Return (x, y, avg) ->
  let ds := finite_lengths distance n in
  let m := longest ds in
  let num := Z.of_nat (length (counted m ds)) in
  x = Py.range 1 m /\
  y = (fun i => Py.Div (Py.Int (occurrences i ds)) (Py.Int num)) <$> x /\
  avg = Py.Div (Py.Int (sum_Z (counted m ds))) (Py.Int num) /\
  0 < num /\ m ∈ ds /\ (m ∉ x) /\ (m ∉ counted m ds).
Proof.
  rewrite average_shortest_path_run. cbv zeta.
  set (ds := finite_lengths distance n). set (m := longest ds).
  destruct (decide _) as [|Hnum]; [done|]. intros [= <- <- <-].
  destruct (longest_spec ds) as (Hpos & Hall & Hin). fold m in Hpos, Hall, Hin.
  split_and!; [done|done|done|lia| | |].
  - destruct Hin as [Hz|Hin]; [|done]. exfalso. apply Hnum.
    unfold counted. rewrite Hz.
    replace (filter (fun d => 1 <= d < 0) ds) with (@nil Z); [done|].
    symmetry. apply elem_of_nil_inv. intros k [Hk _]%list_elem_of_filter. lia.
  - rewrite elem_of_range. lia.
  - unfold counted. rewrite list_elem_of_filter. lia.
Qed.

Lemma average_shortest_path_result_witness :
  [1] = Py.range 1 (longest (finite_lengths chain_distance 3)).
Proof.
  apply (average_shortest_path_result chain_distance 3 [1]
           [Py.Div (Py.Int 2) (Py.Int 2)] (Py.Div (Py.Int 2) (Py.Int 2))).
  reflexivity.
Defined.

(** * Properties of the cluster rating *)

Lemma enumerate_snoc {A} (l : list A) (x : A) :
  graph_clusters.enumerate (l ++ [x]) =
  graph_clusters.enumerate l ++ [(Z.of_nat (length l), x)].
Proof.
  unfold graph_clusters.enumerate. rewrite imap_app. cbn [imap]. by rewrite Nat.add_0_r.
Qed.

Lemma community_of_snoc communities community node :
  community_of (communities ++ [community]) node =
  if decide (node ∈ community) then Some (Z.of_nat (length communities))
  else community_of communities node.
Proof.
  unfold community_of, listing. rewrite enumerate_snoc, omap_app. cbn [omap list_omap].
  destruct (decide (node ∈ community)).
  - by rewrite last_snoc.
  - by rewrite app_nil_r.
Qed.

Lemma community_of_nil node : community_of [] node = None.
Proof. done. Qed.

(** A community index is the index of a community that lists the node. *)
Lemma community_of_Some communities node i :
  community_of communities node = Some i ->
  0 <= i < Z.of_nat (length communities) /\
  exists community, communities !! Z.to_nat i = Some community /\ node ∈ community.
Proof.
  induction communities as [|community communities IH] using rev_ind; [done|].
  rewrite community_of_snoc, length_app. cbn [length].
  destruct (decide (node ∈ community)) as [Hin|Hout].
  - intros [= <-]. split; [lia|]. exists community. split; [|done].
    rewrite Nat2Z.id. by apply list_lookup_middle.
  - intros (Hi & c & Hc & Hn)%IH. split; [lia|]. exists c. split; [|done].
    by apply lookup_app_l_Some.
Qed.

(** A node has no community exactly when no community lists it. *)
Lemma community_of_None communities node :
  community_of communities node = None <->
  forall community, community ∈ communities -> node ∉ community.
Proof.
  induction communities as [|community communities IH] using rev_ind.
  - split; [|done]. by intros _ c ?%elem_of_nil.
  - rewrite community_of_snoc. setoid_rewrite elem_of_app.
    setoid_rewrite list_elem_of_singleton.
    destruct (decide (node ∈ community)) as [Hin|Hout].
    + split; [done|]. intros H. destruct (H community); [by right | done].
    + rewrite IH. split.
      * intros H c [Hc| ->]; [by apply H | done].
      * intros H c Hc. apply H. by left.
Qed.

Lemma assign_node_community (community : list value) (i : Z) node_community node :
  PyDict.get node
    (foldl (fun node_community node => PyDict.set node i node_community)
           node_community community) =
  if decide (node ∈ community) then Some i else PyDict.get node node_community.
Proof.
  revert node_community. induction community as [|n community IH]; intros node_community.
  - cbn [foldl]. rewrite decide_False; [done|]. apply not_elem_of_nil.
  - cbn [foldl]. rewrite IH, get_set.
    destruct (decide (node ∈ community)) as [Hin|Hout].
    + rewrite decide_True; [done|]. by right.
    + destruct (decide (n = node)) as [->|Hne].
      * rewrite decide_True; [done|]. by left.
      * rewrite decide_False; [done|]. by intros [?|?]%elem_of_cons.
Qed.

(** What the first loop leaves: the community of every node, and a zero
    count for every index of a community. *)
Lemma assign_spec communities :
  let '(node_community, intra_edges, inter_edges) := graph_clusters.assign communities in
  (forall node, PyDict.get node node_community = community_of communities node) /\
  (forall i, 0 <= i < Z.of_nat (length communities) ->
             PyDict.get (VInt i) intra_edges = Some 0) /\
  (forall i, 0 <= i < Z.of_nat (length communities) ->
             PyDict.get (VInt i) inter_edges = Some 0).
Proof.
  unfold graph_clusters.assign.
  induction communities as [|community communities IH] using rev_ind.
  - cbn. split_and!; [done|intros; lia|intros; lia].
  - rewrite enumerate_snoc, foldl_app. cbn [foldl].
    destruct (foldl _ _ (graph_clusters.enumerate communities))
      as [[node_community intra_edges] inter_edges].
    destruct IH as (Hnc & Hintra & Hinter). rewrite length_app. cbn [length]. split_and!.
    + intros node. by rewrite assign_node_community, community_of_snoc, Hnc.
    + intros i Hi. rewrite get_set.
      destruct (decide (VInt (Z.of_nat (length communities)) = VInt i)); [done|].
      apply Hintra. assert (i <> Z.of_nat (length communities)) by congruence. lia.
    + intros i Hi. rewrite get_set.
      destruct (decide (VInt (Z.of_nat (length communities)) = VInt i)); [done|].
      apply Hinter. assert (i <> Z.of_nat (length communities)) by congruence. lia.
Qed.

Lemma getitem_Some {V} (k : value) (d : dict value V) v :
  PyDict.get k d = Some v -> Py.getitem k d = Py.Return v.
Proof. unfold Py.getitem. by intros ->. Qed.

Lemma getitem_None {V} (k : value) (d : dict value V) :
  PyDict.get k d = None -> Py.getitem k d = Py.Raise (Py.KeyError k).
Proof. unfold Py.getitem. by intros ->. Qed.

Lemma VInt_eq_iff i j : VInt i = VInt j <-> i = j.
Proof. split; [by intros [=] | by intros ->]. Qed.

Section count_edges.
Variable node_community : dict value Z.
Variable cin : value -> option Z.
Variable bound : Z.
Hypothesis node_community_cin : forall node, PyDict.get node node_community = cin node.
Hypothesis cin_bound : forall node i, cin node = Some i -> 0 <= i < bound.

Lemma count_edge_step intra_edges inter_edges fa fb e :
  counts bound intra_edges fa -> counts bound inter_edges fb ->
  is_Some (cin e.1) -> is_Some (cin e.2) ->
  exists intra_edges' inter_edges',
    graph_clusters.count_edge node_community (intra_edges, inter_edges) e =
      Py.Return (intra_edges', inter_edges') /\
    counts bound intra_edges' (fun i => fa i + if decide (inside cin i e) then 1 else 0) /\
    counts bound inter_edges' (fun i => fb i + if decide (across cin i e) then 1 else 0).
Proof.
  unfold counts. intros Hintra Hinter [c1 H1] [c2 H2].
  pose proof (cin_bound _ _ H1) as Hc1. pose proof (cin_bound _ _ H2) as Hc2.
  assert (forall i, inside cin i e <-> c1 = i /\ c2 = i) as Hinside.
  { intros i. unfold inside. rewrite H1, H2. split; intros [Ha Hb]; split; congruence. }
  assert (forall i, across cin i e <-> c1 <> c2 /\ (c1 = i \/ c2 = i)) as Hacross.
  { intros i. unfold across. rewrite H1, H2. split.
    - intros [Hne [Ha|Hb]]; (split; [congruence|]); [left | right]; congruence.
    - intros [Hne [Ha|Hb]]; (split; [congruence|]); [left | right]; congruence. }
  unfold graph_clusters.count_edge.
  rewrite (getitem_Some _ _ c1) by (by rewrite node_community_cin). cbn [Py.bind].
  rewrite (getitem_Some _ _ c2) by (by rewrite node_community_cin). cbn [Py.bind].
  destruct (decide (c1 = c2)) as [<-|Hne].
  - rewrite (getitem_Some _ _ _ (Hintra c1 Hc1)). cbn [Py.bind].
    eexists _, _. split; [reflexivity|]. split; intros i Hi.
    + rewrite get_set. destruct (decide (VInt c1 = VInt i)) as [Heq|Hni].
      * apply VInt_eq_iff in Heq as <-. rewrite decide_True by (by apply Hinside). done.
      * rewrite decide_False by (intros [<- _]%Hinside; by apply Hni).
        rewrite Hintra by done. f_equal. lia.
    + rewrite decide_False by (intros [? _]%Hacross; done).
      rewrite Hinter by done. f_equal. lia.
  - rewrite (getitem_Some _ _ _ (Hinter c1 Hc1)). cbn [Py.bind]. cbv zeta.
    rewrite (getitem_Some _ _ (fb c2)); cycle 1.
    { rewrite get_set_ne by (by intros ?%VInt_eq_iff). by apply Hinter. }
    cbn [Py.bind]. eexists _, _. split; [reflexivity|]. split; intros i Hi.
    + rewrite decide_False by (intros [? ?]%Hinside; congruence).
      rewrite Hintra by done. f_equal. lia.
    + rewrite !get_set.
      destruct (decide (VInt c2 = VInt i)) as [Heq|Hni2].
      * apply VInt_eq_iff in Heq as <-.
        rewrite decide_True by (apply Hacross; split; [done | by right]). done.
      * destruct (decide (VInt c1 = VInt i)) as [Heq|Hni1].
        -- apply VInt_eq_iff in Heq as <-.
           rewrite decide_True by (apply Hacross; split; [done | by left]). done.
        -- rewrite decide_False; cycle 1.
           { intros [_ [<-|<-]]%Hacross; first [by apply Hni1 | by apply Hni2]. }
           rewrite Hinter by done. f_equal. lia.
Qed.

(** The loop over edges whose endpoints all have a community adds, for every
    community, the edges inside it and the edges across its border. *)
Lemma count_edges_covered edges : forall intra_edges inter_edges fa fb,
  counts bound intra_edges fa -> counts bound inter_edges fb ->
  (forall e, e ∈ edges -> is_Some (cin e.1) /\ is_Some (cin e.2)) ->
  exists intra_edges' inter_edges',
    Py.for_each (graph_clusters.count_edge node_community) (intra_edges, inter_edges) edges =
      Py.Return (intra_edges', inter_edges') /\
    counts bound intra_edges' (fun i => fa i + Z.of_nat (length (filter (inside cin i) edges))) /\
    counts bound inter_edges' (fun i => fb i + Z.of_nat (length (filter (across cin i) edges))).
Proof.
  induction edges as [|e edges IH]; intros intra_edges inter_edges fa fb Hintra Hinter Hcov.
  - exists intra_edges, inter_edges. split; [done|].
    split; intros i Hi; cbn; rewrite Z.add_0_r; [by apply Hintra | by apply Hinter].
  - destruct (Hcov e) as [He1 He2]; [by left|].
    destruct (count_edge_step _ _ _ _ e Hintra Hinter He1 He2)
      as (intra1 & inter1 & Hstep & Hintra1 & Hinter1).
    destruct (IH intra1 inter1 _ _ Hintra1 Hinter1) as (intra2 & inter2 & Hrun & Hintra2 & Hinter2).
    { intros e' He'. apply Hcov. by right. }
    exists intra2, inter2. cbn [Py.for_each]. rewrite Hstep. cbn [Py.bind].
    split; [done|]. split; intros i Hi.
    + rewrite Hintra2 by done. f_equal.
      destruct (decide (inside cin i e)).
      * rewrite filter_cons_True by done. cbn [length]. lia.
      * rewrite filter_cons_False by done. lia.
    + rewrite Hinter2 by done. f_equal.
      destruct (decide (across cin i e)).
      * rewrite filter_cons_True by done. cbn [length]. lia.
      * rewrite filter_cons_False by done. lia.
Qed.

(** An endpoint without a community stops the loop, the source of the edge
    being looked up before its target. *)
Lemma count_edge_missing intra_edges inter_edges e :
  ~ (is_Some (cin e.1) /\ is_Some (cin e.2)) ->
  graph_clusters.count_edge node_community (intra_edges, inter_edges) e =
  Py.Raise (Py.KeyError (if decide (cin e.1 = None) then e.1 else e.2)).
Proof.
  intros Hmiss. unfold graph_clusters.count_edge.
  destruct (cin e.1) as [c1|] eqn:H1.
  - rewrite (getitem_Some _ _ c1) by (by rewrite node_community_cin). cbn [Py.bind].
    destruct (cin e.2) as [c2|] eqn:H2.
    + destruct Hmiss. by split.
    + rewrite getitem_None by (by rewrite node_community_cin). done.
  - rewrite getitem_None by (by rewrite node_community_cin). done.
Qed.
End count_edges.

Lemma for_each_app {A S} (body : S -> A -> Py.outcome S) l1 l2 st :
  Py.for_each body st (l1 ++ l2) =
  Py.bind (Py.for_each body st l1) (fun st' => Py.for_each body st' l2).
Proof.
  revert st. induction l1 as [|x l1 IH]; intros st; [done|].
  cbn [app Py.for_each]. destruct (body st x) as [st'|e]; cbn [Py.bind]; [apply IH | done].
Qed.

Lemma enumerate_fst {A} (l : list A) :
  (graph_clusters.enumerate l).*1 = seqZ 0 (Z.of_nat (length l)).
Proof.
  induction l as [|x l IH] using rev_ind; [done|].
  rewrite enumerate_snoc, fmap_app, IH, length_app. cbn [length fmap list_fmap fst].
  rewrite Nat2Z.inj_add, seqZ_app by lia. done.
Qed.

(** The loop of the ratings stops at the first community without an edge
    across its border. *)
Lemma rate_loop bound intra_edges inter_edges fa fb (its : list (Z * list value)) :
  counts bound intra_edges fa -> counts bound inter_edges fb ->
  forall result,
  (forall it, it ∈ its -> 0 <= it.1 < bound) ->
  Py.for_each (graph_clusters.rate intra_edges inter_edges) result its =
  if decide (Forall (fun i => fb i <> 0) its.*1)
  then Py.Return
         (foldl (fun result i =>
                   Py.Add result (Py.Div (Py.Mul (Py.Float 2) (Py.Int (fa i))) (Py.Int (fb i))))
                result its.*1)
  else Py.Raise Py.ZeroDivisionError.
Proof.
  intros Hintra Hinter. induction its as [|[i community] its IH]; intros result Hrange.
  - cbn. by rewrite decide_True by constructor.
  - assert (0 <= i < bound) as Hi by (apply (Hrange (i, community)); by left).
    cbn [Py.for_each fmap list_fmap fst]. unfold graph_clusters.rate at 1.
    rewrite (getitem_Some _ _ _ (Hintra i Hi)). cbn [Py.bind].
    rewrite (getitem_Some _ _ _ (Hinter i Hi)). cbn [Py.bind].
    unfold Py.truediv. destruct (decide (fb i = 0)) as [Hz|Hnz]; cbn [Py.bind].
    + rewrite decide_False; [done|]. by intros [? _]%Forall_cons.
    + rewrite IH by (intros it Hit; apply Hrange; by right). cbn [foldl].
      destruct (decide (Forall _ its.*1)) as [Hall|Hnall].
      * rewrite decide_True by (by constructor). done.
      * rewrite decide_False; [done|]. by intros [_ ?]%Forall_cons.
Qed.

Lemma covered_cons communities e edges :
  covered communities (e :: edges) <->
  (is_Some (community_of communities e.1) /\ is_Some (community_of communities e.2)) /\
  covered communities edges.
Proof.
  unfold covered. split.
  - intros H. split; [apply H; by left|]. intros e' He'. apply H. by right.
  - intros [He H] e' [->|He']%elem_of_cons; [done | by apply H].
Qed.

(** Either every endpoint has a community, or there is a first edge with an
    endpoint that has none. *)
Lemma first_uncovered communities edges :
  covered communities edges \/
  exists pre e post,
    edges = pre ++ e :: post /\ covered communities pre /\
    ~ (is_Some (community_of communities e.1) /\ is_Some (community_of communities e.2)).
Proof.
  induction edges as [|e edges IH].
  - left. by intros e ?%elem_of_nil.
  - destruct (decide (is_Some (community_of communities e.1) /\
                      is_Some (community_of communities e.2))) as [He|He].
    + destruct IH as [Hcov|(pre & e' & post & -> & Hpre & He')].
      * left. by apply covered_cons.
      * right. exists (e :: pre), e', post. split_and!; [done| |done].
        by apply covered_cons.
    + right. exists [], e, edges. split_and!; [done| |done]. by intros e' ?%elem_of_nil.
Qed.

(** The function on communities that cover the endpoints of the edges. *)
Lemma calculate_cluster_performance_covered communities edges :
  length communities <> 1%nat -> covered communities edges ->
  graph_clusters.calculate_cluster_performance communities edges =
  if decide (communities <> [] /\
             Forall (fun i => inter_count communities edges i <> 0)
                    (seqZ 0 (Z.of_nat (length communities))))
  then Py.Return (Py.Div (ratings communities edges) (Py.Int (Z.of_nat (length communities))))
  else Py.Raise Py.ZeroDivisionError.
Proof.
  intros Hlen Hcov. unfold graph_clusters.calculate_cluster_performance.
  rewrite decide_False by done.
  pose proof (assign_spec communities) as Hassign.
  destruct (graph_clusters.assign communities) as [[node_community intra_edges] inter_edges].
  destruct Hassign as (Hnc & Hintra & Hinter).
  destruct (count_edges_covered node_community (community_of communities)
              (Z.of_nat (length communities)) Hnc
              (fun node i H => proj1 (community_of_Some _ _ _ H))
              edges intra_edges inter_edges (fun _ => 0) (fun _ => 0) Hintra Hinter Hcov)
    as (intra' & inter' & -> & Hintra' & Hinter').
  cbn [Py.bind fst snd].
  rewrite (rate_loop _ _ _ _ _ _ Hintra' Hinter'); cycle 1.
  { intros it Hit. assert (it.1 ∈ (graph_clusters.enumerate communities).*1) as Hin
      by (apply list_elem_of_fmap; by exists it).
    rewrite enumerate_fst, elem_of_seqZ in Hin. lia. }
  rewrite enumerate_fst. unfold Py.truediv.
  change (fun i => 0 + Z.of_nat (length (filter (across (community_of communities) i) edges)))
    with (inter_count communities edges).
  change (fun i => 0 + Z.of_nat (length (filter (inside (community_of communities) i) edges)))
    with (intra_count communities edges).
  fold (ratings communities edges).
  destruct (decide (Forall _ (seqZ 0 _))) as [Hall|Hnall]; cbn [Py.bind].
  - destruct communities as [|c cs].
    + rewrite decide_True by done. rewrite decide_False by tauto. done.
    + rewrite decide_False by (cbn [length]; lia). by rewrite decide_True.
  - rewrite decide_False by tauto. done.
Qed.

(** The function on edges of which one has an endpoint without a community. *)
Lemma calculate_cluster_performance_missing communities pre e post :
  length communities <> 1%nat -> covered communities pre ->
  ~ (is_Some (community_of communities e.1) /\ is_Some (community_of communities e.2)) ->
  graph_clusters.calculate_cluster_performance communities (pre ++ e :: post) =
  Py.Raise (Py.KeyError (if decide (community_of communities e.1 = None) then e.1 else e.2)).
Proof.
  intros Hlen Hcov Hmiss. unfold graph_clusters.calculate_cluster_performance.
  rewrite decide_False by done.
  pose proof (assign_spec communities) as Hassign.
  destruct (graph_clusters.assign communities) as [[node_community intra_edges] inter_edges].
  destruct Hassign as (Hnc & Hintra & Hinter).
  destruct (count_edges_covered node_community (community_of communities)
              (Z.of_nat (length communities)) Hnc
              (fun node i H => proj1 (community_of_Some _ _ _ H))
              pre intra_edges inter_edges (fun _ => 0) (fun _ => 0) Hintra Hinter Hcov)
    as (intra' & inter' & Hpre & _).
  rewrite for_each_app, Hpre. cbn [Py.bind Py.for_each].
  by rewrite (count_edge_missing node_community (community_of communities) Hnc _ _ _ Hmiss).
Qed.

Lemma Forall_seqZ_range (P : Z -> Prop) n :
  Forall P (seqZ 0 n) <-> forall i, 0 <= i < n -> P i.
Proof.
  rewrite Forall_forall. split.
  - intros H i Hi. apply H, elem_of_seqZ. lia.
  - intros H i Hi%elem_of_seqZ. apply H. lia.
Qed.

(** X18: the value of the cluster rating. One community gives -1, whatever
    the edges. Otherwise the function returns exactly when there is a
    community, every endpoint of an edge is listed by a community and every
    community has an edge across its border; it then returns the sum, over
    the communities in their order, of twice the number of edges inside the
    community over the number of edges across its border, divided by the
    number of communities, a node that several communities list counting
    for the last of them. *)
Theorem calculate_cluster_performance_value communities edges :
  (length communities = 1%nat ->
   graph_clusters.calculate_cluster_performance communities edges = Py.Return (Py.Int (-1))) /\
  (length communities <> 1%nat ->
   forall r,
     graph_clusters.calculate_cluster_performance communities edges = Py.Return r <->
     communities <> [] /\ covered communities edges /\
     (forall i, 0 <= i < Z.of_nat (length communities) ->
                inter_count communities edges i <> 0) /\
     r = Py.Div (ratings communities edges) (Py.Int (Z.of_nat (length communities)))).
Proof.
  split.
  - intros Hlen. unfold graph_clusters.calculate_cluster_performance.
    by rewrite decide_True by done.
  - intros Hlen r. destruct (first_uncovered communities edges)
      as [Hcov|(pre & e & post & -> & Hpre & He)].
    + rewrite (calculate_cluster_performance_covered _ _ Hlen Hcov).
      pose proof (Forall_seqZ_range (fun i => inter_count communities edges i <> 0)
                    (Z.of_nat (length communities))) as Hrange.
      destruct (decide _) as [[Hne Hall]|Hno].
      * split; [intros [= <-]; split_and!; [done|done|by apply Hrange|done]|].
        by intros (_ & _ & _ & ->).
      * split; [done|]. intros (? & _ & ? & _). destruct Hno. split; [done | by apply Hrange].
    + rewrite (calculate_cluster_performance_missing _ _ _ _ Hlen Hpre He).
      split; [done|]. intros (_ & Hcov & _). destruct He. apply Hcov.
      apply elem_of_app. right. by left.
Qed.

Lemma calculate_cluster_performance_value_witness :
  graph_clusters.calculate_cluster_performance
    [[VStr "a"; VStr "b"]; [VStr "c"]] [(VStr "a", VStr "b"); (VStr "b", VStr "c")] =
  Py.Return
    (Py.Div (Py.Add (Py.Add (Py.Int 0)
                            (Py.Div (Py.Mul (Py.Float 2) (Py.Int 1)) (Py.Int 1)))
                    (Py.Div (Py.Mul (Py.Float 2) (Py.Int 0)) (Py.Int 1)))
            (Py.Int 2)).
Proof.
  apply (proj2 (calculate_cluster_performance_value
                  [[VStr "a"; VStr "b"]; [VStr "c"]]
                  [(VStr "a", VStr "b"); (VStr "b", VStr "c")])).
  - cbn [length]. lia.
  - split_and!.
    + done.
    + intros e He. repeat (apply elem_of_cons in He as [->|He]); [..|by apply elem_of_nil in He];
        split; vm_compute; by eexists.
    + intros i Hi. cbn [length] in Hi.
      assert (i = 0 \/ i = 1) as [->| ->] by lia; vm_compute; discriminate.
    + vm_compute. reflexivity.
Defined.

(** X19: the exceptions of the cluster rating, for communities other than
    one. A [KeyError] is raised exactly for the first endpoint, in the order
    of the edges and source before target, that no community lists; it comes
    before any division. A division by zero is raised exactly when every
    endpoint is listed and either there is no community or some community has
    no edge across its border. No index is out of range. *)
Theorem calculate_cluster_performance_raises communities edges :
  length communities <> 1%nat ->
  (forall k,
     graph_clusters.calculate_cluster_performance communities edges =
       Py.Raise (Py.KeyError k) <->
     exists pre e post,
       edges = pre ++ e :: post /\ covered communities pre /\
       (community_of communities e.1 = None /\ k = e.1 \/
        is_Some (community_of communities e.1) /\
        community_of communities e.2 = None /\ k = e.2)) /\
  (graph_clusters.calculate_cluster_performance communities edges =
     Py.Raise Py.ZeroDivisionError <->
   covered communities edges /\
   (communities = [] \/
    exists i, 0 <= i < Z.of_nat (length communities) /\
              inter_count communities edges i = 0)) /\
  graph_clusters.calculate_cluster_performance communities edges <> Py.Raise Py.IndexError.
Proof.
  intros Hlen.
  assert (forall pre e post pre' e' post',
            pre ++ e :: post = pre' ++ e' :: post' ->
            covered communities pre -> covered communities pre' ->
            ~ (is_Some (community_of communities e.1) /\
               is_Some (community_of communities e.2)) ->
            ~ (is_Some (community_of communities e'.1) /\
               is_Some (community_of communities e'.2)) ->
            e = e') as Hfirst.
  { intros pre. induction pre as [|x pre IH]; intros e post pre' e' post' Heq Hc Hc' He He'.
    - destruct pre' as [|x' pre']; [by injection Heq|].
      injection Heq as <- _. destruct He. apply Hc'. by left.
    - destruct pre' as [|x' pre'].
      + injection Heq as -> _. destruct He'. apply Hc. by left.
      + injection Heq as <- Heq. apply (IH _ _ _ _ _ Heq); [|  |done|done].
        * by apply covered_cons in Hc as [_ ?].
        * by apply covered_cons in Hc' as [_ ?]. }
  destruct (first_uncovered communities edges) as [Hcov|(pre & e & post & -> & Hpre & He)].
  - rewrite (calculate_cluster_performance_covered _ _ Hlen Hcov). split_and!.
    + intros k. split; [by destruct (decide _)|].
      intros (pre & e & post & -> & _ & Hmiss). exfalso.
      destruct (Hcov e) as [[c1 H1] [c2 H2]]; [apply elem_of_app; right; by left|].
      destruct Hmiss as [[Hn _]|(_ & Hn & _)]; congruence.
    + pose proof (Forall_seqZ_range (fun i => inter_count communities edges i <> 0)
                    (Z.of_nat (length communities))) as Hrange.
      destruct (decide _) as [[Hne Hall]|Hno].
      * split; [done|]. intros [_ [->|(i & Hi & Hz)]]; [done|].
        by destruct (proj1 Hrange Hall i Hi).
      * split; [|done]. intros _. split; [done|].
        destruct communities as [|c cs]; [by left|]. right.
        apply not_and_l in Hno as [Hno|Hno]; [by destruct Hno|].
        apply not_Forall_Exists in Hno; [|apply _].
        apply Exists_exists in Hno as (i & Hi%elem_of_seqZ & Hz).
        exists i. split; [lia|]. by apply dec_stable.
    + by destruct (decide _).
  - rewrite (calculate_cluster_performance_missing _ _ _ _ Hlen Hpre He). split_and!.
    + intros k. split.
      * intros [= <-]. exists pre, e, post. split_and!; [done|done|].
        destruct (decide (community_of communities e.1 = None)) as [Hn|Hs].
        -- by left.
        -- right. apply not_eq_None_Some in Hs. split_and!; [done| |done].
           destruct (community_of communities e.2) eqn:H2; [|done].
           destruct He. split; [done | by eexists].
      * intros (pre' & e' & post' & Heq & Hpre' & Hmiss).
        assert (~ (is_Some (community_of communities e'.1) /\
                   is_Some (community_of communities e'.2))) as He'.
        { intros [[c1 H1] [c2 H2]]. destruct Hmiss as [[Hn _]|(_ & Hn & _)]; congruence. }
        assert (e = e') as <- by (by eapply Hfirst).
        destruct Hmiss as [[Hn ->]|([c1 H1] & Hn & ->)].
        -- by rewrite decide_True.
        -- rewrite decide_False by congruence. done.
    + split; [done|]. intros [Hcov _]. destruct He. apply Hcov.
      apply elem_of_app. right. by left.
    + done.
Qed.

Lemma calculate_cluster_performance_raises_witness :
  graph_clusters.calculate_cluster_performance
    [[VStr "a"]; [VStr "b"]] [(VStr "a", VStr "b"); (VStr "b", VStr "d")] =
  Py.Raise (Py.KeyError (VStr "d")).
Proof.
  apply (proj1 (calculate_cluster_performance_raises
                  [[VStr "a"]; [VStr "b"]]
                  [(VStr "a", VStr "b"); (VStr "b", VStr "d")] ltac:(cbn [length]; lia))).
  exists [(VStr "a", VStr "b")], (VStr "b", VStr "d"), []. split_and!.
  - done.
  - intros e ->%list_elem_of_singleton. split; vm_compute; by eexists.
  - right. split_and!; [vm_compute; by eexists | vm_compute; reflexivity | done].
Defined.
